(** * A shallow embedding of the [validate] schema engine (src/mod.js)

    The development follows the source file top-down: the values the engine
    inspects, the regular expressions of the [patterns] table, the rule-set
    record held by a [Schema], the builder, the recursive [validate] method
    and the [check] method that runs [validate] on a schema's own rules.

    JavaScript features are modelled as the code uses them:
    - numbers are IEEE doubles abstracted to the rationals extended with
      [NaN] and the two infinities;
    - strings are sequences of code units (one [ascii] each);
    - objects, arrays, dates, regular expressions and functions carry an
      address, because [Array.prototype.includes] and [==] compare them by
      identity;
    - a regular expression with the [g] or [y] flag reads and writes its
      [lastIndex]; the store of these indices is threaded through [validate];
    - an exception is an outcome of its own, next to a returned pair
      [[valid, messages]];
    - a template literal is kept as the list of its pieces. *)

From Stdlib Require Import QArith.
From Stdlib Require Import Ascii String DecimalString.
From stdpp Require Import base option list strings gmap.

Close Scope Q_scope.
#[local] Set Warnings "-register-all".
Open Scope string_scope.
Open Scope list_scope.

(** ** Numbers *)

Inductive number :=
| NaN
| Infinity
| NegInfinity
| Finite (q : Q).

Definition of_nat (n : nat) : number := Finite (inject_Z (Z.of_nat n)).
Definition of_Z (z : Z) : number := Finite (inject_Z z).

(** [a < b] on numbers. *)
Definition num_lt (a b : number) : bool :=
  match a, b with
  | NaN, _ | _, NaN => false
  | _, NegInfinity => false
  | Infinity, _ => false
  | NegInfinity, _ => true
  | _, Infinity => true
  | Finite p, Finite q => negb (Qle_bool q p)
  end.

(** [a > b] is [b < a]. *)
Definition num_gt (a b : number) : bool := num_lt b a.

(** [a == b] on numbers ([NaN] differs from itself). *)
Definition num_eq (a b : number) : bool :=
  match a, b with
  | Infinity, Infinity | NegInfinity, NegInfinity => true
  | Finite p, Finite q => Qeq_bool p q
  | _, _ => false
  end.

(** SameValueZero on numbers, the comparison of [includes]. *)
Definition num_same_value_zero (a b : number) : bool :=
  match a, b with
  | NaN, NaN => true
  | _, _ => num_eq a b
  end.

(** [!!(value % 1)]: the remainder is [NaN] for [NaN] and the infinities
    (falsy), and the fractional part of a finite number otherwise. *)
Definition has_fraction (a : number) : bool :=
  match a with
  | Finite q => negb (Z.eqb (Z.modulo (Qnum q) (Zpos (Qden q))) 0)
  | _ => false
  end.

(** ** Strings *)

Definition is_digit (c : ascii) : bool :=
  let n := nat_of_ascii c in (48 <=? n)%nat && (n <=? 57)%nat.

Definition is_lower (c : ascii) : bool :=
  let n := nat_of_ascii c in (97 <=? n)%nat && (n <=? 122)%nat.

Definition is_upper (c : ascii) : bool :=
  let n := nat_of_ascii c in (65 <=? n)%nat && (n <=? 90)%nat.

Definition char_in (set : string) (c : ascii) : bool :=
  existsb (Ascii.eqb c) (list_ascii_of_string set).

(** The decimal text of an array index, as a property key. *)
Definition index_key (i : nat) : string := NilZero.string_of_uint (Nat.to_uint i).

(** A canonical array index among property keys: the text of some [i]. *)
Definition key_index (key : string) : option nat :=
  match NilZero.uint_of_string key with
  | Some u => let i := Nat.of_uint u in
              if String.eqb (index_key i) key then Some i else None
  | None => None
  end.

(** [key.replace(/\.([0-9]+)(?=\.|$)/g, "[$1]")] (line 208): a dot followed
    by a maximal run of digits that ends the string or precedes another dot
    becomes the run in brackets.  [pending] is the run read after a dot. *)
Definition flush (pending : option string) (closed : bool) : string :=
  match pending with
  | None => ""
  | Some "" => "."
  | Some ds => if closed then "[" +:+ ds +:+ "]" else "." +:+ ds
  end.

Fixpoint replace_index (pending : option string) (s : string) : string :=
  match s with
  | "" => flush pending true
  | String c s' =>
      if Ascii.eqb c "." then flush pending true +:+ replace_index (Some "") s'
      else match pending with
           | Some ds =>
               if is_digit c then replace_index (Some (ds +:+ String c "")) s'
               else flush pending false +:+ String c (replace_index None s')
           | None => String c (replace_index None s')
           end
  end.

Definition index_style (key : string) : string := replace_index None key.

(** ** Regular expressions *)

(** The expressions of the [patterns] table, over character classes. *)
Inductive re :=
| Void
| Eps
| Class (p : ascii → bool)
| Cat (r1 r2 : re)
| Alt (r1 r2 : re)
| Star (r : re).

Fixpoint nullable (r : re) : bool :=
  match r with
  | Void | Class _ => false
  | Eps | Star _ => true
  | Cat r1 r2 => nullable r1 && nullable r2
  | Alt r1 r2 => nullable r1 || nullable r2
  end.

Fixpoint deriv (c : ascii) (r : re) : re :=
  match r with
  | Void | Eps => Void
  | Class p => if p c then Eps else Void
  | Cat r1 r2 =>
      if nullable r1 then Alt (Cat (deriv c r1) r2) (deriv c r2)
      else Cat (deriv c r1) r2
  | Alt r1 r2 => Alt (deriv c r1) (deriv c r2)
  | Star r1 => Cat (deriv c r1) (Star r1)
  end.

(** Whether the whole string is in the language: [/^r$/.test(s)]. *)
Fixpoint full_match (r : re) (s : string) : bool :=
  match s with
  | "" => nullable r
  | String c s' => full_match (deriv c r) s'
  end.

Fixpoint times (n : nat) (r : re) : re :=
  match n with
  | O => Eps
  | S n' => Cat r (times n' r)
  end.

Fixpoint at_most (n : nat) (r : re) : re :=
  match n with
  | O => Eps
  | S n' => Alt Eps (Cat r (at_most n' r))
  end.

Definition plus (r : re) : re := Cat r (Star r).
Definition at_least (n : nat) (r : re) : re := Cat (times n r) (Star r).
Definition between (lo hi : nat) (r : re) : re := Cat (times lo r) (at_most (hi - lo) r).
Definition chr (c : ascii) : re := Class (Ascii.eqb c).

Abbreviation addr := nat (only parsing).

(** A regular-expression object: its identity, the text [String(pattern)]
    gives, whether it carries the [g] or [y] flag, and the outcome of a match
    attempt started at an index (the end of the match found). *)
Record regexp := RegExp {
  re_addr : addr;
  re_text : string;
  re_uses_last_index : bool;
  re_exec : nat → string → option nat
}.

(** The store of the [lastIndex] properties, by address; absent means 0. *)
Abbreviation store := (gmap nat nat) (only parsing).

(** [pattern.test(value)]: a [g] or [y] expression starts at its
    [lastIndex], which is set to the end of the match, or to 0 on failure;
    any other expression starts at 0 and leaves the store alone. *)
Definition test (r : regexp) (s : string) (σ : store) : store * bool :=
  if re_uses_last_index r then
    let i := default 0%nat (σ !! re_addr r) in
    match (if (i <=? String.length s)%nat then re_exec r i s else None) with
    | Some e => (<[re_addr r := e]> σ, true)
    | None => (<[re_addr r := 0%nat]> σ, false)
    end
  else (σ, bool_decide (is_Some (re_exec r 0%nat s))).

(** An anchored expression without flags that use [lastIndex]. *)
Definition anchored (a : addr) (text : string) (r : re) : regexp :=
  RegExp a text false (λ _ s, if full_match r s then Some (String.length s) else None).

(** *** The [patterns] table (lines 4-10) *)

Definition hex : re := Class (λ c, is_digit c || char_in "abcdef" c).
Definition lower : re := Class is_lower.
Definition letter : re := Class (λ c, is_lower c || is_upper c).
Definition alnum : re := Class (λ c, is_lower c || is_upper c || is_digit c).
Definition email_local : re :=
  Class (λ c, is_lower c || is_upper c || is_digit c || char_in "_!#$%&'*+/=?`{|}~^.-" c).
Definition email_domain : re :=
  Class (λ c, is_lower c || is_upper c || is_digit c || char_in ".-" c).
(** [.] matches anything but a line terminator. *)
Definition any_char : re :=
  Class (λ c, negb (Ascii.eqb c "010" || Ascii.eqb c "013")).

Definition uuid_re : re :=
  Cat (times 8 hex) (Cat (chr "-") (Cat (times 3 (Cat (times 4 hex) (chr "-"))) (times 12 hex))).
Definition slug_re : re :=
  Cat (plus alnum) (Star (Cat (chr "-") (plus alnum))).
Definition email_re : re :=
  Cat (plus email_local) (Cat (chr "@") (Cat (plus email_domain) (Cat (chr ".") (at_least 2 letter)))).
Definition social_re : re :=
  Cat (between 1 10 letter) (Cat (chr ":") (between 1 50 any_char)).
Definition countryCode_re : re := times 2 lower.

Module patterns.
Definition uuid : regexp :=
  anchored 1 "/^[a-f0-9]{8}-([a-f0-9]{4}-){3}[a-f0-9]{12}$/" uuid_re.
Definition slug : regexp :=
  anchored 2 "/^[a-z0-9]+(?:-[a-z0-9]+)*$/i" slug_re.
Definition email : regexp :=
  anchored 3 "/^[a-z0-9_!#$%&'*+\/=?`{|}~^.-]+@[a-z0-9.-]+\.[a-z]{2,}$/i" email_re.
Definition social : regexp :=
  anchored 4 "/^[a-z]{1,10}:.{1,50}$/i" social_re.
Definition countryCode : regexp :=
  anchored 5 "/^[a-z]{2}$/" countryCode_re.

(** [Object.entries(patterns)]. *)
Definition entries : list (string * regexp) :=
  [("uuid", uuid); ("slug", slug); ("email", email); ("social", social);
   ("countryCode", countryCode)].
End patterns.

(** ** Values *)

(** The values [validate] can tell apart: the primitives, dates, regular
    expressions, functions, arrays (dense) and plain objects, the latter
    with their own enumerable properties in enumeration order. *)

Inductive jsval :=
| VUndefined
| VNull
| VBool (b : bool)
| VNumber (n : number)
| VString (s : string)
| VDate (a : addr) (time : number)
| VRegExp (r : regexp)
| VFunction (a : addr)
| VArray (a : addr) (items : list jsval)
| VObject (a : addr) (fields : list (string * jsval)).

(** The property of an association list in enumeration order. *)
Fixpoint own {A} (key : string) (fields : list (string * A)) : option A :=
  match fields with
  | [] => None
  | (k, v) :: rest => if String.eqb k key then Some v else own key rest
  end.

Definition has_own {A} (key : string) (fields : list (string * A)) : bool :=
  bool_decide (is_Some (own key fields)).

(** What every object inherits from [Object.prototype]. *)
Definition object_prototype : list string :=
  ["constructor"; "hasOwnProperty"; "isPrototypeOf"; "propertyIsEnumerable";
   "toLocaleString"; "toString"; "valueOf"; "__proto__"; "__defineGetter__";
   "__defineSetter__"; "__lookupGetter__"; "__lookupSetter__"].

(** What an array inherits from [Array.prototype] on top of that. *)
Definition array_prototype : list string :=
  ["at"; "concat"; "copyWithin"; "entries"; "every"; "fill"; "filter"; "find";
   "findIndex"; "findLast"; "findLastIndex"; "flat"; "flatMap"; "forEach";
   "includes"; "indexOf"; "join"; "keys"; "lastIndexOf"; "map"; "pop"; "push";
   "reduce"; "reduceRight"; "reverse"; "shift"; "slice"; "some"; "sort";
   "splice"; "toReversed"; "toSorted"; "toSpliced"; "unshift"; "values"; "with"].

Definition mem (key : string) (keys : list string) : bool := existsb (String.eqb key) keys.

(** The utility functions of lines 13-19.  Wrapper objects and class
    instances are not values of the model; [value?.constructor === Object]
    fails for an object that has a property [constructor] of its own. *)
Definition isString (value : jsval) : bool := match value with VString _ => true | _ => false end.
Definition isNumber (value : jsval) : bool := match value with VNumber _ => true | _ => false end.
Definition isDate (value : jsval) : bool := match value with VDate _ _ => true | _ => false end.
Definition isBoolean (value : jsval) : bool := match value with VBool _ => true | _ => false end.
Definition isRegExp (value : jsval) : bool := match value with VRegExp _ => true | _ => false end.
Definition isArray (value : jsval) : bool := match value with VArray _ _ => true | _ => false end.
Definition isObject (value : jsval) : bool :=
  match value with
  | VObject _ fields => negb (has_own "constructor" fields)
  | _ => false
  end.

(** [value[key]] on an object or an array, as lines 331 and 387 read it:
    an own property, else an inherited one, else [undefined].  What is
    inherited is a method, but for [__proto__], which is the prototype
    itself: [Object.prototype], a plain object with nothing to enumerate,
    or [Array.prototype], an array without items. *)
Definition inherited (prototype : jsval) (key : string) : jsval :=
  if String.eqb key "__proto__" then prototype else VFunction 0.

Definition get (value : jsval) (key : string) : jsval :=
  match value with
  | VObject _ fields =>
      match own key fields with
      | Some v => v
      | None => if mem key object_prototype then inherited (VObject 0 []) key else VUndefined
      end
  | VArray _ items =>
      match key_index key with
      | Some i => default VUndefined (items !! i)
      | None =>
          if String.eqb key "length" then VNumber (of_nat (List.length items))
          else if mem key array_prototype || mem key object_prototype
          then inherited (VArray 0 []) key
          else VUndefined
      end
  | _ => VUndefined
  end.

(** [values.includes(value)]: SameValueZero, identity on objects. *)
Definition same_value_zero (x y : jsval) : bool :=
  match x, y with
  | VUndefined, VUndefined | VNull, VNull => true
  | VBool a, VBool b => Bool.eqb a b
  | VNumber a, VNumber b => num_same_value_zero a b
  | VString a, VString b => String.eqb a b
  | VDate a _, VDate b _ | VFunction a, VFunction b
  | VArray a _, VArray b _ | VObject a _, VObject b _ => Nat.eqb a b
  | VRegExp a, VRegExp b => Nat.eqb (re_addr a) (re_addr b)
  | _, _ => false
  end.

Definition includes (values : list jsval) (value : jsval) : bool :=
  existsb (same_value_zero value) values.

(** ** Messages, paths and outcomes *)

(** A template literal: its text and the values interpolated into it. *)
Inductive piece :=
| Txt (s : string)
| Val (v : jsval).

Abbreviation message := (list piece) (only parsing).

(** A path element: a property key or, from line 393, an array index. *)
Inductive path_key :=
| Key (key : string)
| Index (i : nat).

Abbreviation violation := (list string * list piece)%type (only parsing).
Abbreviation result := (bool * list (list string * list piece))%type (only parsing).

Inductive exn :=
| TypeError (what : string)
| Thrown (v : jsval).

(** How a call ends: it returns, it throws, or the fuel of the model ran
    out before it did either. *)
Inductive outcome (A : Type) :=
| Done (a : A)
| Throw (e : exn)
| Unfinished.
Arguments Done {A} a.
Arguments Throw {A} e.
Arguments Unfinished {A}.

Definition M (A : Type) : Type := gmap nat nat → gmap nat nat * outcome A.

Definition ret {A} (a : A) : M A := λ σ, (σ, Done a).
Definition throw {A} (e : exn) : M A := λ σ, (σ, Throw e).
Definition bind {A B} (m : M A) (k : A → M B) : M B :=
  λ σ, match m σ with
       | (σ', Done a) => k a σ'
       | (σ', Throw e) => (σ', Throw e)
       | (σ', Unfinished) => (σ', Unfinished)
       end.

Notation "'let*' x := m 'in' k" := (bind m (λ x, k))
  (at level 10, x pattern, m at level 100, k at level 200).

(** [list.map(f)] for an [f] with effects: left to right, an exception ends it. *)
Fixpoint map_M {A B} (f : A → M B) (l : list A) : M (list B) :=
  match l with
  | [] => ret []
  | x :: rest =>
      let* y := f x in
      let* ys := map_M f rest in
      ret (y :: ys)
  end.

(** The text of a value in a template literal, where it does not depend on
    the host's number or date formatting. *)
Definition to_text (v : jsval) : option string :=
  match v with
  | VUndefined => Some "undefined"
  | VNull => Some "null"
  | VBool b => Some (if b then "true" else "false")
  | VNumber NaN => Some "NaN"
  | VNumber Infinity => Some "Infinity"
  | VNumber NegInfinity => Some "-Infinity"
  | VNumber (Finite q) =>
      if Pos.eqb (Qden q) 1 && (Z.abs (Qnum q) <? 10 ^ 21)%Z
      then Some (NilZero.string_of_int (Z.to_int (Qnum q))) else None
  | VString s => Some s
  | VRegExp r => Some (re_text r)
  | _ => None
  end.

Fixpoint render (m : list piece) : option string :=
  match m with
  | [] => Some ""
  | p :: rest =>
      match (match p with Txt s => Some s | Val v => to_text v end), render rest with
      | Some a, Some b => Some (a +:+ b)
      | _, _ => None
      end
  end.

(** ** Rule sets (line 100 and the builder's arguments) *)

(** A coercer is a function of the caller; it returns or throws and has no
    other effect. *)
Abbreviation coercer := (jsval → exn + jsval)%type (only parsing).

(** What a length or size bound holds besides numbers. *)
Inductive scalar :=
| SUndefined
| SNull
| SBool (b : bool)
| SNumber (n : number).

(** [rules.length] and [rules.size]: a number or an array.  Any other value
    is ignored by lines 244-251 like an absent one, and is left out. *)
Inductive bound :=
| BNumber (n : number)
| BArray (items : list scalar).

Module Props.
(** [rules.props]: the enumerable entries and the two properties that
    [#isObject] defines next to them (lines 164-166). *)
Record t (R : Type) := Make {
  entries : list (string * option R);
  __keys__ : option R;
  __values__ : option R
}.
Arguments Make {R}.
Arguments entries {R}.
Arguments __keys__ {R}.
Arguments __values__ {R}.
End Props.

Module Rules.
(** A rules object; [None] is a property the object does not have. *)
Inductive t := Make {
  required : option bool;
  null : option bool;
  coerce : option (list (jsval → exn + jsval));
  values : option (list jsval);
  union : option (list (option t));
  type : option string;
  length : option bound;
  pattern : option jsval;
  integer : option bool;
  range : option jsval;
  size : option bound;
  props : option (Props.t t)
}.

Definition empty : t :=
  Make None None None None None None None None None None None None.
End Rules.

Abbreviation rules := Rules.t (only parsing).

(** A property of a spread: that of the right-hand object if it has one,
    else that of the left-hand one. *)
Definition over {A} (x y : option A) : option A :=
  match x with Some _ => x | None => y end.

(** [{...a, ...b}]. *)
Definition spread (a b : rules) : rules :=
  {| Rules.required := over (Rules.required b) (Rules.required a);
     Rules.null := over (Rules.null b) (Rules.null a);
     Rules.coerce := over (Rules.coerce b) (Rules.coerce a);
     Rules.values := over (Rules.values b) (Rules.values a);
     Rules.union := over (Rules.union b) (Rules.union a);
     Rules.type := over (Rules.type b) (Rules.type a);
     Rules.length := over (Rules.length b) (Rules.length a);
     Rules.pattern := over (Rules.pattern b) (Rules.pattern a);
     Rules.integer := over (Rules.integer b) (Rules.integer a);
     Rules.range := over (Rules.range b) (Rules.range a);
     Rules.size := over (Rules.size b) (Rules.size a);
     Rules.props := over (Rules.props b) (Rules.props a) |}.

(** The object literals the builder passes to [setRules]. *)
Definition with_required (b : bool) : rules :=
  {| Rules.required := Some b; Rules.null := None; Rules.coerce := None; Rules.values := None;
     Rules.union := None; Rules.type := None; Rules.length := None; Rules.pattern := None;
     Rules.integer := None; Rules.range := None; Rules.size := None; Rules.props := None |}.
Definition with_null (b : bool) : rules :=
  {| Rules.required := None; Rules.null := Some b; Rules.coerce := None; Rules.values := None;
     Rules.union := None; Rules.type := None; Rules.length := None; Rules.pattern := None;
     Rules.integer := None; Rules.range := None; Rules.size := None; Rules.props := None |}.
Definition with_coerce (cs : list (jsval → exn + jsval)) : rules :=
  {| Rules.required := None; Rules.null := None; Rules.coerce := Some cs; Rules.values := None;
     Rules.union := None; Rules.type := None; Rules.length := None; Rules.pattern := None;
     Rules.integer := None; Rules.range := None; Rules.size := None; Rules.props := None |}.
Definition with_values (vs : list jsval) : rules :=
  {| Rules.required := None; Rules.null := None; Rules.coerce := None; Rules.values := Some vs;
     Rules.union := None; Rules.type := None; Rules.length := None; Rules.pattern := None;
     Rules.integer := None; Rules.range := None; Rules.size := None; Rules.props := None |}.
Definition with_union (us : list (option rules)) : rules :=
  {| Rules.required := None; Rules.null := None; Rules.coerce := None; Rules.values := None;
     Rules.union := Some us; Rules.type := None; Rules.length := None; Rules.pattern := None;
     Rules.integer := None; Rules.range := None; Rules.size := None; Rules.props := None |}.
Definition with_type (t : string) : rules :=
  {| Rules.required := None; Rules.null := None; Rules.coerce := None; Rules.values := None;
     Rules.union := None; Rules.type := Some t; Rules.length := None; Rules.pattern := None;
     Rules.integer := None; Rules.range := None; Rules.size := None; Rules.props := None |}.
Definition with_length (b : bound) : rules :=
  {| Rules.required := None; Rules.null := None; Rules.coerce := None; Rules.values := None;
     Rules.union := None; Rules.type := None; Rules.length := Some b; Rules.pattern := None;
     Rules.integer := None; Rules.range := None; Rules.size := None; Rules.props := None |}.
Definition with_pattern (p : jsval) : rules :=
  {| Rules.required := None; Rules.null := None; Rules.coerce := None; Rules.values := None;
     Rules.union := None; Rules.type := None; Rules.length := None; Rules.pattern := Some p;
     Rules.integer := None; Rules.range := None; Rules.size := None; Rules.props := None |}.
Definition with_integer (b : bool) : rules :=
  {| Rules.required := None; Rules.null := None; Rules.coerce := None; Rules.values := None;
     Rules.union := None; Rules.type := None; Rules.length := None; Rules.pattern := None;
     Rules.integer := Some b; Rules.range := None; Rules.size := None; Rules.props := None |}.
Definition with_range (v : jsval) : rules :=
  {| Rules.required := None; Rules.null := None; Rules.coerce := None; Rules.values := None;
     Rules.union := None; Rules.type := None; Rules.length := None; Rules.pattern := None;
     Rules.integer := None; Rules.range := Some v; Rules.size := None; Rules.props := None |}.
Definition with_size (b : bound) : rules :=
  {| Rules.required := None; Rules.null := None; Rules.coerce := None; Rules.values := None;
     Rules.union := None; Rules.type := None; Rules.length := None; Rules.pattern := None;
     Rules.integer := None; Rules.range := None; Rules.size := Some b; Rules.props := None |}.
Definition with_props (p : Props.t rules) : rules :=
  {| Rules.required := None; Rules.null := None; Rules.coerce := None; Rules.values := None;
     Rules.union := None; Rules.type := None; Rules.length := None; Rules.pattern := None;
     Rules.integer := None; Rules.range := None; Rules.size := None; Rules.props := Some p |}.

(** Line 100: [{required: true, null: false, coerce: [], values: [],
    union: [], type: "string"}]. *)
Definition defaults : rules :=
  {| Rules.required := Some true; Rules.null := Some false; Rules.coerce := Some [];
     Rules.values := Some []; Rules.union := Some []; Rules.type := Some "string";
     Rules.length := None; Rules.pattern := None; Rules.integer := None;
     Rules.range := None; Rules.size := None; Rules.props := None |}.

(** ** [validate] (lines 206-414) *)

Definition ok : M (bool * list (list string * list piece)) := ret (true, []).

(** Line 208: every key of the path goes through [key.replace]; a number
    has no such method. *)
Definition rendered (key : path_key) : option string :=
  match key with
  | Key k => Some (index_style k)
  | Index _ => None
  end.

Definition error (path : list path_key) (message : list piece)
  : M (bool * list (list string * list piece)) :=
  match mapM rendered path with
  | Some keys => ret (false, [(keys, message)])
  | None => throw (TypeError "key.replace is not a function")
  end.

(** A property that must be there to be read further ([rules.coerce.length]). *)
Definition property {A} (field : option A) : M A :=
  match field with
  | Some x => ret x
  | None => throw (TypeError "Cannot read properties of undefined (reading 'length')")
  end.

(** Line 216: [rules.coerce.reduce((value_, coercer) => coercer(value_), value)]. *)
Fixpoint coerced (coercers : list (jsval → exn + jsval)) (value : jsval) : M jsval :=
  match coercers with
  | [] => ret value
  | coercer :: rest =>
      match coercer value with
      | inl e => throw e
      | inr value_ => coerced rest value_
      end
  end.

(** [ToNumber] on what a bound holds. *)
Definition to_number (x : scalar) : number :=
  match x with
  | SUndefined => NaN
  | SNull => of_nat 0
  | SBool b => of_nat (if b then 1 else 0)
  | SNumber n => n
  end.

Definition scalar_value (x : scalar) : jsval :=
  match x with
  | SUndefined => VUndefined
  | SNull => VNull
  | SBool b => VBool b
  | SNumber n => VNumber n
  end.

(** [const [min, max] = array]. *)
Definition item {A} (undefined : A) (i : nat) (items : list A) : A := default undefined (items !! i).

(** Lines 244-251: the first failed length test, if any. *)
Definition length_violation (length : number) (b : option bound) : option (list piece) :=
  match b with
  | Some (BNumber n) =>
      if negb (num_eq length n) then Some [Txt "length is not "; Val (VNumber n); Txt "."] else None
  | Some (BArray items) =>
      let min := item SUndefined 0 items in
      let max := item SUndefined 1 items in
      if num_lt length (to_number min)
      then Some [Txt "is shorter than "; Val (scalar_value min); Txt " characters."]
      else if num_gt length (to_number max)
      then Some [Txt "is longer than "; Val (scalar_value max); Txt " characters."]
      else None
  | None => None
  end.

(** Lines 309-316 and 368-375: the first failed size test, if any. *)
Definition size_violation (one many : string) (size : number) (b : option bound)
  : option (list piece) :=
  match b with
  | Some (BNumber n) =>
      if negb (num_eq size n)
      then Some [Txt "does not have exactly "; Val (VNumber n); Txt " ";
                 Txt (if num_eq n (of_nat 1) then one else many); Txt "."]
      else None
  | Some (BArray items) =>
      let min := item SUndefined 0 items in
      let max := item SUndefined 1 items in
      if num_lt size (to_number min)
      then Some [Txt "has fewer than "; Val (scalar_value min); Txt (" " +:+ many +:+ ".")]
      else if num_gt size (to_number max)
      then Some [Txt "has more than "; Val (scalar_value max); Txt (" " +:+ many +:+ ".")]
      else None
  | None => None
  end.

(** Lines 268-272: the first failed range test of a number, if any. *)
Definition below (value : number) (min : jsval) : bool :=
  match min with VNumber lo => num_lt value lo | _ => false end.
Definition above (value : number) (max : jsval) : bool :=
  match max with VNumber hi => num_gt value hi | _ => false end.

Definition number_range_violation (value : number) (range : option jsval) : option (list piece) :=
  match range with
  | Some (VArray _ items) =>
      let min := item VUndefined 0 items in
      let max := item VUndefined 1 items in
      if below value min then Some [Txt "is less than "; Val min; Txt "."]
      else if above value max then Some [Txt "is greater than "; Val max; Txt "."]
      else None
  | _ => None
  end.

(** Lines 282-286: the same for a date, against bounds that are dates. *)
Definition before (time : number) (min : jsval) : bool :=
  match min with VDate _ lo => num_lt time lo | _ => false end.
Definition after (time : number) (max : jsval) : bool :=
  match max with VDate _ hi => num_gt time hi | _ => false end.

Definition date_range_violation (time : number) (range : option jsval) : option (list piece) :=
  match range with
  | Some (VArray _ items) =>
      let min := item VUndefined 0 items in
      let max := item VUndefined 1 items in
      if before time min then Some [Txt "is before "; Val min; Txt "."]
      else if after time max then Some [Txt "is after "; Val max; Txt "."]
      else None
  | _ => None
  end.

(** Line 255: [Object.entries(patterns).find(([_, pattern]) => pattern == rules.pattern)]. *)
Definition find_pattern (r : regexp) : option (string * regexp) :=
  List.find (λ entry, Nat.eqb (re_addr (snd entry)) (re_addr r)) patterns.entries.

(** [key in rules.props] (lines 337, 344 and 393): own, defined by
    [#isObject], or inherited. *)
Definition key_in (key : string) (p : Props.t rules) : bool :=
  has_own key (Props.entries p)
  || mem key ["__keys__"; "__values__"]
  || mem key object_prototype.

(** The two reductions of lines 228-231 and 348-351. *)
Definition any_valid (results : list (bool * list (list string * list piece)))
  : bool * list (list string * list piece) :=
  foldl (λ acc r, (fst acc || fst r, snd acc ++ snd r)) (false, []) results.

Definition all_valid (results : list (bool * list (list string * list piece)))
  : bool * list (list string * list piece) :=
  foldl (λ acc r, (fst acc && fst r, snd acc ++ snd r)) (true, []) results.

(** Lines 352-358: the messages are returned only with an invalid verdict. *)
Definition concluded (results : list (bool * list (list string * list piece)))
  : M (bool * list (list string * list piece)) :=
  let '(valid, messages) := all_valid results in
  if negb valid then ret (false, messages) else ok.

(** Line 227: [{...rules, ...rules_, union: []}]. *)
Definition alternative (rules : rules) (rules_ : option Rules.t) : Rules.t :=
  spread (spread rules (default Rules.empty rules_)) (with_union []).

(** The cases of the [switch] of line 236; any other type has no case. *)
Inductive kind := KString | KNumber | KDate | KBoolean | KRegExp | KObject | KArray.

Definition switch (type : option string) : option kind :=
  match type with
  | Some t =>
      if String.eqb t "string" then Some KString
      else if String.eqb t "number" then Some KNumber
      else if String.eqb t "date" then Some KDate
      else if String.eqb t "boolean" then Some KBoolean
      else if String.eqb t "regexp" then Some KRegExp
      else if String.eqb t "object" then Some KObject
      else if String.eqb t "array" then Some KArray
      else None
  | None => None
  end.

(** [isObject(rules.props)] (lines 319 and 378). *)
Definition structured (rules : Rules.t) : option (Props.t Rules.t) :=
  match Rules.props rules with
  | Some p => if has_own "constructor" (Props.entries p) then None else Some p
  | None => None
  end.

(** [!(new Set(Object.keys(rules.props))).isSupersetOf(new Set(Object.keys(value)))]. *)
Definition unspecified (p : Props.t Rules.t) (fields : list (string * jsval)) : bool :=
  negb (forallb (λ key, has_own key (Props.entries p)) (map fst fields)).

Definition test_M (pattern : regexp) (s : string) : M bool :=
  λ σ, let '(σ', b) := test pattern s σ in (σ', Done b).

Definition indexed {A} (items : list A) : list (nat * A) := imap pair items.

(** [this] is [this.rules], the default of the parameter [rules]: an entry
    of [rules.props] that holds [undefined] is validated against it. *)
Fixpoint validate (fuel : nat) (this : Rules.t) (value : jsval) (rules : Rules.t)
    (path : list path_key) {struct fuel} : M (bool * list (list string * list piece)) :=
  match fuel with
  | O => λ σ, (σ, Unfinished)
  | S fuel =>
    let error := error path in
    match value with
    | VUndefined =>
        if default false (Rules.required rules) then error [Txt "is undefined."] else ok
    | VNull =>
        if negb (default false (Rules.null rules)) then error [Txt "is null."] else ok
    | _ =>
    let* coercers := property (Rules.coerce rules) in
    let* value := coerced coercers value in
    let* values := property (Rules.values rules) in
    match values with
    | _ :: _ =>
        if negb (includes values value) then error [Txt "does not equal any required value."]
        else ok
    | [] =>
    let* union := property (Rules.union rules) in
    match union with
    | _ :: _ =>
        let* results :=
          map_M (λ rules_, validate fuel this value (alternative rules rules_) path) union in
        ret (any_valid results)
    | [] =>
    match switch (Rules.type rules) with
    | Some KString =>
        match value with
        | VString s =>
            match length_violation (of_nat (String.length s)) (Rules.length rules) with
            | Some message => error message
            | None =>
                match Rules.pattern rules with
                | Some (VRegExp pattern) =>
                    let* matched := test_M pattern s in
                    if negb matched then
                      match find_pattern pattern with
                      | Some (key, _) =>
                          error [Txt "does not match the pattern `";
                                 Val (if String.eqb key "" then VRegExp pattern else VString key);
                                 Txt "`."]
                      | None => throw (TypeError "undefined is not iterable")
                      end
                    else ok
                | _ => ok
                end
            end
        | _ => error [Txt "is not a string."]
        end
    | Some KNumber =>
        match value with
        | VNumber n =>
            if default false (Rules.integer rules) && has_fraction n
            then error [Txt "is not an integer"]
            else match number_range_violation n (Rules.range rules) with
                 | Some message => error message
                 | None => ok
                 end
        | _ => error [Txt "is not a number"]
        end
    | Some KDate =>
        match value with
        | VDate _ time =>
            match date_range_violation time (Rules.range rules) with
            | Some message => error message
            | None => ok
            end
        | _ => error [Txt "is not a date."]
        end
    | Some KBoolean =>
        if negb (isBoolean value) then error [Txt "is not a boolean."] else ok
    | Some KRegExp =>
        if negb (isRegExp value) then error [Txt "is not a regular expression."] else ok
    | Some KObject =>
        match value with
        | VObject _ fields =>
            if negb (isObject value) then error [Txt "is not an object."] else
            match size_violation "property" "properties" (of_nat (List.length fields))
                    (Rules.size rules) with
            | Some message => error message
            | None =>
                match structured rules with
                | Some props =>
                    if bool_decide (Props.__keys__ props = None ∧ Props.__values__ props = None)
                       && unspecified props fields
                    then error [Txt "contains unspecified properties."]
                    else
                      let* named :=
                        map_M (λ '(key, rules_),
                                 validate fuel this (get value key) (default this rules_)
                                   (path ++ [Key key]))
                              (Props.entries props) in
                      let unnamed := filter (λ entry, negb (key_in (fst entry) props)) fields in
                      let* keys :=
                        match Props.__keys__ props with
                        | Some rules_ =>
                            map_M (λ '(key, _),
                                     validate fuel this (VString key) rules_
                                       (path ++ [Key (key +:+ "*")]))
                                  unnamed
                        | None => ret []
                        end in
                      let* values :=
                        match Props.__values__ props with
                        | Some rules_ =>
                            map_M (λ '(key, value_),
                                     validate fuel this value_ rules_ (path ++ [Key key]))
                                  unnamed
                        | None => ret []
                        end in
                      concluded (named ++ keys ++ values)
                | None => ok
                end
            end
        | _ => error [Txt "is not an object."]
        end
    | Some KArray =>
        match value with
        | VArray _ items =>
            match size_violation "item" "items" (of_nat (List.length items))
                    (Rules.size rules) with
            | Some message => error message
            | None =>
                match structured rules with
                | Some props =>
                    if bool_decide (Props.__values__ props = None)
                       && (List.length (Props.entries props) <? List.length items)%nat
                    then error [Txt "contains unspecified items."]
                    else
                      let* named :=
                        map_M (λ '(key, rules_),
                                 validate fuel this (get value key) (default this rules_)
                                   (path ++ [Key key]))
                              (Props.entries props) in
                      let* additional :=
                        match Props.__values__ props with
                        | Some rules_ =>
                            map_M (λ '(i, value_),
                                     if negb (key_in (index_key i) props)
                                     then let* r := validate fuel this value_ rules_
                                                      (path ++ [Index i]) in
                                          ret (Some r)
                                     else ret None)
                                  (indexed items)
                        | None => ret []
                        end in
                      concluded (named ++ omap id additional)
                | None => ok
                end
            end
        | _ => error [Txt "is not an array."]
        end
    | None => ok
    end
    end
    end
    end
  end.

(** [schema.validate(value)]: the two defaults of line 206. *)
Definition Schema_validate (fuel : nat) (this : Rules.t) (value : jsval)
  : M (bool * list (list string * list piece)) :=
  validate fuel this value this [].

(** ** The builder (lines 48-203) *)

Module Schema.

(** The [Schema] instances, in allocation order; a handle is an index and
    an instance holds its current [rules] object. *)
Abbreviation heap := (list Rules.t) (only parsing).

(** An argument of [isObject] and [isArray]: an instance, a plain object
    whose properties hold instances or values that have no [rules] and are
    neither [Object] nor the class [Schema] (a function, say), or
    [undefined]. *)
Inductive arg :=
| ASchema (schema : nat)
| AEntries (entries : list (string * option nat))
| AUndefined.

(** The instance methods and getters. *)
Inductive method :=
| isRequired | isOptional | isNotNull | mayBeNull
| coerce (coercers : list (jsval → exn + jsval))
| is_ (value : jsval)
| isAnyOf (values : list jsval)
| isEither (schemas : list nat)
| isString | isUUID | isSlug | isEmail
| hasLength
| lengthIsAtLeast (min : scalar)
| lengthIsAtMost (max : scalar)
| lengthIsBetween (min max : scalar)
| lengthIs (length : bound)
| matches (pattern : jsval)
| isNumber | isInteger | isFloat
| isDate
| isAtLeast (min : jsval)
| isAtMost (max : jsval)
| isBetween (min max : jsval)
| isNotBefore (min : jsval)
| isNotAfter (max : jsval)
| isBoolean | isRegExp
| isObject (args : list arg)
| isArray (args : list arg)
| hasExactly (size : bound)
| hasAtLeast (min : scalar)
| hasAtMost (max : scalar)
| hasBetween (min max : scalar).

(** [schema?.rules] of an optional instance. *)
Definition rules_of (h : heap) (schema : option nat) : option Rules.t :=
  match schema with
  | Some s => h !! s
  | None => None
  end.

(** [#isObject(keys, values, entries={}, type="object")] up to its call
    of [setRules] (lines 163-168), for [keys?.rules] and [values?.rules]
    that are rules objects or [undefined].  An entry named [__keys__] or
    [__values__] is a property that lines 165-166 find there: they assign
    it [keys?.rules] or [values?.rules] and leave it enumerable. *)
Definition isObject_ (h : heap) (keys values : option nat)
    (entries : list (string * option nat)) (type : string) : Rules.t :=
  let props :=
    Props.Make (map (λ '(key, schema),
                       (key, if String.eqb key "__keys__" then rules_of h keys
                             else if String.eqb key "__values__" then rules_of h values
                             else rules_of h schema)) entries)
               (rules_of h keys) (rules_of h values) in
  spread (with_type type) (with_props props).

(** What a call passes to [#isObject] at a position: an argument of the
    caller, or a string of the method's own. *)
Inductive actual :=
| Arg (a : arg)
| Text (s : string).

(** How a call of [isObject] or [isArray] ends: it reaches [setRules] with
    an object literal, it throws, it returns [undefined], or it reaches
    [setRules] with a [props] that the model does not hold (a [__keys__] or
    [__values__] that is neither a rules object nor [undefined]). *)
Inductive dispatched :=
| SetRules (literal : Rules.t)
| Throws (e : exn)
| ReturnsUndefined
| Unmodelled.

(** [keys?.rules] and [values?.rules]: the rules of an instance,
    [undefined] for [undefined], for a string and for a plain object without
    a property [rules]; [None] for a plain object that has one. *)
Definition schema_arg (a : option actual) : option (option nat) :=
  match a with
  | Some (Arg (ASchema s)) => Some (Some s)
  | Some (Arg (AEntries es)) => if has_own "rules" es then None else Some None
  | Some (Arg AUndefined) | Some (Text _) | None => Some None
  end.

(** [Object.entries(text)] for a string, each character with its [rules]:
    a character has none. *)
Definition text_entries (text : string) : list (string * option nat) :=
  imap (λ i _, (index_key i, None)) (list_ascii_of_string text).

(** [Object.entries(entries)], each value with its [rules], for the
    parameter [entries={}]: the one enumerable property of an instance is
    its [rules], an object without a property [rules]. *)
Definition entries_arg (a : option actual) : list (string * option nat) :=
  match a with
  | Some (Arg (AEntries es)) => es
  | Some (Arg (ASchema _)) => [("rules", None)]
  | Some (Arg AUndefined) | None => []
  | Some (Text text) => text_entries text
  end.

(** The parameter [type="object"]; the callers pass a string or nothing. *)
Definition type_arg (a : option actual) : string :=
  match a with
  | Some (Text type) => type
  | _ => "object"
  end.

(** [this.#isObject(...actuals)]: the parameters by position. *)
Definition private_isObject (h : heap) (actuals : list actual) : dispatched :=
  match schema_arg (actuals !! 0%nat), schema_arg (actuals !! 1%nat) with
  | Some keys, Some values =>
      SetRules (isObject_ h keys values (entries_arg (actuals !! 2%nat))
                  (type_arg (actuals !! 3%nat)))
  | _, _ => Unmodelled
  end.

(** The case of [switch(args[0].constructor)] (lines 174 and 189): the
    class of an instance, [Object] for a plain object that has no
    [constructor] of its own, no case for one that has. *)
Inductive constructor_case := CaseSchema | CaseObject | NoCase.

Definition constructor_of (a : arg) : exn + constructor_case :=
  match a with
  | ASchema _ => inr CaseSchema
  | AEntries es => inr (if has_own "constructor" es then NoCase else CaseObject)
  | AUndefined =>
      inl (TypeError "Cannot read properties of undefined (reading 'constructor')")
  end.

(** [isObject(...args)] (lines 170-182); one argument that meets no case
    of the inner [switch] falls through to [case 2]. *)
Definition isObject_args (h : heap) (args : list arg) : dispatched :=
  match args with
  | [] => private_isObject h []
  | [a] =>
      match constructor_of a with
      | inl e => Throws e
      | inr CaseSchema => private_isObject h [Arg AUndefined; Arg a]
      | inr CaseObject => private_isObject h [Arg AUndefined; Arg AUndefined; Arg a]
      | inr NoCase => private_isObject h (map Arg args)
      end
  | [_; _] | [_; _; _] => private_isObject h (map Arg args)
  | _ => ReturnsUndefined
  end.

(** [isArray(...args)] (lines 185-197); one argument that meets no case
    falls through to [case 2], where ["array"] comes third. *)
Definition isArray_args (h : heap) (args : list arg) : dispatched :=
  match args with
  | [] => private_isObject h [Arg AUndefined; Arg AUndefined; Arg AUndefined; Text "array"]
  | [a] =>
      match constructor_of a with
      | inl e => Throws e
      | inr CaseSchema =>
          private_isObject h [Arg AUndefined; Arg a; Arg AUndefined; Text "array"]
      | inr CaseObject =>
          private_isObject h [Arg AUndefined; Arg AUndefined; Arg a; Text "array"]
      | inr NoCase => private_isObject h (map Arg args ++ [Arg AUndefined; Text "array"])
      end
  | [_; _] => private_isObject h (map Arg args ++ [Arg AUndefined; Text "array"])
  | [_; _; _] => private_isObject h (map Arg args ++ [Text "array"])
  | _ => ReturnsUndefined
  end.

(** The object literal of a call that reaches [setRules]. *)
Definition reached (d : dispatched) : option Rules.t :=
  match d with
  | SetRules literal => Some literal
  | _ => None
  end.

Definition pair_of (min max : scalar) : bound := BArray [min; max].
Definition range_of (min max : jsval) : jsval := VArray 0 [min; max].

(** The object literal a method passes to [setRules]; [None] for a call
    of [isObject] or [isArray] that does not pass one (see [dispatched]). *)
Definition literal (h : heap) (m : method) : option Rules.t :=
  match m with
  | isRequired => Some (with_required true)
  | isOptional => Some (with_required false)
  | isNotNull => Some (with_null false)
  | mayBeNull => Some (with_null true)
  | coerce coercers => Some (with_coerce coercers)
  | is_ value => Some (with_values [value])
  | isAnyOf values => Some (with_values values)
  | isEither schemas => Some (with_union (map (λ schema, h !! schema) schemas))
  | isString => Some (with_type "string")
  | isUUID => Some (spread (with_type "string") (with_pattern (VRegExp patterns.uuid)))
  | isSlug =>
      Some (spread (spread (with_type "string") (with_pattern (VRegExp patterns.slug)))
              (with_length (pair_of (SNumber (of_nat 0)) (SNumber (of_nat 20)))))
  | isEmail =>
      Some (spread (spread (with_type "string") (with_pattern (VRegExp patterns.email)))
              (with_length (pair_of (SNumber (of_nat 0)) (SNumber (of_nat 100)))))
  | hasLength => Some (with_length (pair_of (SNumber (of_nat 1)) (SNumber Infinity)))
  | lengthIsAtLeast min => Some (with_length (pair_of min (SNumber Infinity)))
  | lengthIsAtMost max => Some (with_length (pair_of (SNumber NegInfinity) max))
  | lengthIsBetween min max => Some (with_length (pair_of min max))
  | lengthIs length => Some (with_length length)
  | matches pattern => Some (with_pattern pattern)
  | isNumber | isFloat => Some (spread (with_type "number") (with_integer false))
  | isInteger => Some (spread (with_type "number") (with_integer true))
  | isDate => Some (with_type "date")
  | isAtLeast min | isNotBefore min => Some (with_range (range_of min (VNumber Infinity)))
  | isAtMost max | isNotAfter max => Some (with_range (range_of (VNumber NegInfinity) max))
  | isBetween min max => Some (with_range (range_of min max))
  | isBoolean => Some (with_type "boolean")
  | isRegExp => Some (with_type "regexp")
  | isObject args => reached (isObject_args h args)
  | isArray args => reached (isArray_args h args)
  | hasExactly size => Some (with_size size)
  | hasAtLeast min => Some (with_size (pair_of min (SNumber Infinity)))
  | hasAtMost max => Some (with_size (pair_of (SNumber NegInfinity) max))
  | hasBetween min max => Some (with_size (pair_of min max))
  end.

(** Lines 102-105: [this.rules = {...this.rules, ...rules}; return this]. *)
Definition setRules (this : nat) (rules : Rules.t) (h : heap) : heap * nat :=
  (alter (λ old, spread old rules) this h, this).

(** [this.m(...)] on an instance. *)
Definition call (this : nat) (m : method) (h : heap) : option (heap * nat) :=
  rules ← literal h m; Some (setRules this rules h).

(** [new this()]: a fresh instance with the rules of line 100. *)
Definition new (h : heap) : heap * nat := (h ++ [defaults], List.length h).

(** The static shorthands of lines 50-98: [new this().m(...)]. *)
Definition static (m : method) (h : heap) : option (heap * nat) :=
  let '(h', this) := new h in call this m h'.

(** [Schema.m1.m2...]: a static shorthand and a chain on its result. *)
Fixpoint chained (this : nat) (ms : list method) (h : heap) : option (heap * nat) :=
  match ms with
  | [] => Some (h, this)
  | m :: rest => '(h', this') ← call this m h; chained this' rest h'
  end.

Definition chain (ms : list method) (h : heap) : option (heap * nat) :=
  let '(h', this) := new h in chained this ms h'.

(** The rules of the instance an expression evaluates to. *)
Definition built (e : option (list Rules.t * nat)) : option Rules.t :=
  '(h, this) ← e; h !! this.

End Schema.

(** ** [check] (lines 417-435) *)

(** A rules object read as a value: its properties, those it has.  The
    coercers are functions; [__keys__] and [__values__] are not enumerable
    and stay out of the entries of [props]. *)
Definition bound_value (b : bound) : jsval :=
  match b with
  | BNumber n => VNumber n
  | BArray items => VArray 0 (map scalar_value items)
  end.

Fixpoint present (fields : list (string * option jsval)) : list (string * jsval) :=
  match fields with
  | [] => []
  | (key, Some v) :: rest => (key, v) :: present rest
  | (_, None) :: rest => present rest
  end.

Definition properties (optional : option Rules.t → jsval) (rules : Rules.t)
  : list (string * option jsval) :=
  [("required", VBool <$> Rules.required rules);
   ("null", VBool <$> Rules.null rules);
   ("coerce", (λ cs, VArray 0 (map (λ _, VFunction 0) cs)) <$> Rules.coerce rules);
   ("values", VArray 0 <$> Rules.values rules);
   ("union", (λ us, VArray 0 (map optional us)) <$> Rules.union rules);
   ("type", VString <$> Rules.type rules);
   ("length", bound_value <$> Rules.length rules);
   ("pattern", Rules.pattern rules);
   ("integer", VBool <$> Rules.integer rules);
   ("range", Rules.range rules);
   ("size", bound_value <$> Rules.size rules);
   ("props", (λ p, VObject 0 (map (λ '(key, o), (key, optional o)) (Props.entries p)))
               <$> Rules.props rules)].

Fixpoint value_of (rules : Rules.t) : jsval :=
  VObject 0 (present
    (properties (λ o, match o with Some r => value_of r | None => VUndefined end) rules)).

Module Check.
Import Schema.

Definition one : number := of_nat 1.
Definition two : number := of_nat 2.

(** [µ.isOptional.isEither(µ.isInteger, µ.isArray({0: µ.isInteger,
    1: µ.isInteger}).hasExactly(2))] (lines 426 and 430). *)
Definition integer_or_pair (h : list Rules.t) : option (list Rules.t * nat) :=
  '(h, o) ← static isOptional h;
  '(h, i) ← static isInteger h;
  '(h, e0) ← static isInteger h;
  '(h, e1) ← static isInteger h;
  '(h, a) ← chain [isArray [AEntries [("0", Some e0); ("1", Some e1)]];
                   hasExactly (BNumber two)] h;
  call o (isEither [i; a]) h.

(** [µ.isEither(µ.isNumber, µ.isDate)] (line 429). *)
Definition number_or_date (h : list Rules.t) : option (list Rules.t * nat) :=
  '(h, n) ← static isNumber h;
  '(h, d) ← static isDate h;
  static (isEither [n; d]) h.

(** The schema of lines 419-432.  [µ.isArray] on line 422 is the static
    method itself, a function: it has no [rules]. *)
Definition schema (h : list Rules.t) : option (list Rules.t * nat) :=
  '(h, required) ← static isBoolean h;
  '(h, null) ← static isBoolean h;
  '(h, values) ← chain [isArray []; hasAtLeast (SNumber one)] h;
  '(h, union) ← chain [isArray []; hasAtLeast (SNumber two)] h;
  '(h, type) ←
    static (isAnyOf [VString "string"; VString "number"; VString "date"; VString "boolean";
                     VString "regexp"; VString "object"; VString "array"]) h;
  '(h, length) ← integer_or_pair h;
  '(h, pattern) ← chain [isOptional; isRegExp] h;
  '(h, integer) ← chain [isOptional; isBoolean] h;
  '(h, r) ← static isOptional h;
  '(h, r0) ← number_or_date h;
  '(h, r1) ← number_or_date h;
  '(h, r') ← call r (isArray [AEntries [("0", Some r0); ("1", Some r1)]]) h;
  '(h, range) ← call r' (hasExactly (BNumber two)) h;
  '(h, size) ← integer_or_pair h;
  '(h, p) ← static isOptional h;
  '(h, any) ← static (isObject []) h;
  '(h, props) ← call p (isObject [ASchema any]) h;
  static (isObject [AEntries
    [("required", Some required); ("null", Some null); ("coerce", None);
     ("values", Some values); ("union", Some union); ("type", Some type);
     ("length", Some length); ("pattern", Some pattern); ("integer", Some integer);
     ("range", Some range); ("size", Some size); ("props", Some props)]]) h.

(** The rules of that schema; it is made of fresh instances only. *)
Definition rules : Rules.t :=
  Eval vm_compute in default Rules.empty (built (schema [])).

(** Its [props]. *)
Definition props : Props.t Rules.t :=
  Eval vm_compute in default (Props.Make [] None None) (Rules.props rules).
End Check.

Definition check (fuel : nat) (this : Rules.t) : M (bool * list (list string * list piece)) :=
  Schema_validate fuel Check.rules (value_of this).

(** ** Properties of rule sets *)

(** [P] holds of a rules object and of every rules object [validate] can
    reach from it: the alternatives of its union, the entries of its
    [props] and the two rules next to them.  An entry that holds
    [undefined] stands for [this.rules]; [undefined_ok] says whether such
    entries are allowed. *)
Fixpoint hereditarily (P : Rules.t → bool) (undefined_ok : bool) (r : Rules.t) : bool :=
  let inside (o : option Rules.t) : bool :=
    match o with Some r' => hereditarily P undefined_ok r' | None => true end in
  P r
  && match Rules.union r with
     | Some us => forallb inside us
     | None => true
     end
  && match Rules.props r with
     | Some p =>
         forallb (λ e, match snd e with
                       | Some r' => hereditarily P undefined_ok r'
                       | None => undefined_ok
                       end) (Props.entries p)
         && inside (Props.__keys__ p) && inside (Props.__values__ p)
     | None => true
     end.

(** No entry of a [props] holds [undefined]: [this.rules] is never the
    default of a recursive call. *)
Definition closed : Rules.t → bool := hereditarily (λ _, true) false.

(** No pattern is an expression with the [g] or [y] flag. *)
Definition stateless_pattern (r : Rules.t) : bool :=
  match Rules.pattern r with
  | Some (VRegExp p) => negb (re_uses_last_index p)
  | _ => true
  end.

Definition stateless : Rules.t → bool := hereditarily stateless_pattern true.

(** The nesting depth of a rules object, counting an alternative of a
    union as a level of its own. *)
Fixpoint depth (r : Rules.t) : nat :=
  let inside (o : option Rules.t) : nat :=
    match o with Some r' => depth r' | None => 0 end in
  S (max
       match Rules.union r with
       | Some us => max_list (map (λ o, match o with Some u => depth u | None => 1 end) us)
       | None => 0
       end
       match Rules.props r with
       | Some p =>
           max (max_list (map (λ e, inside (snd e)) (Props.entries p)))
               (max (inside (Props.__keys__ p)) (inside (Props.__values__ p)))
       | None => 0
       end)%nat.


(** Rules on which [validate] cannot throw: no coercers, no pattern, the
    properties that lines 215-226 read are there, no array is given a rule
    for its additional items (whose paths hold indices), and a union has no
    [props] of its own to hand down to its alternatives. *)
Definition tame_here (r : Rules.t) : bool :=
  match Rules.coerce r with Some [] => true | _ => false end
  && bool_decide (is_Some (Rules.values r))
  && bool_decide (is_Some (Rules.type r))
  && match Rules.pattern r with Some (VRegExp _) => false | _ => true end
  && match Rules.union r with
     | Some [] => true
     | Some (_ :: _) => match Rules.props r with None => true | Some _ => false end
     | None => false
     end
  && match switch (Rules.type r), Rules.props r with
     | Some KArray, Some p =>
         match Props.__values__ p with None => true | Some _ => false end
     | _, _ => true
     end.

Definition tame : Rules.t → bool := hereditarily tame_here false.

(** The six properties of line 100 are there, as in every rules object
    that the builder makes. *)
Definition complete (r : Rules.t) : bool :=
  bool_decide (is_Some (Rules.required r)) && bool_decide (is_Some (Rules.null r))
  && bool_decide (is_Some (Rules.coerce r)) && bool_decide (is_Some (Rules.values r))
  && bool_decide (is_Some (Rules.union r)) && bool_decide (is_Some (Rules.type r)).

(** Lines 329-332 and 385-388: the named members, each at its own path. *)
Definition named (fuel : nat) (this : Rules.t) (value : jsval) (path : list path_key)
    (p : Props.t Rules.t) : M (list (bool * list (list string * list piece))) :=
  map_M (λ '(key, rules_),
           validate fuel this (get value key) (default this rules_) (path ++ [Key key]))
        (Props.entries p).

(** ** The schemas and values of the scenarios *)

Module Scenario.
Import Schema.

Definition num (n : nat) : jsval := VNumber (of_nat n).

(** [Schema.isEither(Schema.isNumber, Schema.isBoolean)]. *)
Definition number_or_boolean (h : list Rules.t) : option (list Rules.t * nat) :=
  '(h, n) ← static isNumber h;
  '(h, b) ← static isBoolean h;
  static (isEither [n; b]) h.

(** [Schema.isObject({id: Schema.isUUID, tags: Schema.isArray(Schema.isString)})]. *)
Definition id_and_tags (h : list Rules.t) : option (list Rules.t * nat) :=
  '(h, id) ← static isUUID h;
  '(h, s) ← static isString h;
  '(h, tags) ← static (isArray [ASchema s]) h;
  static (isObject [AEntries [("id", Some id); ("tags", Some tags)]]) h.

(** [{id: "not-a-uuid", tags: ["a", 1]}]. *)
Definition not_a_uuid : jsval :=
  VObject 10 [("id", VString "not-a-uuid"); ("tags", VArray 11 [VString "a"; num 1])].

(** The end of the first [c] of [s] at or after index [i]. *)
Fixpoint find_char (c : ascii) (i : nat) (s : string) : option nat :=
  match s with
  | "" => None
  | String x s' =>
      match i with
      | O => if Ascii.eqb x c then Some 1%nat else S <$> find_char c 0 s'
      | S i' => S <$> find_char c i' s'
      end
  end.

(** [/a/g], and [/^a$/]: two expressions that are not in [patterns]. *)
Definition a_global : regexp := RegExp 6 "/a/g" true (find_char "a").
Definition a_only : regexp := anchored 7 "/^a$/" (chr "a").

(** [Schema.isOptional], and [Schema.isEither(Schema.isOptional, Schema.isString)]. *)
Definition optional_or_string (h : list Rules.t) : option (list Rules.t * nat) :=
  '(h, o) ← static isOptional h;
  '(h, s) ← static isString h;
  static (isEither [o; s]) h.

(** [{a: "x", b: 1}] and [{a: "x"}] against [Schema.isObject({a: Schema.isString})]. *)
Definition only_a (h : list Rules.t) : option (list Rules.t * nat) :=
  '(h, s) ← static isString h;
  static (isObject [AEntries [("a", Some s)]]) h.
Definition a_and_b : jsval := VObject 12 [("a", VString "x"); ("b", num 1)].
Definition just_a : jsval := VObject 13 [("a", VString "x")].

(** [e.validate(value)] for a schema expression [e], from the empty store. *)
Definition run (e : option (list Rules.t * nat)) (value : jsval)
  : option (gmap nat nat * outcome (bool * list (list string * list piece))) :=
  R ← built e; Some (Schema_validate 4 R value ∅).
End Scenario.

(** ** Relations between runs *)

(** Two computations are the same run from every store. *)
Definition same {A} (m1 m2 : M A) : Prop := ∀ σ, m1 σ = m2 σ.

(** Whatever [m1] ends with, when it ends, [m2] ends with too. *)
Definition extends {A} (m1 m2 : M A) : Prop :=
  ∀ σ σ' o, m1 σ = (σ', o) → o ≠ Unfinished → m2 σ = (σ', o).

(** The computation ends the same way from every store and hands the store
    back as it got it. *)
Definition pure {A} (m : M A) : Prop := ∃ o, ∀ σ, m σ = (σ, o).

(** The computation returns, the same value from every store, and hands the
    store back as it got it. *)
Definition returns {A} (m : M A) : Prop := ∃ a, ∀ σ, m σ = (σ, Done a).

(** A valid verdict comes without messages. *)
Definition quiet (m : M (bool * list (list string * list piece))) : Prop :=
  ∀ σ σ' messages, m σ = (σ', Done (true, messages)) → messages = [].

(** An invalid verdict comes with a message, for a result and for each
    result of a list. *)
Definition told (r : bool * list (list string * list piece)) : Prop :=
  fst r = false → snd r ≠ [].

Definition telling (m : M (bool * list (list string * list piece))) : Prop :=
  ∀ σ σ' r, m σ = (σ', Done r) → told r.


(** * More of the module *)

(** ** Termination measure *)

(** The fuel [validate] needs on rules without [undefined] members: a level
    for the rules, one more for a union (each alternative is validated as a
    rules object of its own, with the [props] of the alternative or of the
    union), and the levels of the members. *)
Fixpoint height (r : Rules.t) : nat :=
  let inside (o : option Rules.t) : nat :=
    match o with Some r' => height r' | None => 0 end in
  let members (p : option (Props.t Rules.t)) : nat :=
    match p with
    | Some p =>
        max (max_list (map (λ e, inside (snd e)) (Props.entries p)))
            (max (inside (Props.__keys__ p)) (inside (Props.__values__ p)))
    | None => 0
    end in
  S (members (Rules.props r)
     + match Rules.union r with
       | Some us =>
           max_list (map (λ o, match o with
                               | Some u => S (members (Rules.props u))
                               | None => 1
                               end) us)
       | None => 0
       end)%nat.

(** The levels of the members of a [props]. *)
Definition members (p : option (Props.t Rules.t)) : nat :=
  match p with
  | Some p =>
      max (max_list (map (λ e, match snd e with Some r' => height r' | None => 0%nat end)
                       (Props.entries p)))
          (max (match Props.__keys__ p with Some k => height k | None => 0%nat end)
               (match Props.__values__ p with Some k => height k | None => 0%nat end))
  | None => 0%nat
  end.

(** The computation ends, by a return or by a throw, from every store. *)
Definition finishes {A} (m : M A) : Prop := ∀ σ, (m σ).2 ≠ Unfinished.

(** ** Paths of the messages *)

(** The path of a message lies at or below the rendered [path]. *)
Definition within (path : list path_key) (v : list string * list piece) : Prop :=
  ∃ keys rest, mapM rendered path = Some keys ∧ fst v = keys ++ rest.

(** Every message of a result lies at or below [path]. *)
Definition located (path : list path_key) (r : bool * list (list string * list piece)) : Prop :=
  Forall (within path) (snd r).

(** What a computation returns, when it returns, satisfies [Q]. *)
Definition ensures {A} (Q : A → Prop) (m : M A) : Prop :=
  ∀ σ σ' a, m σ = (σ', Done a) → Q a.

(** ** Rules of sample schemas *)

Module Sample.
(** The rules of [Schema.isEither(Schema.isNumber, Schema.isBoolean)]. *)
Definition number_or_boolean : Rules.t :=
  default Rules.empty (Schema.built (Scenario.number_or_boolean [])).

(** The rules of [Schema.isObject({a: Schema.isString})]. *)
Definition only_a : Rules.t :=
  default Rules.empty (Schema.built (Scenario.only_a [])).

(** The rules of [Schema.isObject({id: Schema.isUUID, tags: Schema.isArray(Schema.isString)})]. *)
Definition id_and_tags : Rules.t :=
  default Rules.empty (Schema.built (Scenario.id_and_tags [])).

(** A coercer, [value => typeof value == "string" ? value.length : value],
    and the rules of [Schema.coerce(coercer).isNumber]. *)
Definition to_length (value : jsval) : exn + jsval :=
  match value with
  | VString s => inr (VNumber (of_nat (String.length s)))
  | _ => inr value
  end.

Definition length_as_number : Rules.t :=
  default Rules.empty (Schema.built (Schema.chain [Schema.coerce [to_length]; Schema.isNumber] [])).

(** The rules of [Schema.lengthIsAtMost(3)] and [Schema.isNumber], and
    those of [Schema.isObject(keys, values)] with the two as [keys] and
    [values]. *)
Definition at_most_three : Rules.t :=
  default Rules.empty
    (Schema.built (Schema.static (Schema.lengthIsAtMost (SNumber (of_nat 3))) [])).

Definition a_number : Rules.t :=
  default Rules.empty (Schema.built (Schema.static Schema.isNumber [])).

Definition keyed : Rules.t :=
  default Rules.empty
    (Schema.built (Schema.static (Schema.isObject [Schema.ASchema 0; Schema.ASchema 1])
                     [at_most_three; a_number])).
End Sample.

(** ** What the patterns accept *)

Definition is_hex (c : ascii) : bool := is_digit c || char_in "abcdef" c.
Definition is_alnum (c : ascii) : bool := is_lower c || is_upper c || is_digit c.

(** A word of [n] characters, all of them in the class [p]. *)
Definition word (n : nat) (p : ascii → bool) (w : string) : Prop :=
  String.length w = n ∧ forallb p (list_ascii_of_string w) = true.

(** Groups of 8, 4, 4, 4 and 12 hexadecimal digits in lower case, with a
    hyphen between one group and the next. *)
Definition uuid_shape (s : string) : Prop :=
  ∃ a b c d e,
    s = a +:+ "-" +:+ b +:+ "-" +:+ c +:+ "-" +:+ d +:+ "-" +:+ e
    ∧ word 8 is_hex a ∧ word 4 is_hex b ∧ word 4 is_hex c ∧ word 4 is_hex d
    ∧ word 12 is_hex e.

(** The comment of line 6: only alphanumerics or hyphens, no two hyphens in
    a row, no hyphen at the start or at the end; and not empty. *)
Definition slug_shape (s : string) : Prop :=
  s ≠ ""
  ∧ forallb (λ c, is_alnum c || Ascii.eqb c "-") (list_ascii_of_string s) = true
  ∧ (∀ t, s ≠ "-" +:+ t)
  ∧ (∀ t, s ≠ t +:+ "-")
  ∧ (∀ t u, s ≠ t +:+ "--" +:+ u).

(** The same as a scan from left to right; [hyphen] tells whether a hyphen,
    or nothing, was read last. *)
Fixpoint slug_from (hyphen : bool) (s : string) : bool :=
  match s with
  | "" => negb hyphen
  | String c s' =>
      if Ascii.eqb c "-" then negb hyphen && slug_from true s'
      else is_alnum c && slug_from false s'
  end.

(** ** The middleware (lines 22-43) *)

Module Middleware.

(** Lines 22-26: the message of a [ValidationException] has a line for each
    violation, the key and the path joined by dots between backticks and
    then the message; [status] is what line 38 assigns. *)
Record ValidationException := Exception {
  lines : list (list piece);
  status : option nat
}.

Definition new_ValidationException (key : string)
    (messages : list (list string * list piece)) : ValidationException :=
  {| lines := map (λ '(path, message),
                     [Txt "`"; Txt (String.concat "." (key :: path)); Txt "` "] ++ message)
                  messages;
     status := None |}.

(** What the second argument of the default export can be: a plain object
    of schemas, an array, an instance of [Schema], anything else. *)
Inductive ruleset :=
| Plain (entries : list (string * option nat))
| Items (items : list (option nat))
| Instance (schema : nat)
| Other.

(** [Object.entries("array")], each character with its [rules]: a
    character has none. *)
Definition characters : list (string * option nat) :=
  [("0", None); ("1", None); ("2", None); ("3", None); ("4", None)].

(** Lines 30-33.  An object with a [constructor] of its own is no plain
    object for line 19 and ends in the [TypeError] like anything else, and
    so does what is no instance of [Schema] after line 30.  For
    an array, [Schema.isArray(ruleset)] has one argument whose constructor is
    neither [Schema] nor [Object]: the call falls through to [case 2] (line
    194), [#isObject(ruleset, undefined, "array")], where the array is
    [keys], ["array"] is [entries] and [type] is left to its default. *)
Definition schema (r : ruleset) (h : list Rules.t) : exn + (list Rules.t * nat) :=
  match r with
  | Plain entries =>
      if has_own "constructor" entries
      then inl (TypeError "Ruleset is not an array, object or instance of Schema.")
      else match Schema.static (Schema.isObject [Schema.AEntries entries]) h with
           | Some s => inr s
           | None => inl (TypeError "Ruleset is not an array, object or instance of Schema.")
           end
  | Items _ =>
      let '(h', this) := Schema.new h in
      inr (Schema.setRules this (Schema.isObject_ h' None None characters "object") h')
  | Instance s => inr (h, s)
  | Other => inl (TypeError "Ruleset is not an array, object or instance of Schema.")
  end.

(** The rules of the schema made of an array: they do not depend on it. *)
Definition of_items : Rules.t :=
  spread defaults (Schema.isObject_ [] None None characters "object").

(** How the callback of line 34 ends: it returns the values, it throws the
    exception of line 37, it lets an exception of [validate] through, or the
    fuel of the model ran out. *)
Inductive reply :=
| Returned (values : jsval)
| Rejected (error : ValidationException)
| Raised (e : exn)
| Pending.

(** Lines 34-42, on the rules the schema holds when the callback runs. *)
Definition callback (fuel : nat) (key : string) (rules : Rules.t) (values : jsval)
  : gmap nat nat → gmap nat nat * reply :=
  λ σ, match Schema_validate fuel rules values σ with
       | (σ', Done (valid, messages)) =>
           if negb valid then
             let error := new_ValidationException key messages in
             (σ', Rejected {| lines := lines error; status := Some 400%nat |})
           else (σ', Returned values)
       | (σ', Throw e) => (σ', Raised e)
       | (σ', Unfinished) => (σ', Pending)
       end.

End Middleware.

(** The nesting of a value: the fuel [validate] needs when it follows the
    members of the value and not those of the rules. *)
Fixpoint nesting (v : jsval) : nat :=
  match v with
  | VObject _ fields => S (max_list (map (λ field, nesting (snd field)) fields))
  | VArray _ items => S (max_list (map nesting items))
  | _ => 1
  end.

(** ** Members validated one after the other *)


(** Lines 348-354 on the results: valid without a message when all are
    valid, and their messages one after the other when one is not. *)
Definition verdict (results : list (bool * list (list string * list piece)))
  : bool * list (list string * list piece) :=
  if forallb fst results then (true, []) else (false, concat (map snd results)).
(** * Properties of the model *)

(** ** The patterns and the path rendering on examples *)

Example uuid_accepts :
  test patterns.uuid "123e4567-e89b-12d3-a456-426614174000" ∅ = (∅, true).
Proof. vm_compute. reflexivity. Qed.

Example uuid_rejects : test patterns.uuid "not-a-uuid" ∅ = (∅, false).
Proof. vm_compute. reflexivity. Qed.

Example index_style_inner : index_style "tags.1.name.22" = "tags[1].name[22]".
Proof. reflexivity. Qed.

Example index_style_bare : index_style "1" = "1".
Proof. reflexivity. Qed.

(** ** The monad *)

Lemma same_refl {A} (m : M A) : same m m.
Proof. intros σ. reflexivity. Qed.

Lemma same_bind {A B} (m1 m2 : M A) (k1 k2 : A → M B) :
  same m1 m2 → (∀ a, same (k1 a) (k2 a)) → same (bind m1 k1) (bind m2 k2).
Proof.
  intros Hm Hk σ. unfold bind. rewrite Hm.
  destruct (m2 σ) as [σ' [a| |]]; auto. apply Hk.
Qed.

Lemma same_map_M {A B} (f1 f2 : A → M B) (l : list A) :
  (∀ x, In x l → same (f1 x) (f2 x)) → same (map_M f1 l) (map_M f2 l).
Proof.
  induction l as [|x l IH]; intros H; cbn [map_M].
  - apply same_refl.
  - apply same_bind; [apply H; left; reflexivity|]. intros y.
    apply same_bind; [|intros; apply same_refl].
    apply IH. intros z Hz. apply H. right. exact Hz.
Qed.

Lemma extends_refl {A} (m : M A) : extends m m.
Proof. intros σ σ' o H _. exact H. Qed.

Lemma extends_bind {A B} (m1 m2 : M A) (k1 k2 : A → M B) :
  extends m1 m2 → (∀ a, extends (k1 a) (k2 a)) → extends (bind m1 k1) (bind m2 k2).
Proof.
  intros Hm Hk σ σ' o. unfold bind.
  destruct (m1 σ) as [σ1 [a|e|]] eqn:E; intros H Hfin.
  - rewrite (Hm _ _ _ E); [|discriminate]. eapply Hk; eauto.
  - rewrite (Hm _ _ _ E); [|discriminate]. exact H.
  - inversion H; subst. contradiction.
Qed.

Lemma extends_map_M {A B} (f1 f2 : A → M B) (l : list A) :
  (∀ x, In x l → extends (f1 x) (f2 x)) → extends (map_M f1 l) (map_M f2 l).
Proof.
  induction l as [|x l IH]; intros H; cbn [map_M].
  - apply extends_refl.
  - apply extends_bind; [apply H; left; reflexivity|]. intros y.
    apply extends_bind; [|intros; apply extends_refl].
    apply IH. intros z Hz. apply H. right. exact Hz.
Qed.

(** ** One level of the hereditary properties *)

Lemma hereditarily_here P b r : hereditarily P b r = true → P r = true.
Proof. destruct r; cbn. intros H. repeat (apply andb_prop in H as [H ?]). exact H. Qed.

Lemma hereditarily_union P b r us o :
  hereditarily P b r = true → Rules.union r = Some us → In o us →
  ∀ u, o = Some u → hereditarily P b u = true.
Proof.
  destruct r; cbn. intros H -> Ho u ->.
  repeat (apply andb_prop in H as [H ?]).
  match goal with H : forallb _ us = true |- _ =>
    rewrite forallb_forall in H; exact (H _ Ho) end.
Qed.

Lemma hereditarily_entries P b r p key o :
  hereditarily P b r = true → Rules.props r = Some p → In (key, o) (Props.entries p) →
  match o with Some r' => hereditarily P b r' = true | None => b = true end.
Proof.
  destruct r; cbn. intros H -> Ho.
  apply andb_prop in H as [_ H]. repeat (apply andb_prop in H as [H ?]).
  rewrite forallb_forall in H. specialize (H _ Ho). cbn in H.
  destruct o; exact H.
Qed.

Lemma hereditarily_keys P b r p k :
  hereditarily P b r = true → Rules.props r = Some p → Props.__keys__ p = Some k →
  hereditarily P b k = true.
Proof.
  destruct r; cbn. intros H -> Hk.
  apply andb_prop in H as [_ H]. apply andb_prop in H as [H _].
  apply andb_prop in H as [_ H]. rewrite Hk in H. exact H.
Qed.

Lemma hereditarily_values P b r p k :
  hereditarily P b r = true → Rules.props r = Some p → Props.__values__ p = Some k →
  hereditarily P b k = true.
Proof.
  destruct r; cbn. intros H -> Hk.
  apply andb_prop in H as [_ H]. apply andb_prop in H as [_ H].
  rewrite Hk in H. exact H.
Qed.

Lemma structured_props r p : structured r = Some p → Rules.props r = Some p.
Proof.
  unfold structured. destruct (Rules.props r) as [q|]; [|discriminate].
  destruct (has_own _ _); [discriminate|]. intros [= ->]. reflexivity.
Qed.

Lemma hereditarily_eq P b r :
  hereditarily P b r =
  P r
  && match Rules.union r with
     | Some us =>
         forallb (λ o, match o with Some u => hereditarily P b u | None => true end) us
     | None => true
     end
  && match Rules.props r with
     | Some p =>
         forallb (λ e, match snd e with Some r' => hereditarily P b r' | None => b end)
           (Props.entries p)
         && match Props.__keys__ p with Some k => hereditarily P b k | None => true end
         && match Props.__values__ p with Some k => hereditarily P b k | None => true end
     | None => true
     end.
Proof. destruct r; reflexivity. Qed.

Lemma alternative_union r o : Rules.union (alternative r o) = Some [].
Proof. reflexivity. Qed.

Lemma alternative_props r o :
  Rules.props (alternative r o) =
  over (Rules.props (default Rules.empty o)) (Rules.props r).
Proof. reflexivity. Qed.

(** The rules of an alternative come from the union's rules or from the
    alternative, and its own union is empty. *)
Lemma hereditarily_alternative P b r us o :
  P (alternative r o) = true →
  hereditarily P b r = true → Rules.union r = Some us → In o us →
  hereditarily P b (alternative r o) = true.
Proof.
  intros HP H Hus Ho.
  assert (Hu : ∀ u, o = Some u → hereditarily P b u = true)
    by (eapply hereditarily_union; eauto).
  rewrite (hereditarily_eq P b (alternative r o)), HP, alternative_union, alternative_props.
  cbn [forallb andb].
  rewrite hereditarily_eq in H. apply andb_prop in H as [_ H].
  destruct o as [u|]; cbn [default from_option id].
  - specialize (Hu u eq_refl). rewrite hereditarily_eq in Hu.
    apply andb_prop in Hu as [_ Hu].
    destruct (Rules.props u); cbn [over]; assumption.
  - cbn. exact H.
Qed.

(** ** Fuel *)

Ltac extends_step IH :=
  lazymatch goal with
  | |- extends ?m ?m => apply extends_refl
  | |- extends (bind _ _) (bind _ _) => apply extends_bind; [|intros ?]
  | |- extends (map_M _ ?l) (map_M _ ?l) => apply extends_map_M; intros ? ?
  | |- extends (validate _ _ _ _ _) (validate _ _ _ _ _) => apply IH; lia
  | |- extends (match ?x with _ => _ end) (match ?x with _ => _ end) => destruct x eqn:?
  end.

(** More fuel does not change a run that ended. *)
Lemma validate_fuel (n : nat) :
  ∀ (m : nat) this value rules path, (n ≤ m)%nat →
  extends (validate n this value rules path) (validate m this value rules path).
Proof.
  induction n as [|n IH]; intros m this value rules path Hle.
  - intros σ σ' o H Hfin. inversion H; subst. contradiction.
  - destruct m as [|m]; [lia|]. cbn [validate]. cbv zeta.
    repeat extends_step IH.
Qed.

(** ** [this.rules] as the default of [rules] *)

Lemma closed_alternative r us o :
  closed r = true → Rules.union r = Some us → In o us → closed (alternative r o) = true.
Proof. intros. eapply hereditarily_alternative; eauto. Qed.

Lemma closed_entry r p key o :
  closed r = true → structured r = Some p → In (key, o) (Props.entries p) →
  ∃ r', o = Some r' ∧ closed r' = true.
Proof.
  intros Hc Hp Hin.
  pose proof (hereditarily_entries _ _ _ _ _ _ Hc (structured_props _ _ Hp) Hin) as H.
  destruct o; [eauto | discriminate].
Qed.

Lemma same_property {A B} (field : option A) (k1 k2 : A → M B) :
  (∀ a, field = Some a → same (k1 a) (k2 a)) →
  same (bind (property field) k1) (bind (property field) k2).
Proof. intros H. destruct field as [a|]; [apply (H a eq_refl) | apply same_refl]. Qed.

Ltac same_step IH :=
  lazymatch goal with
  | |- same ?m ?m => apply same_refl
  | |- same (bind (property _) _) (bind _ _) => apply same_property; intros ? ?
  | |- same (bind _ _) (bind _ _) => apply same_bind; [|intros ?]
  | |- same (map_M _ ?l) (map_M _ ?l) => apply same_map_M; intros ? ?
  | |- same (validate _ _ _ (alternative _ _) _) (validate _ _ _ _ _) =>
      apply IH; solve [eapply closed_alternative; eauto]
  | H : In (?key, ?o) (Props.entries ?p)
    |- same (validate _ _ _ (default _ ?o) _) (validate _ _ _ _ _) =>
      let r' := fresh "r'" in
      let E := fresh in
      let Hr := fresh in
      destruct (closed_entry _ _ _ _ ltac:(eassumption) ltac:(eassumption) H)
        as (r' & E & Hr);
      rewrite E; cbn [default from_option id]; apply IH; exact Hr
  | |- same (validate _ _ _ _ _) (validate _ _ _ _ _) =>
      apply IH;
      first [ solve [eapply hereditarily_keys; eauto using structured_props]
            | solve [eapply hereditarily_values; eauto using structured_props] ]
  | |- same (match ?x with _ => _ end) (match ?x with _ => _ end) => destruct x eqn:?
  end.

(** On rules without [undefined] entries, the instance whose method runs
    does not matter. *)
Lemma validate_this (n : nat) :
  ∀ this1 this2 value rules path, closed rules = true →
  same (validate n this1 value rules path) (validate n this2 value rules path).
Proof.
  induction n as [|n IH]; intros this1 this2 value rules path Hc.
  - apply same_refl.
  - cbn [validate]. cbv zeta.
    repeat same_step IH.
Qed.

(** ** Runs that leave the store alone *)

Lemma pure_ret {A} (a : A) : pure (ret a).
Proof. exists (Done a). reflexivity. Qed.

Lemma pure_throw {A} (e : exn) : pure (@throw A e).
Proof. exists (Throw e). reflexivity. Qed.

Lemma pure_unfinished {A} : pure (λ σ, (σ, @Unfinished A)).
Proof. exists Unfinished. reflexivity. Qed.

Lemma pure_bind {A B} (m : M A) (k : A → M B) :
  pure m → (∀ a, pure (k a)) → pure (bind m k).
Proof.
  intros [o Ho] Hk. destruct o as [a|e|].
  - destruct (Hk a) as [o' Ho']. exists o'. intros σ. unfold bind. rewrite Ho. apply Ho'.
  - exists (Throw e). intros σ. unfold bind. rewrite Ho. reflexivity.
  - exists Unfinished. intros σ. unfold bind. rewrite Ho. reflexivity.
Qed.

Lemma pure_map_M {A B} (f : A → M B) (l : list A) :
  (∀ x, In x l → pure (f x)) → pure (map_M f l).
Proof.
  induction l as [|x l IH]; intros H; cbn [map_M].
  - apply pure_ret.
  - apply pure_bind; [apply H; left; reflexivity|]. intros y.
    apply pure_bind; [|intros; apply pure_ret].
    apply IH. intros z Hz. apply H. right. exact Hz.
Qed.

Lemma pure_error path message : pure (error path message).
Proof. unfold error. destruct (mapM rendered path); [apply pure_ret | apply pure_throw]. Qed.

Lemma pure_property {A B} (field : option A) (k : A → M B) :
  (∀ a, field = Some a → pure (k a)) → pure (bind (property field) k).
Proof.
  intros H. destruct field as [a|].
  - destruct (H a eq_refl) as [o Ho]. exists o. exact Ho.
  - exists (Throw (TypeError "Cannot read properties of undefined (reading 'length')")).
    reflexivity.
Qed.

Lemma pure_coerced coercers value : pure (coerced coercers value).
Proof.
  revert value. induction coercers as [|c cs IH]; intros value; cbn [coerced].
  - apply pure_ret.
  - destruct (c value); [apply pure_throw | apply IH].
Qed.

Lemma pure_concluded results : pure (concluded results).
Proof.
  unfold concluded. destruct (all_valid results) as [valid messages].
  destruct (negb valid); apply pure_ret.
Qed.

Lemma pure_test pattern s : re_uses_last_index pattern = false → pure (test_M pattern s).
Proof.
  intros H. exists (Done (bool_decide (is_Some (re_exec pattern 0%nat s)))).
  intros σ. unfold test_M, test. rewrite H. reflexivity.
Qed.

Lemma stateless_alternative r us o :
  stateless r = true → Rules.union r = Some us → In o us →
  stateless (alternative r o) = true.
Proof.
  intros Hr Hus Ho. eapply hereditarily_alternative; eauto.
  pose proof (hereditarily_here _ _ _ Hr) as Hp.
  unfold stateless_pattern in *. cbn.
  destruct o as [u|]; cbn.
  - pose proof (hereditarily_here _ _ _
                  (hereditarily_union _ _ _ _ _ Hr Hus Ho u eq_refl)) as Hu.
    unfold stateless_pattern in Hu. destruct (Rules.pattern u); [exact Hu | exact Hp].
  - exact Hp.
Qed.

Lemma stateless_test r pattern :
  stateless r = true → Rules.pattern r = Some (VRegExp pattern) →
  re_uses_last_index pattern = false.
Proof.
  intros H E. apply hereditarily_here in H. unfold stateless_pattern in H.
  rewrite E in H. destruct (re_uses_last_index pattern); [discriminate | reflexivity].
Qed.

Lemma stateless_entry this r p key o :
  stateless this = true → stateless r = true → structured r = Some p →
  In (key, o) (Props.entries p) → stateless (default this o) = true.
Proof.
  intros Ht Hr Hp Hin.
  pose proof (hereditarily_entries _ _ _ _ _ _ Hr (structured_props _ _ Hp) Hin) as H.
  destruct o; [exact H | exact Ht].
Qed.

Ltac pure_step IH :=
  lazymatch goal with
  | |- pure ok => apply pure_ret
  | |- pure (ret _) => apply pure_ret
  | |- pure (throw _) => apply pure_throw
  | |- pure (error _ _) => apply pure_error
  | |- pure (concluded _) => apply pure_concluded
  | |- pure (coerced _ _) => apply pure_coerced
  | |- pure (test_M _ _) => apply pure_test; solve [eauto using stateless_test]
  | |- pure (bind (property _) _) => apply pure_property; intros ? ?
  | |- pure (bind _ _) => apply pure_bind; [|intros ?]
  | |- pure (map_M _ _) => apply pure_map_M; intros ? ?
  | |- pure (validate _ _ _ (alternative _ _) _) =>
      apply IH; [assumption | solve [eapply stateless_alternative; eauto]]
  | |- pure (validate _ _ _ (default _ _) _) =>
      apply IH; [assumption | solve [eapply stateless_entry; eauto]]
  | |- pure (validate _ _ _ _ _) =>
      apply IH; [assumption|];
      first [ solve [eapply hereditarily_keys; eauto using structured_props]
            | solve [eapply hereditarily_values; eauto using structured_props] ]
  | |- pure (match ?x with _ => _ end) => destruct x eqn:?
  end.

(** Without [g] and [y] patterns, in the rules and in [this.rules], a run
    of [validate] is a function of its arguments alone. *)
Lemma validate_pure (n : nat) :
  ∀ this value rules path, stateless this = true → stateless rules = true →
  pure (validate n this value rules path).
Proof.
  induction n as [|n IH]; intros this value rules path Ht Hr.
  - apply pure_unfinished.
  - cbn [validate]. cbv zeta.
    repeat pure_step IH.
Qed.

(** A run computed at one fuel and on the empty store stands for the run
    at any larger fuel and from any store. *)
Lemma run_anywhere (n : nat) this value rules path o :
  stateless this = true → stateless rules = true →
  (validate n this value rules path ∅).2 = o → o ≠ Unfinished →
  ∀ (m : nat) σ, (n ≤ m)%nat → validate m this value rules path σ = (σ, o).
Proof.
  intros Ht Hr Hrun Hfin m σ Hle.
  destruct (validate_pure n this value rules path Ht Hr) as [o' Ho'].
  rewrite Ho' in Hrun. cbn in Hrun. subst o'.
  eapply validate_fuel; eauto.
Qed.

(** ** Rules on which [validate] returns *)

Lemma returns_ret {A} (a : A) : returns (ret a).
Proof. exists a. reflexivity. Qed.

Lemma returns_bind {A B} (m : M A) (k : A → M B) :
  returns m → (∀ a, returns (k a)) → returns (bind m k).
Proof.
  intros [a Ha] Hk. destruct (Hk a) as [b Hb]. exists b.
  intros σ. unfold bind. rewrite Ha. apply Hb.
Qed.

Lemma returns_map_M {A B} (f : A → M B) (l : list A) :
  (∀ x, In x l → returns (f x)) → returns (map_M f l).
Proof.
  induction l as [|x l IH]; intros H; cbn [map_M].
  - apply returns_ret.
  - apply returns_bind; [apply H; left; reflexivity|]. intros y.
    apply returns_bind; [|intros; apply returns_ret].
    apply IH. intros z Hz. apply H. right. exact Hz.
Qed.

Lemma returns_property {A B} (field : option A) (a : A) (k : A → M B) :
  field = Some a → returns (k a) → returns (bind (property field) k).
Proof. intros -> [b Hb]. exists b. exact Hb. Qed.

Lemma returns_uncoerced {B} (value : jsval) (k : jsval → M B) :
  returns (k value) → returns (bind (coerced [] value) k).
Proof. intros [b Hb]. exists b. exact Hb. Qed.

Lemma returns_error path keys message :
  mapM rendered path = Some keys → returns (error path message).
Proof. intros H. unfold error. rewrite H. apply returns_ret. Qed.

Lemma returns_concluded results : returns (concluded results).
Proof.
  unfold concluded. destruct (all_valid results) as [valid messages].
  destruct (negb valid); apply returns_ret.
Qed.

Lemma rendered_key path keys key :
  mapM rendered path = Some keys →
  mapM rendered (path ++ [Key key]) = Some (keys ++ [index_style key]).
Proof.
  intros H. apply mapM_Some. apply mapM_Some in H.
  apply Forall2_app; [exact H|]. repeat constructor.
Qed.

Lemma depth_eq r :
  depth r =
  S (max
       match Rules.union r with
       | Some us => max_list (map (λ o, match o with Some u => depth u | None => 1%nat end) us)
       | None => 0%nat
       end
       match Rules.props r with
       | Some p =>
           max (max_list (map (λ e, match snd e with Some r' => depth r' | None => 0%nat end)
                            (Props.entries p)))
               (max (match Props.__keys__ p with Some k => depth k | None => 0%nat end)
                    (match Props.__values__ p with Some k => depth k | None => 0%nat end))
       | None => 0%nat
       end).
Proof. destruct r; reflexivity. Qed.

Lemma max_list_In (x : nat) (l : list nat) : In x l → (x ≤ max_list l)%nat.
Proof. intros H. apply max_list_elem_of_le, list_elem_of_In. exact H. Qed.

Lemma depth_entry r p key r' :
  Rules.props r = Some p → In (key, Some r') (Props.entries p) → (depth r' < depth r)%nat.
Proof.
  intros Hp Hin. rewrite (depth_eq r), Hp.
  pose proof (max_list_In (depth r')
                (map (λ e, match snd e with Some r' => depth r' | None => 0%nat end)
                   (Props.entries p))) as H.
  specialize (H (in_map (λ e : string * option Rules.t,
                           match snd e with Some r' => depth r' | None => 0%nat end)
                   _ _ Hin)).
  lia.
Qed.

Lemma depth_keys r p k :
  Rules.props r = Some p → Props.__keys__ p = Some k → (depth k < depth r)%nat.
Proof. intros Hp Hk. rewrite (depth_eq r), Hp, Hk. lia. Qed.

Lemma depth_values r p k :
  Rules.props r = Some p → Props.__values__ p = Some k → (depth k < depth r)%nat.
Proof. intros Hp Hk. rewrite (depth_eq r), Hp, Hk. lia. Qed.

Lemma depth_alternative r us o :
  Rules.props r = None → Rules.union r = Some us → In o us →
  (depth (alternative r o) < depth r)%nat.
Proof.
  intros Hp Hus Ho. rewrite (depth_eq (alternative r o)), alternative_union, alternative_props.
  rewrite (depth_eq r), Hus, Hp. cbn [over map max_list].
  pose proof (max_list_In _ _
                (in_map (λ o, match o with Some u => depth u | None => 1%nat end) _ _ Ho)) as H.
  destruct o as [u|]; cbn [default from_option id] in *.
  - rewrite (depth_eq u) in H.
    destruct (Rules.props u); cbn [over] in *; lia.
  - cbn [Rules.props Rules.empty over] in *. lia.
Qed.

Lemma tame_here_alternative r us o :
  tame r = true → Rules.union r = Some us → In o us →
  tame_here (alternative r o) = true.
Proof.
  intros Ht Hus Ho. pose proof (hereditarily_here _ _ _ Ht) as Hr.
  assert (Hu : ∀ u, o = Some u → tame_here u = true).
  { intros u ->. eapply hereditarily_here, hereditarily_union; eauto. }
  unfold tame_here in Hr. rewrite Hus in Hr.
  destruct us as [|o' us']; [destruct Ho|].
  repeat (apply andb_prop in Hr as [Hr ?]).
  destruct (Rules.props r) as [|] eqn:Hp; [discriminate|].
  unfold tame_here. rewrite alternative_union, alternative_props, Hp.
  unfold alternative.
  cbn [spread with_union Rules.coerce Rules.values Rules.type Rules.pattern over].
  destruct o as [u|]; cbn [default from_option id].
  - specialize (Hu u eq_refl). unfold tame_here in Hu.
    repeat (apply andb_prop in Hu as [Hu ?]).
    destruct (Rules.coerce u) as [[|]|]; try discriminate.
    destruct (Rules.values u); try discriminate.
    destruct (Rules.type u) as [t|] eqn:Et; try discriminate.
    cbn [over].
    destruct (Rules.pattern u) as [[]|]; try discriminate; cbn [over];
      rewrite ?Hr, ?andb_true_r; cbn [andb];
      try (destruct (Rules.props u); cbn [over]; assumption);
      try (destruct (Rules.pattern r) as [[]|]; try discriminate;
           destruct (Rules.props u); cbn [over]; assumption).
  - cbn [Rules.empty Rules.coerce Rules.values Rules.type Rules.pattern Rules.props over].
    repeat (apply andb_true_intro; split); assumption || reflexivity.
Qed.

Lemma tame_alternative r us o :
  tame r = true → Rules.union r = Some us → In o us → tame (alternative r o) = true.
Proof.
  intros. eapply hereditarily_alternative; eauto using tame_here_alternative.
Qed.

Lemma tame_entry r p key o :
  tame r = true → structured r = Some p → In (key, o) (Props.entries p) →
  ∃ r', o = Some r' ∧ tame r' = true.
Proof.
  intros Ht Hp Hin.
  pose proof (hereditarily_entries _ _ _ _ _ _ Ht (structured_props _ _ Hp) Hin) as H.
  destruct o; [eauto | discriminate].
Qed.

(** What [tame_here] says, by property. *)
Lemma tame_here_inv r :
  tame_here r = true →
  Rules.coerce r = Some []
  ∧ (∃ vs, Rules.values r = Some vs)
  ∧ (∃ us, Rules.union r = Some us ∧ (us ≠ [] → Rules.props r = None))
  ∧ (∀ p, Rules.pattern r ≠ Some (VRegExp p))
  ∧ (∀ p, switch (Rules.type r) = Some KArray → Rules.props r = Some p →
          Props.__values__ p = None).
Proof.
  unfold tame_here. intros H. repeat (apply andb_prop in H as [H ?]).
  repeat split.
  - destruct (Rules.coerce r) as [[|]|]; try discriminate. reflexivity.
  - destruct (Rules.values r); [eauto | discriminate].
  - destruct (Rules.union r) as [[|]|]; try discriminate.
    + eexists. split; [reflexivity|]. congruence.
    + eexists. split; [reflexivity|]. intros _. destruct (Rules.props r); [discriminate|reflexivity].
  - intros p Hp. rewrite Hp in *. discriminate.
  - intros p Hs Hp. rewrite Hs, Hp in *. destruct (Props.__values__ p); [discriminate|reflexivity].
Qed.

Ltac returns_absurd :=
  match goal with
  | Hp : ∀ p, Some (VRegExp ?r) ≠ Some (VRegExp p) |- _ =>
      exfalso; exact (Hp r eq_refl)
  | Ha : ∀ p, Some KArray = Some KArray → Rules.props ?r = Some p →
              Props.__values__ p = None,
    Hp : structured ?r = Some ?p,
    Hv : Props.__values__ ?p = Some _ |- _ =>
      exfalso; rewrite (Ha p eq_refl (structured_props _ _ Hp)) in Hv; discriminate
  end.

Ltac returns_step IH :=
  first
  [ returns_absurd
  | lazymatch goal with
    | |- returns ok => apply returns_ret
    | |- returns (ret _) => apply returns_ret
    | |- returns (error _ _) =>
        eapply returns_error; first [eassumption | apply rendered_key; eassumption]
    | |- returns (concluded _) => apply returns_concluded
    | |- returns (bind (property _) _) => eapply returns_property; [eassumption|]
    | |- returns (bind (coerced [] _) _) => apply returns_uncoerced
    | |- returns (bind _ _) => apply returns_bind; [|intros ?]
    | |- returns (map_M _ _) => apply returns_map_M; intros ? ?
    | Hn : (?us ≠ [] → Rules.props ?r = None)
      |- returns (validate _ _ _ (alternative ?r _) _) =>
        eapply IH;
        [ solve [eapply tame_alternative; eauto]
        | assert (Rules.props r = None) by (apply Hn; discriminate);
          solve [eapply Nat.lt_succ_r, Nat.lt_le_trans;
                 [eapply depth_alternative; eauto | eassumption]]
        | eassumption ]
    | H : In (?key, ?o) (Props.entries ?p)
      |- returns (validate _ _ _ (default _ ?o) _) =>
        let r' := fresh "r'" in
        let E := fresh in
        let Hr := fresh in
        destruct (tame_entry _ _ _ _ ltac:(eassumption) ltac:(eassumption) H)
          as (r' & E & Hr);
        rewrite E in *; cbn [default from_option id];
        eapply IH;
        [ exact Hr
        | solve [eapply Nat.lt_succ_r, Nat.lt_le_trans;
                 [eapply depth_entry; eauto using structured_props | eassumption]]
        | apply rendered_key; eassumption ]
    | |- returns (validate _ _ _ _ _) =>
        eapply IH;
        [ first [ solve [eapply hereditarily_keys; eauto using structured_props]
                | solve [eapply hereditarily_values; eauto using structured_props] ]
        | first [ solve [eapply Nat.lt_succ_r, Nat.lt_le_trans;
                         [eapply depth_keys; eauto using structured_props | eassumption]]
                | solve [eapply Nat.lt_succ_r, Nat.lt_le_trans;
                         [eapply depth_values; eauto using structured_props | eassumption]] ]
        | apply rendered_key; eassumption ]
    | |- returns (match ?x with _ => _ end) => destruct x eqn:?
    end ].

(** On tame rules, with fuel for their depth and a path of keys, [validate]
    returns a verdict and its messages, and leaves the store as it was. *)
Lemma validate_returns (n : nat) :
  ∀ this value rules path keys,
  tame rules = true → (depth rules ≤ n)%nat → mapM rendered path = Some keys →
  returns (validate n this value rules path).
Proof.
  induction n as [|n IH]; intros this value rules path keys Ht Hd Hpath.
  - rewrite depth_eq in Hd. lia.
  - destruct (tame_here_inv _ (hereditarily_here _ _ _ Ht))
      as (Hc & [vs Hv] & (us & Hus & Hnop) & Hpat & Harr).
    cbn [validate]. cbv zeta.
    repeat returns_step IH.
Qed.

(** ** Lists of results *)

Lemma all_valid_eq results :
  all_valid results = (forallb fst results, concat (map snd results)).
Proof.
  unfold all_valid.
  assert (H : ∀ acc, foldl (λ acc r, (fst acc && fst r, snd acc ++ snd r)) acc results
                     = (fst acc && forallb fst results, snd acc ++ concat (map snd results))).
  { induction results as [|r rs IH]; intros [b m]; cbn [foldl forallb map concat fst snd].
    - rewrite andb_true_r, app_nil_r. reflexivity.
    - rewrite IH. cbn [fst snd]. rewrite andb_assoc, app_assoc. reflexivity. }
  rewrite H. reflexivity.
Qed.

Lemma any_valid_eq results :
  any_valid results = (existsb fst results, concat (map snd results)).
Proof.
  unfold any_valid.
  assert (H : ∀ acc, foldl (λ acc r, (fst acc || fst r, snd acc ++ snd r)) acc results
                     = (fst acc || existsb fst results, snd acc ++ concat (map snd results))).
  { induction results as [|r rs IH]; intros [b m]; cbn [foldl existsb map concat fst snd].
    - rewrite orb_false_r, app_nil_r. reflexivity.
    - rewrite IH. cbn [fst snd]. rewrite orb_assoc, app_assoc. reflexivity. }
  rewrite H. reflexivity.
Qed.

(** One invalid result makes the conclusion invalid, with its messages
    among those returned. *)
Lemma concluded_invalid results messages σ :
  In (false, messages) results →
  ∃ all, concluded results σ = (σ, Done (false, all)) ∧ ∀ m, In m messages → In m all.
Proof.
  intros Hin. unfold concluded. rewrite all_valid_eq.
  assert (Hf : forallb fst results = false).
  { destruct (forallb fst results) eqn:E; [|reflexivity].
    rewrite forallb_forall in E. specialize (E _ Hin). discriminate E. }
  rewrite Hf. cbn [negb]. eexists. split; [reflexivity|].
  intros m Hm. apply in_concat. exists messages. split; [|exact Hm].
  apply (in_map snd _ _ Hin).
Qed.

(** [map_M] of a function that returns on every element: the list of what
    it returns. *)
Lemma map_M_returns {A B} (f : A → M B) (l : list A) :
  (∀ x, In x l → returns (f x)) →
  ∃ rs, (∀ σ, map_M f l σ = (σ, Done rs))
        ∧ ∀ x r, In x l → (∀ σ, f x σ = (σ, Done r)) → In r rs.
Proof.
  induction l as [|x l IH]; intros H.
  - exists []. split; [reflexivity|]. intros ? ? [].
  - destruct (H x (or_introl eq_refl)) as [r Hr].
    destruct IH as (rs & Hrs & Hin); [intros; apply H; right; assumption|].
    exists (r :: rs). split.
    + intros σ. cbn [map_M]. unfold bind. rewrite Hr, Hrs. reflexivity.
    + intros y r' [<-|Hy] Hy'.
      * left. specialize (Hr ∅). rewrite Hy' in Hr. congruence.
      * right. eapply Hin; eauto.
Qed.

Lemma map_M_post {A B} (f : A → M B) (P : B → Prop) (l : list A) :
  (∀ x σ σ' b, In x l → f x σ = (σ', Done b) → P b) →
  ∀ σ σ' rs, map_M f l σ = (σ', Done rs) → Forall P rs ∧ List.length rs = List.length l.
Proof.
  induction l as [|x l IH]; intros H σ σ' rs; cbn [map_M].
  - intros [= _ <-]. split; [constructor | reflexivity].
  - unfold bind. destruct (f x σ) as [σ1 [b| |]] eqn:E; try discriminate.
    destruct (map_M f l σ1) as [σ2 [bs| |]] eqn:E'; try discriminate.
    intros [= _ <-].
    destruct (IH (λ y τ τ' c Hy, H y τ τ' c (or_intror Hy)) _ _ _ E') as [Hall Hlen].
    split; [constructor; [eapply H; [left; reflexivity | exact E] | exact Hall]|].
    cbn. rewrite Hlen. reflexivity.
Qed.

(** ** Verdicts and messages *)

Lemma quiet_bind {A} (m : M A) k : (∀ a, quiet (k a)) → quiet (bind m k).
Proof.
  intros Hk σ σ' ms. unfold bind. destruct (m σ) as [σ1 [a| |]].
  - apply Hk.
  - discriminate.
  - discriminate.
Qed.

Lemma quiet_property {A} (field : option A) k :
  (∀ a, field = Some a → quiet (k a)) → quiet (bind (property field) k).
Proof.
  intros H. destruct field as [a|].
  - exact (H a eq_refl).
  - intros σ σ' ms. discriminate.
Qed.

Lemma quiet_ok : quiet ok.
Proof. intros σ σ' ms [= _ <-]. reflexivity. Qed.

Lemma quiet_error path message : quiet (error path message).
Proof. unfold error. intros σ σ' ms. destruct (mapM rendered path); discriminate. Qed.

Lemma quiet_throw e : quiet (throw e).
Proof. intros σ σ' ms. discriminate. Qed.

Lemma quiet_concluded results : quiet (concluded results).
Proof.
  unfold concluded. destruct (all_valid results) as [valid messages].
  destruct (negb valid); [intros σ σ' ms; discriminate | apply quiet_ok].
Qed.

Ltac quiet_step :=
  lazymatch goal with
  | |- quiet ok => apply quiet_ok
  | |- quiet (error _ _) => apply quiet_error
  | |- quiet (throw _) => apply quiet_throw
  | |- quiet (concluded _) => apply quiet_concluded
  | |- quiet (bind (property _) _) => apply quiet_property; intros ? ?
  | |- quiet (bind _ _) => apply quiet_bind; intros ?
  | |- quiet (match ?x with _ => _ end) => destruct x eqn:?
  end.

(** A valid verdict of [validate] comes with an empty list of messages when
    the rules themselves have no union: whatever their members are, lines
    352-358 and 402-412 keep the messages of a valid object or array back. *)
Lemma valid_has_no_messages (n : nat) this value rules path :
  Rules.union rules = Some [] → quiet (validate n this value rules path).
Proof.
  intros Hunion. destruct n as [|n].
  - intros σ σ' ms. discriminate.
  - cbn [validate]. cbv zeta.
    repeat first [ congruence | quiet_step ].
Qed.

Lemma telling_ok : telling ok.
Proof. intros σ σ' r [= _ <-]. discriminate. Qed.

Lemma telling_throw e : telling (throw e).
Proof. intros σ σ' r. discriminate. Qed.

Lemma telling_error path message : telling (error path message).
Proof.
  unfold error. intros σ σ' r. destruct (mapM rendered path); [|discriminate].
  intros [= _ <-] _. discriminate.
Qed.

Lemma telling_bind {A} (m : M A) k : (∀ a, telling (k a)) → telling (bind m k).
Proof.
  intros Hk σ σ' r. unfold bind. destruct (m σ) as [σ1 [a| |]].
  - apply Hk.
  - discriminate.
  - discriminate.
Qed.

Lemma telling_map_M {A} (f : A → M (bool * list (list string * list piece))) l k :
  (∀ x, In x l → telling (f x)) →
  (∀ rs, Forall told rs → List.length rs = List.length l → telling (k rs)) →
  telling (bind (map_M f l) k).
Proof.
  intros Hf Hk σ σ' r. unfold bind.
  destruct (map_M f l σ) as [σ1 [rs| |]] eqn:E; try discriminate.
  destruct (map_M_post f told l (λ x τ τ' b Hx, Hf x Hx τ τ' b) _ _ _ E) as [Hall Hlen].
  apply Hk; assumption.
Qed.

Lemma telling_map_M_some {A}
    (f : A → M (option (bool * list (list string * list piece)))) l k :
  (∀ x σ σ' o, In x l → f x σ = (σ', Done o) → ∀ r, o = Some r → told r) →
  (∀ os, Forall told (omap id os) → telling (k os)) →
  telling (bind (map_M f l) k).
Proof.
  intros Hf Hk σ σ' r. unfold bind.
  destruct (map_M f l σ) as [σ1 [os| |]] eqn:E; try discriminate.
  destruct (map_M_post f (λ o, ∀ r, o = Some r → told r) l Hf _ _ _ E) as [Hall _].
  apply Hk. clear -Hall.
  induction Hall as [|o os Ho _ IH]; cbn; [constructor|].
  destruct o as [r|]; cbn; [constructor; [apply Ho; reflexivity | exact IH] | exact IH].
Qed.

Lemma telling_none k :
  (∀ rs, Forall told rs → telling (k rs)) →
  telling (bind (ret ([] : list (bool * list (list string * list piece)))) k).
Proof. intros Hk. apply (Hk []). constructor. Qed.

Lemma telling_none_some k :
  (∀ os, Forall told (omap id os) → telling (k os)) →
  telling (bind (ret ([] : list (option (bool * list (list string * list piece))))) k).
Proof. intros Hk. apply (Hk []). constructor. Qed.

Lemma telling_any results :
  Forall told results → results ≠ [] → telling (ret (any_valid results)).
Proof.
  intros Hall Hne σ σ' r [= _ <-]. rewrite any_valid_eq. unfold told. cbn [fst snd].
  intros Hf. destruct results as [|r rs]; [congruence|].
  cbn [existsb map concat] in *. apply orb_false_elim in Hf as [Hr _].
  inversion Hall as [|? ? Htold _]; subst. specialize (Htold Hr).
  destruct (snd r); [congruence | discriminate].
Qed.

Lemma telling_concluded results : Forall told results → telling (concluded results).
Proof.
  intros Hall. unfold concluded. rewrite all_valid_eq.
  destruct (forallb fst results) eqn:E; cbn [negb]; [apply telling_ok|].
  intros σ σ' r [= _ <-]. unfold told. cbn [fst snd]. intros _.
  induction Hall as [|r rs Hr _ IH]; cbn [forallb map concat] in *; [discriminate|].
  destruct (fst r) eqn:Er; cbn [andb] in E.
  - specialize (IH E). destruct (snd r); cbn; [exact IH | discriminate].
  - specialize (Hr Er). destruct (snd r); [congruence | discriminate].
Qed.

Ltac telling_step IH :=
  lazymatch goal with
  | |- telling ok => apply telling_ok
  | |- telling (error _ _) => apply telling_error
  | |- telling (throw _) => apply telling_throw
  | |- telling (concluded _) =>
      apply telling_concluded; repeat apply Forall_app_2; assumption
  | |- telling (ret (any_valid _)) =>
      apply telling_any; [assumption | intros ->; discriminate]
  | |- telling (validate _ _ _ _ _) => apply IH
  | |- telling (bind (match ?x with _ => _ end) _) => destruct x eqn:?
  | |- telling (bind (ret []) (λ _ : list (option _), _)) =>
      apply telling_none_some; intros ? ?
  | |- telling (bind (ret []) _) => apply telling_none; intros ? ?
  | |- telling (bind (map_M _ (indexed _)) _) =>
      apply telling_map_M_some; [intros [? ?] ? ? ? ?|intros ? ?]
  | |- telling (bind (map_M _ _) _) => apply telling_map_M; [intros ? ?|intros ? ? ?]
  | |- telling (bind _ _) => apply telling_bind; intros ?
  | |- telling (match ?x with _ => _ end) => destruct x eqn:?
  end.

(** An invalid verdict of [validate] comes with a message. *)
Lemma invalid_has_messages (n : nat) :
  ∀ this value rules path, telling (validate n this value rules path).
Proof.
  induction n as [|n IH]; intros this value rules path.
  - intros σ σ' r. discriminate.
  - cbn [validate]. cbv zeta.
    repeat telling_step IH.
    all: destruct (negb _);
      [ unfold bind;
        match goal with
        | |- context [validate ?m ?t ?v ?r ?p ?s] =>
            destruct (validate m t v r p s) as [? [r'| |]] eqn:E
        end; try discriminate;
        intros [= _ <-] ? [= <-]; exact (IH _ _ _ _ _ _ _ E)
      | intros [= _ <-] ?; discriminate ].
Qed.

(** * The claims *)

(** ** Verdict and messages of a union *)

Section verdicts.
Import Schema.

(** C1.  [Schema.isEither(Schema.isNumber, Schema.isBoolean).validate(5)]
    returns [[true, [[[], "is not a boolean."]]]]: the verdict is valid and
    the list of messages is not empty. *)
Theorem union_valid_with_messages :
  ∃ R, built (Scenario.number_or_boolean []) = Some R ∧
       ∀ (n : nat) σ, (2 ≤ n)%nat →
         Schema_validate n R (Scenario.num 5) σ
         = (σ, Done (true, [([], [Txt "is not a boolean."])])).
Proof.
  eexists. split; [reflexivity|].
  intros n σ Hn. unfold Schema_validate.
  apply (run_anywhere 2); try (vm_compute; reflexivity); [discriminate | exact Hn].
Qed.

(** [isEither(isNumber, isBoolean)] on ["x"]: the messages of both alternatives. *)
Example neither_number_nor_boolean :
  Scenario.run (Scenario.number_or_boolean []) (VString "x")
  = Some (∅, Done (false, [([], [Txt "is not a number"]); ([], [Txt "is not a boolean."])])).
Proof. vm_compute. reflexivity. Qed.

End verdicts.

(** ** The builder *)

Section builder.
Import Schema.

(** C2 as stated fails: [a.isOptional] returns [a] itself, and [a], which
    rejected [undefined] before the call, accepts it afterwards. *)
Lemma builder_mutates_receiver :
  ∃ h a h' b before after,
    static isString [] = Some (h, a) ∧ call a isOptional h = Some (h', b) ∧
    b = a ∧ h !! a = Some before ∧ h' !! a = Some after ∧
    Schema_validate 1 before VUndefined ∅ = (∅, Done (false, [([], [Txt "is undefined."])])) ∧
    Schema_validate 1 after VUndefined ∅ = (∅, Done (true, [])).
Proof.
  do 6 eexists. repeat split; reflexivity.
Qed.

Lemma setRules_this (h : list Rules.t) (this : nat) (lit old : Rules.t) :
  h !! this = Some old → (setRules this lit h).1 !! this = Some (spread old lit).
Proof. intros Hold. cbn. rewrite list_lookup_alter_eq, Hold. reflexivity. Qed.

Lemma setRules_other (h : list Rules.t) (this other : nat) (lit : Rules.t) :
  other ≠ this → (setRules this lit h).1 !! other = h !! other.
Proof. intros Hne. cbn. apply list_lookup_alter_ne. congruence. Qed.

(** C2, amended.  A builder operation invoked on an instance returns that
    instance; the instance holds, from then on, its former rules spread
    with the object literal of the operation, and every other instance
    holds what it held. *)
Theorem call_updates_receiver (h : list Rules.t) (this : nat) (m : method)
    (old : Rules.t) (h' : list Rules.t) (s : nat) :
  h !! this = Some old → call this m h = Some (h', s) →
  s = this
  ∧ (∃ lit, literal h m = Some lit ∧ h' !! this = Some (spread old lit))
  ∧ (∀ other : nat, other ≠ this → h' !! other = h !! other).
Proof.
  intros Hold Hcall. unfold call in Hcall.
  destruct (literal h m) as [lit|] eqn:Hlit; [|discriminate].
  cbn in Hcall. injection Hcall as <- <-.
  split; [reflexivity|]. split.
  - exists lit. split; [reflexivity|]. apply (setRules_this h this lit old Hold).
  - intros other Hne. apply (setRules_other h this other lit Hne).
Qed.

Lemma call_updates_receiver_witness :
  ∃ h a h' b, static isString [] = Some (h, a) ∧ call a isOptional h = Some (h', b) ∧
    b = a
    ∧ (∃ lit, literal h isOptional = Some lit ∧ h' !! a = Some (spread (spread defaults (with_type "string")) lit))
    ∧ (∀ other : nat, other ≠ a → h' !! other = h !! other).
Proof.
  do 4 eexists. split; [reflexivity|]. split; [reflexivity|].
  eapply call_updates_receiver; reflexivity.
Defined.

(** A static shorthand, by contrast, allocates: its result is an instance
    that did not exist, and the existing ones are left as they were. *)
Lemma static_allocates (h : list Rules.t) (m : method) (h' : list Rules.t) (s : nat) :
  static m h = Some (h', s) →
  s = List.length h
  ∧ (∃ lit, literal (h ++ [defaults]) m = Some lit ∧ h' !! s = Some (spread defaults lit))
  ∧ (∀ other : nat, (other < List.length h)%nat → h' !! other = h !! other).
Proof.
  unfold static, new, call. intros Hcall.
  assert (Hold : (h ++ [defaults]) !! List.length h = Some defaults).
  { rewrite lookup_app_r by lia. rewrite Nat.sub_diag. reflexivity. }
  destruct (literal (h ++ [defaults]) m) as [lit|]; [|discriminate].
  cbn in Hcall. injection Hcall as <- <-.
  split; [reflexivity|]. split.
  - exists lit. split; [reflexivity|]. apply (setRules_this _ _ lit _ Hold).
  - intros other Hlt.
    etransitivity; [apply (setRules_other (h ++ [defaults]) (List.length h) other lit); lia|].
    apply lookup_app_l. exact Hlt.
Qed.

End builder.

(** ** Paths *)

Section paths.
Import Schema.

(** C3.  Validating [{id: "not-a-uuid", tags: ["a", 1]}] against
    [isObject({id: isUUID, tags: isArray(isString)})] does not return: the
    message for the item at index 1 is built from a path that holds the
    number 1, and line 208 calls [replace] on it. *)
Theorem index_in_path_throws :
  ∃ R, built (Scenario.id_and_tags []) = Some R ∧
       ∀ (n : nat) σ, (3 ≤ n)%nat →
         Schema_validate n R Scenario.not_a_uuid σ
         = (σ, Throw (TypeError "key.replace is not a function")).
Proof.
  eexists. split; [reflexivity|].
  intros n σ Hn. unfold Schema_validate.
  apply (run_anywhere 3); try (vm_compute; reflexivity); [discriminate | exact Hn].
Qed.

(** The member [id] of C3 on its own: the message names the pattern [uuid]. *)
Example not_a_uuid_message :
  ∃ R message,
    built (static isUUID []) = Some R
    ∧ validate 1 R (VString "not-a-uuid") R [Key "id"] ∅
      = (∅, Done (false, [(["id"], message)]))
    ∧ render message = Some "does not match the pattern `uuid`.".
Proof.
  do 2 eexists. split; [reflexivity|]. split; [vm_compute; reflexivity | reflexivity].
Qed.

(** An item named by [isArray({0: isString, 1: isString})] has the key ["1"]
    in its path; line 208 leaves such a key as it is, without brackets. *)
Example named_index_as_key :
  ∃ h s0 h' s1,
    static isString [] = Some (h, s0) ∧ static isString h = Some (h', s1)
    ∧ Scenario.run (static (isArray [AEntries [("0", Some s0); ("1", Some s1)]]) h')
          (VArray 11 [VString "a"; Scenario.num 1])
      = Some (∅, Done (false, [(["1"], [Txt "is not a string."])])).
Proof. do 4 eexists. repeat split; vm_compute; reflexivity. Qed.

End paths.

(** ** Patterns without a name *)

Section unnamed.
Import Schema.

(** C4.  A string that fails a pattern which is not in [patterns] makes
    [validate] throw: [find] on line 255 returns [undefined], which the
    destructuring [const [key] = ...] cannot iterate. *)
Theorem unnamed_pattern_throws (n : nat) this rules path pattern s σ σ' :
  Rules.coerce rules = Some [] → Rules.values rules = Some [] → Rules.union rules = Some [] →
  Rules.type rules = Some "string" →
  length_violation (of_nat (String.length s)) (Rules.length rules) = None →
  Rules.pattern rules = Some (VRegExp pattern) →
  find_pattern pattern = None →
  test pattern s σ = (σ', false) →
  validate (S n) this (VString s) rules path σ
  = (σ', Throw (TypeError "undefined is not iterable")).
Proof.
  intros Hc Hv Hu Ht Hl Hp Hf Htest.
  cbn [validate]. rewrite Hc. cbn [property coerced bind ret].
  rewrite Hv. cbn [property bind ret]. rewrite Hu. cbn [property bind ret].
  rewrite Ht. cbn [switch String.eqb Ascii.eqb Bool.eqb]. rewrite Hl, Hp.
  unfold bind at 1. unfold test_M. rewrite Htest. cbn [negb]. rewrite Hf. reflexivity.
Qed.

Lemma unnamed_pattern_throws_witness :
  ∃ R, built (static (matches (VRegExp Scenario.a_only)) []) = Some R ∧
       Schema_validate 1 R (VString "b") ∅
       = (∅, Throw (TypeError "undefined is not iterable")).
Proof.
  eexists. split; [reflexivity|].
  apply (unnamed_pattern_throws 0 _ _ [] Scenario.a_only "b" ∅ ∅); reflexivity.
Defined.

End unnamed.

(** ** Unions *)

Section unions.
Import Schema.

(** C5 as stated fails on [undefined] with an optional alternative:
    [Schema.isOptional] accepts it, but line 211 reads [required] from the
    rules of the union itself, before any alternative is looked at. *)
Lemma union_rejects_undefined :
  ∃ A U, built (static isOptional []) = Some A ∧
         built (Scenario.optional_or_string []) = Some U ∧
         Schema_validate 2 A VUndefined ∅ = (∅, Done (true, [])) ∧
         Schema_validate 2 U VUndefined ∅ = (∅, Done (false, [([], [Txt "is undefined."])])).
Proof. do 2 eexists. repeat split; reflexivity. Qed.

(** The alternative of a fresh union is the member itself, when the member
    has the six properties of line 100 and no union of its own. *)
Lemma alternative_complete (us : list (option Rules.t)) (A : Rules.t) :
  complete A = true → Rules.union A = Some [] →
  alternative (spread defaults (with_union us)) (Some A) = A.
Proof.
  destruct A as [rq nl co vs un ty ln pt it rg sz pr]. unfold complete. cbn.
  intros H Hun. subst un.
  destruct rq, nl, co, vs, ty; try discriminate H.
  destruct ln, pt, it, rg, sz, pr; reflexivity.
Qed.

(** C5, amended.  For a value other than [undefined] and [null], and two
    instances whose rules have the six properties of line 100, no union of
    their own and no [undefined] member: when [A.validate(value)] returns
    and [B.validate(value)], run next, returns, then
    [Schema.isEither(A, B).validate(value)] returns the disjunction of the
    two verdicts and the messages of [A] followed by those of [B], whatever
    the verdicts are. *)
Theorem union_law (n : nat) (h : list Rules.t) (a b : nat) (A B : Rules.t) value
    σ σ1 σ2 va ma vb mb :
  h !! a = Some A → h !! b = Some B →
  value ≠ VUndefined → value ≠ VNull →
  complete A = true → complete B = true →
  Rules.union A = Some [] → Rules.union B = Some [] →
  closed A = true → closed B = true →
  Schema_validate n A value σ = (σ1, Done (va, ma)) →
  Schema_validate n B value σ1 = (σ2, Done (vb, mb)) →
  ∃ h' u U, static (isEither [a; b]) h = Some (h', u) ∧ h' !! u = Some U ∧
    Schema_validate (S n) U value σ = (σ2, Done (va || vb, ma ++ mb)).
Proof.
  intros Ha Hb Hu Hn HcA HcB HuA HuB HclA HclB HrA HrB.
  exists (alter (λ old, spread old (with_union [Some A; Some B])) (List.length h)
            (h ++ [defaults])),
         (List.length h), (spread defaults (with_union [Some A; Some B])).
  split; [|split].
  - unfold static, new, call. cbn [literal map].
    rewrite (lookup_app_l_Some _ _ _ _ Ha), (lookup_app_l_Some _ _ _ _ Hb). reflexivity.
  - rewrite list_lookup_alter_eq, lookup_app_r by lia.
    rewrite Nat.sub_diag. reflexivity.
  - unfold Schema_validate in *.
    set (U := spread defaults (with_union [Some A; Some B])).
    assert (Hrun : validate (S n) U value U [] σ
                   = (let* ra := validate n U value (alternative U (Some A)) [] in
                      let* rb := validate n U value (alternative U (Some B)) [] in
                      ret (any_valid [ra; rb])) σ).
    { unfold U.
      destruct value; try congruence; cbn [validate];
        cbn [Rules.coerce Rules.values Rules.union spread with_union defaults over
             property bind ret coerced map_M];
        unfold bind; cbn [ret];
        (destruct (validate n _ _ (alternative _ (Some A)) _ σ) as [s1 [ra| |]];
           [|reflexivity..]);
        (destruct (validate n _ _ (alternative _ (Some B)) _ s1) as [s2 [rb| |]];
           reflexivity). }
    rewrite Hrun. unfold U.
    rewrite (alternative_complete _ A HcA HuA), (alternative_complete _ B HcB HuB).
    unfold bind. rewrite (validate_this n _ A value A [] HclA σ), HrA.
    rewrite (validate_this n _ B value B [] HclB σ1), HrB.
    cbn. reflexivity.
Qed.

Lemma union_law_witness :
  ∃ h1 h a b A B,
    static isNumber [] = Some (h1, a) ∧ static isBoolean h1 = Some (h, b) ∧
    h !! a = Some A ∧ h !! b = Some B ∧
    ∃ h' u U, static (isEither [a; b]) h = Some (h', u) ∧ h' !! u = Some U ∧
      Schema_validate 2 U (VString "x") ∅
      = (∅, Done (false || false,
                  [([], [Txt "is not a number"])] ++ [([], [Txt "is not a boolean."])])).
Proof.
  do 6 eexists. do 4 (split; [reflexivity|]).
  eapply (union_law 1 _ 0 1 _ _ (VString "x") ∅ ∅ ∅);
    first [reflexivity | discriminate].
Defined.

End unions.

(** ** Determinism *)

Section determinism.
Import Schema.

(** C6 as stated fails on [Schema.matches(/a/g)]: the first run on ["a"]
    returns valid and moves [lastIndex] to 1; the second run starts the
    search there, finds nothing, and ends otherwise (by the [throw] of C4,
    the pattern not being a named one). *)
Lemma global_pattern_runs_differ :
  ∃ R, built (static (matches (VRegExp Scenario.a_global)) []) = Some R ∧
       Schema_validate 1 R (VString "a") ∅ = ({[6%nat := 1%nat]}, Done (true, [])) ∧
       Schema_validate 1 R (VString "a") {[6%nat := 1%nat]}
       = ({[6%nat := 0%nat]}, Throw (TypeError "undefined is not iterable")).
Proof.
  eexists. split; [reflexivity|]. split; vm_compute; reflexivity.
Qed.

(** C6, amended.  When no pattern of the rules, nor of [this.rules], has the
    [g] or [y] flag, a run hands back the store of the [lastIndex]
    properties as it got it, and ends the same way from any store: two runs
    on the same value, rules and path return the same verdict and messages. *)
Theorem validate_deterministic (n : nat) this value rules path σ τ :
  stateless this = true → stateless rules = true →
  (validate n this value rules path σ).1 = σ ∧
  (validate n this value rules path σ).2 = (validate n this value rules path τ).2.
Proof.
  intros Ht Hr. destruct (validate_pure n this value rules path Ht Hr) as [o Ho].
  rewrite !Ho. split; reflexivity.
Qed.

Lemma validate_deterministic_witness :
  ∃ R, built (static isUUID []) = Some R ∧
       (validate 1 R (VString "x") R [] ∅).1 = ∅ ∧
       (validate 1 R (VString "x") R [] ∅).2
       = (validate 1 R (VString "x") R [] {[1%nat := 7%nat]}).2.
Proof.
  eexists. split; [reflexivity|].
  apply validate_deterministic; reflexivity.
Defined.

End determinism.

(** ** Objects with named members only *)

Lemma unspecified_true (p : Props.t Rules.t) (fields : list (string * jsval)) :
  (∃ key, In key (map fst fields) ∧ own key (Props.entries p) = None) →
  unspecified p fields = true.
Proof.
  intros (key & Hin & Hown). unfold unspecified.
  destruct (forallb _ _) eqn:E; [|reflexivity].
  rewrite forallb_forall in E. specialize (E key Hin).
  unfold has_own in E. rewrite Hown in E.
  apply bool_decide_eq_true in E. destruct E as [x Hx]. discriminate.
Qed.

Lemma unspecified_false (p : Props.t Rules.t) (fields : list (string * jsval)) :
  (∀ key, In key (map fst fields) → is_Some (own key (Props.entries p))) →
  unspecified p fields = false.
Proof.
  intros H. unfold unspecified. apply negb_false_iff, forallb_forall.
  intros key Hin. unfold has_own. apply bool_decide_eq_true. auto.
Qed.

(** Lines 302-358 on an object that the earlier steps let through, for a
    [props] without [__keys__] and [__values__]. *)
Lemma named_members_run (n : nat) this rules path coercers value a fields props σ :
  value ≠ VUndefined → value ≠ VNull →
  Rules.coerce rules = Some coercers →
  coerced coercers value σ = (σ, Done (VObject a fields)) →
  Rules.values rules = Some [] → Rules.union rules = Some [] →
  Rules.type rules = Some "object" →
  isObject (VObject a fields) = true →
  size_violation "property" "properties" (of_nat (List.length fields)) (Rules.size rules)
  = None →
  structured rules = Some props →
  Props.__keys__ props = None → Props.__values__ props = None →
  validate (S n) this value rules path σ
  = (if unspecified props fields
     then error path [Txt "contains unspecified properties."]
     else bind (named n this (VObject a fields) path props) concluded) σ.
Proof.
  intros Hu Hn Hc Hco Hv Hun Ht Hobj Hsize Hp Hk Hvs.
  destruct value; try congruence; cbn [validate];
    rewrite Hc; cbn [property bind ret];
    unfold bind at 1; rewrite Hco;
    rewrite Hv; cbn [property bind ret]; rewrite Hun; cbn [property bind ret];
    rewrite Ht; cbn [switch String.eqb Ascii.eqb Bool.eqb];
    rewrite Hobj; cbn [negb]; rewrite Hsize, Hp, Hk, Hvs;
    rewrite bool_decide_eq_true_2 by (split; reflexivity); cbn [andb];
    (destruct (unspecified props fields); [reflexivity|]);
    unfold named, bind; cbn [ret];
    (destruct (map_M _ _ σ) as [σ' [rs| |]]; [|reflexivity|reflexivity]);
    rewrite !app_nil_r; reflexivity.
Qed.


(** ** [check] *)

Lemma own_In {A} (key : string) (l : list (string * A)) (x : A) :
  own key l = Some x → In key (map fst l).
Proof.
  induction l as [|[k' o'] l IH]; cbn; [discriminate|].
  destruct (String.eqb k' key) eqn:E; [apply String.eqb_eq in E; left; exact E|].
  intros H. right. apply IH. exact H.
Qed.

Lemma own_present (key : string) (l : list (string * option jsval)) :
  NoDup (map fst l) →
  own key (present l) = match own key l with Some (Some v) => Some v | _ => None end.
Proof.
  induction l as [|[k [v|]] l IH]; intros Hnd; cbn [present own map fst] in *.
  - reflexivity.
  - destruct (String.eqb k key); [reflexivity|]. apply IH. inversion Hnd; assumption.
  - inversion Hnd as [|? ? Hk Hnd']; subst.
    destruct (String.eqb k key) eqn:E; [|apply IH; assumption].
    apply String.eqb_eq in E. subst k. rewrite (IH Hnd').
    destruct (own key l) as [o|] eqn:Eo; [|reflexivity].
    exfalso. apply Hk. apply list_elem_of_In. exact (own_In _ _ _ Eo).
Qed.

Lemma present_keys (l : list (string * option jsval)) (key : string) :
  In key (map fst (present l)) → In key (map fst l).
Proof.
  induction l as [|[k [v|]] l IH]; cbn; intros H.
  - exact H.
  - destruct H as [H|H]; [left; exact H | right; apply IH; exact H].
  - right. apply IH. exact H.
Qed.

Lemma value_of_eq (this : Rules.t) :
  value_of this
  = VObject 0 (present
      (properties (λ o, match o with Some r => value_of r | None => VUndefined end) this)).
Proof. destruct this; reflexivity. Qed.

Lemma properties_keys optional this :
  map fst (properties optional this)
  = ["required"; "null"; "coerce"; "values"; "union"; "type"; "length"; "pattern";
     "integer"; "range"; "size"; "props"].
Proof. reflexivity. Qed.

Lemma properties_NoDup optional this : NoDup (map fst (properties optional this)).
Proof.
  rewrite properties_keys. apply (bool_decide_unpack _). vm_compute. exact I.
Qed.

(** The property [key] of a rules object read as a value. *)
Lemma get_value_of (this : Rules.t) (key : string) :
  mem key object_prototype = false →
  get (value_of this) key
  = match own key (properties
                     (λ o, match o with Some r => value_of r | None => VUndefined end) this) with
    | Some (Some v) => v
    | _ => VUndefined
    end.
Proof.
  intros Hk. rewrite value_of_eq. cbn [get].
  rewrite (own_present key _ (properties_NoDup _ this)), Hk.
  destruct (own key _) as [[v|]|]; reflexivity.
Qed.

(** The rules [check] validates against are those its schema builds. *)
Example check_schema_built : Schema.built (Check.schema []) = Some Check.rules.
Proof. reflexivity. Qed.

Lemma check_run (n : nat) (this : Rules.t) σ :
  check (S n) this σ
  = bind (named n Check.rules (value_of this) [] Check.props) concluded σ.
Proof.
  unfold check, Schema_validate.
  pose proof (value_of_eq this) as Hv.
  set (fields := present _) in Hv.
  assert (Hobj : isObject (VObject 0 fields) = true).
  { cbn [isObject]. unfold has_own, fields.
    rewrite (own_present "constructor" _ (properties_NoDup _ this)). reflexivity. }
  assert (Hspec : unspecified Check.props fields = false).
  { apply unspecified_false. intros key Hin. apply present_keys in Hin.
    rewrite properties_keys in Hin.
    repeat (destruct Hin as [<-|Hin]; [cbn; eauto|]). destruct Hin. }
  rewrite (named_members_run n Check.rules Check.rules [] [] (value_of this) 0 fields
             Check.props σ);
    try reflexivity; try (rewrite Hv; first [discriminate | reflexivity | exact Hobj]);
    try exact Hobj.
  rewrite Hspec, Hv. reflexivity.
Qed.

(** Every member of the schema of [check] returns on every rules object. *)
Lemma check_members_return (n : nat) (this : Rules.t) :
  (3 ≤ n)%nat →
  ∀ e, In e (Props.entries Check.props) →
  returns (let '(key, rules_) := e in
           validate n Check.rules (get (value_of this) key) (default Check.rules rules_)
             ([] ++ [Key key])).
Proof.
  intros Hn e Hin. cbn [Check.props Props.entries] in Hin.
  repeat (destruct Hin as [<-|Hin];
          [first
             [ eapply validate_returns;
               [ vm_compute; reflexivity
               | apply (Nat.le_trans _ 3); [vm_compute; lia | exact Hn]
               | reflexivity ]
             | idtac ]|]);
    [|destruct Hin].
  rewrite get_value_of by reflexivity. cbn [own properties String.eqb Ascii.eqb Bool.eqb].
  destruct (Rules.coerce this) as [cs|]; cbn [fmap option_fmap option_map].
  - exists (false, [(["coerce"], [Txt "is not an object."])]). intros σ.
    apply (run_anywhere 1); first [vm_compute; reflexivity | discriminate | lia].
  - exists (false, [(["coerce"], [Txt "is undefined."])]). intros σ.
    apply (run_anywhere 1); first [vm_compute; reflexivity | discriminate | lia].
Qed.

(** A member of the schema of [check] that is invalid makes [check] return
    invalid, with the member's messages among those returned. *)
Lemma check_member_invalid (n : nat) (this : Rules.t) key rules_ messages :
  (3 ≤ n)%nat →
  In (key, rules_) (Props.entries Check.props) →
  (∀ σ, validate n Check.rules (get (value_of this) key) (default Check.rules rules_)
          [Key key] σ = (σ, Done (false, messages))) →
  ∃ all, (∀ σ, check (S n) this σ = (σ, Done (false, all)))
         ∧ ∀ m, In m messages → In m all.
Proof.
  intros Hn Hin Hrun.
  destruct (map_M_returns _ _ (check_members_return n this Hn)) as (rs & Hrs & Hrs').
  specialize (Hrs' (key, rules_) (false, messages) Hin Hrun).
  destruct (concluded_invalid rs messages ∅ Hrs') as (all & Hall & Hm).
  exists all. split; [|exact Hm].
  intros σ. rewrite check_run. unfold named, bind. rewrite Hrs.
  destruct (concluded_invalid rs messages σ Hrs') as (all' & Hall' & _).
  rewrite Hall'. unfold concluded, ok, ret in *.
  destruct (all_valid rs) as [valid ms]. destruct (negb valid); congruence.
Qed.

(** C8.  [check] on a rules object whose [type] is ["unknown"] returns
    invalid, and among its messages is the one of the member [type], whose
    rules list the seven types as the only values: "does not equal any
    required value." *)
Theorem check_rejects_unknown_type (n : nat) (this : Rules.t) σ :
  Rules.type this = Some "unknown" → (4 ≤ n)%nat →
  (∃ messages, check n this σ = (σ, Done (false, messages))
               ∧ In (["type"], [Txt "does not equal any required value."]) messages)
  ∧ (∃ R, own "type" (Props.entries Check.props) = Some (Some R)
          ∧ Rules.values R
            = Some [VString "string"; VString "number"; VString "date"; VString "boolean";
                    VString "regexp"; VString "object"; VString "array"]).
Proof.
  intros Htype Hn. split; [|eexists; split; reflexivity].
  destruct n as [|n]; [lia|].
  edestruct (check_member_invalid n this "type") as (all & Hall & Hin).
  - lia.
  - do 5 right. left. reflexivity.
  - intros τ. rewrite get_value_of by reflexivity.
    cbn [own properties String.eqb Ascii.eqb Bool.eqb]. rewrite Htype.
    cbn [fmap option_fmap option_map].
    apply (run_anywhere 1); first [vm_compute; reflexivity | discriminate | lia].
  - exists all. split; [apply Hall|]. apply Hin. left. reflexivity.
Qed.

Lemma check_rejects_unknown_type_witness :
  (∃ messages, check 4 (spread defaults (with_type "unknown")) ∅ = (∅, Done (false, messages))
               ∧ In (["type"], [Txt "does not equal any required value."]) messages)
  ∧ (∃ R, own "type" (Props.entries Check.props) = Some (Some R)
          ∧ Rules.values R
            = Some [VString "string"; VString "number"; VString "date"; VString "boolean";
                    VString "regexp"; VString "object"; VString "array"]).
Proof.
  apply (check_rejects_unknown_type 4 (spread defaults (with_type "unknown")) ∅);
    [reflexivity | lia].
Defined.

(** C9.  [check] on a rules object whose [values] and [union] are the empty
    arrays of line 100 returns invalid: the member [values] is required to
    have at least 1 item and the member [union] at least 2, and each
    contributes its message. *)
Theorem check_rejects_defaults (n : nat) (this : Rules.t) σ :
  Rules.values this = Some [] → Rules.union this = Some [] → (4 ≤ n)%nat →
  ∃ messages,
    check n this σ = (σ, Done (false, messages))
    ∧ In (["values"], [Txt "has fewer than "; Val (VNumber Check.one); Txt " items."]) messages
    ∧ In (["union"], [Txt "has fewer than "; Val (VNumber Check.two); Txt " items."]) messages.
Proof.
  intros Hvalues Hunion Hn. destruct n as [|n]; [lia|].
  edestruct (check_member_invalid n this "values") as (all & Hall & Hin).
  { lia. }
  { do 3 right. left. reflexivity. }
  { intros τ. rewrite get_value_of by reflexivity.
    cbn [own properties String.eqb Ascii.eqb Bool.eqb]. rewrite Hvalues.
    cbn [fmap option_fmap option_map].
    apply (run_anywhere 1); first [vm_compute; reflexivity | discriminate | lia]. }
  edestruct (check_member_invalid n this "union") as (all' & Hall' & Hin').
  { lia. }
  { do 4 right. left. reflexivity. }
  { intros τ. rewrite get_value_of by reflexivity.
    cbn [own properties String.eqb Ascii.eqb Bool.eqb]. rewrite Hunion.
    cbn [fmap option_fmap option_map map].
    apply (run_anywhere 1); first [vm_compute; reflexivity | discriminate | lia]. }
  assert (all' = all) as -> by (specialize (Hall ∅); specialize (Hall' ∅); congruence).
  exists all. split; [apply Hall|]. split.
  - apply Hin. left. reflexivity.
  - apply Hin'. left. reflexivity.
Qed.

Lemma check_rejects_defaults_witness :
  ∃ R, Schema.built (Schema.static Schema.isString []) = Some R ∧
  ∃ messages,
    check 4 R ∅ = (∅, Done (false, messages))
    ∧ In (["values"], [Txt "has fewer than "; Val (VNumber Check.one); Txt " items."]) messages
    ∧ In (["union"], [Txt "has fewer than "; Val (VNumber Check.two); Txt " items."]) messages.
Proof.
  eexists. split; [reflexivity|].
  apply check_rejects_defaults; [reflexivity | reflexivity | lia].
Defined.

(** The same on the rules of line 100 themselves, with all the messages. *)
Example check_defaults :
  check 4 defaults ∅
  = (∅, Done (false,
       [(["coerce"], [Txt "is not an object."]);
        (["values"], [Txt "has fewer than "; Val (VNumber Check.one); Txt " items."]);
        (["union"], [Txt "has fewer than "; Val (VNumber Check.two); Txt " items."])])).
Proof. vm_compute. reflexivity. Qed.

(** ** Numbers that are not finite *)

Section numbers.
Import Schema.

(** C10.  [NaN] is valid for [isInteger.isBetween(min, max)] whatever the
    bounds, and [NaN], [Infinity] and [-Infinity] are valid for [isInteger]:
    they are numbers, and [value % 1] is [NaN] for each of them, which is
    falsy. *)
Theorem non_finite_numbers_pass (min max : jsval) (n : nat) σ :
  (∃ R, built (chain [isInteger; isBetween min max] []) = Some R ∧
        Schema_validate (S n) R (VNumber NaN) σ = (σ, Done (true, []))) ∧
  (∃ R, built (static isInteger []) = Some R ∧
        Schema_validate (S n) R (VNumber NaN) σ = (σ, Done (true, [])) ∧
        Schema_validate (S n) R (VNumber Infinity) σ = (σ, Done (true, [])) ∧
        Schema_validate (S n) R (VNumber NegInfinity) σ = (σ, Done (true, []))) ∧
  has_fraction NaN = false ∧ has_fraction Infinity = false ∧ has_fraction NegInfinity = false.
Proof.
  split; [|split].
  - eexists. split; [reflexivity|].
    unfold Schema_validate. cbn [validate]. cbn.
    destruct min as [| | |lo| | | | | |], max as [| | |hi| | | | | |];
      try destruct lo; try destruct hi; reflexivity.
  - eexists. split; [reflexivity|]. repeat split; reflexivity.
  - repeat split; reflexivity.
Qed.

End numbers.

(** ** Presence and length *)

Section scenarios.
Import Schema.

(** [isOptional.isInteger.isBetween(0, 99999)] and
    [isInteger.isBetween(0, 99999)] on [undefined]. *)
Example optional_integer_on_undefined :
  Scenario.run (chain [isOptional; isInteger; isBetween (VNumber (of_Z 0)) (VNumber (of_Z 99999))] [])
      VUndefined
  = Some (∅, Done (true, [])).
Proof. vm_compute. reflexivity. Qed.

Example integer_on_undefined :
  Scenario.run (chain [isInteger; isBetween (VNumber (of_Z 0)) (VNumber (of_Z 99999))] []) VUndefined
  = Some (∅, Done (false, [([], [Txt "is undefined."])])).
Proof. vm_compute. reflexivity. Qed.

(** [isString.lengthIsBetween(1, 50)] on the empty string. *)
Example empty_string_too_short :
  ∃ message,
    Scenario.run (chain [isString; lengthIsBetween (SNumber (of_nat 1)) (SNumber (of_nat 50))] [])
        (VString "")
    = Some (∅, Done (false, [([], message)]))
    ∧ render message = Some "is shorter than 1 characters.".
Proof. eexists. split; [vm_compute; reflexivity | reflexivity]. Qed.

(** [lengthIsBetween(1, 3)] accepts the lengths 1, 2 and 3 and rejects 0 and 4. *)
Example length_bounds_inclusive :
  let e := static (lengthIsBetween (SNumber (of_nat 1)) (SNumber (of_nat 3))) [] in
  let verdict value := '(_, o) ← Scenario.run e (VString value);
                       match o with Done r => Some (fst r) | _ => None end in
  map verdict [""; "a"; "ab"; "abc"; "abcd"]
  = [Some false; Some true; Some true; Some true; Some false].
Proof. vm_compute. reflexivity. Qed.

End scenarios.

(** * More properties of the module *)

(** ** Termination *)

Lemma finishes_ret {A} (a : A) : finishes (ret a).
Proof. intros σ. discriminate. Qed.

Lemma finishes_throw {A} (e : exn) : finishes (@throw A e).
Proof. intros σ. discriminate. Qed.

Lemma finishes_bind {A B} (m : M A) (k : A → M B) :
  finishes m → (∀ a, finishes (k a)) → finishes (bind m k).
Proof.
  intros Hm Hk σ. unfold bind. specialize (Hm σ).
  destruct (m σ) as [σ' [a|e|]]; cbn in *; [apply Hk | discriminate | congruence].
Qed.

Lemma finishes_map_M {A B} (f : A → M B) (l : list A) :
  (∀ x, In x l → finishes (f x)) → finishes (map_M f l).
Proof.
  induction l as [|x l IH]; intros H; cbn [map_M].
  - apply finishes_ret.
  - apply finishes_bind; [apply H; left; reflexivity|]. intros y.
    apply finishes_bind; [|intros; apply finishes_ret].
    apply IH. intros z Hz. apply H. right. exact Hz.
Qed.

Lemma finishes_error path message : finishes (error path message).
Proof.
  unfold error. destruct (mapM rendered path); [apply finishes_ret | apply finishes_throw].
Qed.

Lemma finishes_property {A B} (field : option A) (k : A → M B) :
  (∀ a, field = Some a → finishes (k a)) → finishes (bind (property field) k).
Proof.
  intros H. destruct field as [a|].
  - intros σ. apply (H a eq_refl).
  - intros σ. discriminate.
Qed.

Lemma finishes_coerced coercers value : finishes (coerced coercers value).
Proof.
  revert value. induction coercers as [|c cs IH]; intros value; cbn [coerced].
  - apply finishes_ret.
  - destruct (c value); [apply finishes_throw | apply IH].
Qed.

Lemma finishes_concluded results : finishes (concluded results).
Proof.
  unfold concluded. destruct (all_valid results) as [valid messages].
  destruct (negb valid); apply finishes_ret.
Qed.

Lemma finishes_test pattern s : finishes (test_M pattern s).
Proof. intros σ. unfold test_M. destruct (test pattern s σ). discriminate. Qed.

Lemma height_eq r :
  height r
  = S (members (Rules.props r)
       + match Rules.union r with
         | Some us =>
             max_list (map (λ o, match o with
                                 | Some u => S (members (Rules.props u))
                                 | None => 1%nat
                                 end) us)
         | None => 0%nat
         end).
Proof. destruct r; reflexivity. Qed.

Lemma height_members r : (members (Rules.props r) < height r)%nat.
Proof. rewrite height_eq. lia. Qed.

Lemma members_entry p key r' :
  In (key, Some r') (Props.entries p) → (height r' ≤ members (Some p))%nat.
Proof.
  intros Hin. cbn [members].
  pose proof (max_list_In _ _
                (in_map (λ e : string * option Rules.t,
                           match snd e with Some r' => height r' | None => 0%nat end)
                   _ _ Hin)) as H.
  cbn in H. lia.
Qed.

Lemma members_keys p k : Props.__keys__ p = Some k → (height k ≤ members (Some p))%nat.
Proof. intros H. cbn [members]. rewrite H. lia. Qed.

Lemma members_values p k : Props.__values__ p = Some k → (height k ≤ members (Some p))%nat.
Proof. intros H. cbn [members]. rewrite H. lia. Qed.

Lemma height_alternative r us o :
  Rules.union r = Some us → In o us → (height (alternative r o) < height r)%nat.
Proof.
  intros Hus Ho.
  rewrite (height_eq (alternative r o)), alternative_union, alternative_props.
  rewrite (height_eq r), Hus. cbn [map max_list].
  pose proof (max_list_In _ _
                (in_map (λ o, match o with
                              | Some u => S (members (Rules.props u))
                              | None => 1%nat
                              end) _ _ Ho)) as H.
  destruct o as [u|]; cbn [default from_option id] in *.
  - destruct (Rules.props u); cbn [over] in *; [|destruct (Rules.props r)]; cbn in *; lia.
  - cbn [Rules.props Rules.empty over] in *. lia.
Qed.

Ltac finishes_step IH :=
  lazymatch goal with
  | |- finishes ok => apply finishes_ret
  | |- finishes (ret _) => apply finishes_ret
  | |- finishes (throw _) => apply finishes_throw
  | |- finishes (error _ _) => apply finishes_error
  | |- finishes (concluded _) => apply finishes_concluded
  | |- finishes (coerced _ _) => apply finishes_coerced
  | |- finishes (test_M _ _) => apply finishes_test
  | |- finishes (bind (property _) _) => apply finishes_property; intros ? ?
  | |- finishes (bind _ _) => apply finishes_bind; [|intros ?]
  | |- finishes (map_M _ _) => apply finishes_map_M; intros ? ?
  | |- finishes (validate _ _ _ (alternative ?r _) _) =>
      apply IH;
      [ solve [eapply closed_alternative; eauto]
      | solve [eapply Nat.lt_succ_r, Nat.lt_le_trans;
               [eapply height_alternative; eauto | eassumption]] ]
  | H : In (?key, ?o) (Props.entries ?p)
    |- finishes (validate _ _ _ (default _ ?o) _) =>
      let r' := fresh "r'" in
      let E := fresh in
      let Hr := fresh in
      destruct (closed_entry _ _ _ _ ltac:(eassumption) ltac:(eassumption) H)
        as (r' & E & Hr);
      rewrite E in *; cbn [default from_option id];
      apply IH; [exact Hr|];
      match goal with
      | Hs : structured ?r = Some p, Hd : (height ?r ≤ _)%nat |- _ =>
          pose proof (height_members r) as Hm;
          rewrite (structured_props _ _ Hs) in Hm;
          pose proof (members_entry _ _ _ H); lia
      end
  | Hs : structured ?r = Some ?p, Hd : (height ?r ≤ _)%nat
    |- finishes (validate _ _ _ ?k _) =>
      pose proof (height_members r) as Hm;
      rewrite (structured_props _ _ Hs) in Hm;
      apply IH;
      [ first [ solve [eapply hereditarily_keys; eauto using structured_props]
              | solve [eapply hereditarily_values; eauto using structured_props] ]
      | first [ assert (height k ≤ members (Some p))%nat
                  by (apply members_keys; assumption); lia
              | assert (height k ≤ members (Some p))%nat
                  by (apply members_values; assumption); lia ] ]
  | |- finishes (match ?x with _ => _ end) => destruct x eqn:?
  end.

(** On rules without [undefined] members, [validate] ends for every value
    once the fuel covers the height of the rules. *)
Lemma validate_finishes (n : nat) :
  ∀ this value rules path,
  closed rules = true → (height rules ≤ n)%nat →
  finishes (validate n this value rules path).
Proof.
  induction n as [|n IH]; intros this value rules path Hc Hh.
  - rewrite height_eq in Hh. lia.
  - cbn [validate]. cbv zeta.
    repeat finishes_step IH.
Qed.

(** X4.  [validate] terminates on rules without [undefined] members: with
    fuel for the height of the rules, the run returns or throws, for every
    value, path and store. *)
Theorem validate_terminates (n : nat) this value rules path σ :
  closed rules = true → (height rules ≤ n)%nat →
  ∃ σ' o, validate n this value rules path σ = (σ', o) ∧ o ≠ Unfinished.
Proof.
  intros Hc Hh. pose proof (validate_finishes n this value rules path Hc Hh σ) as H.
  destruct (validate n this value rules path σ) as [σ' o]. exists σ', o. split; [reflexivity|].
  exact H.
Qed.

Lemma validate_terminates_witness :
  closed Sample.id_and_tags = true ∧ (height Sample.id_and_tags ≤ 3)%nat ∧
  ∃ σ' o, validate 3 Sample.id_and_tags Scenario.not_a_uuid Sample.id_and_tags [] ∅ = (σ', o)
          ∧ o ≠ Unfinished.
Proof.
  assert (Hc : closed Sample.id_and_tags = true) by reflexivity.
  assert (Hh : (height Sample.id_and_tags ≤ 3)%nat) by (vm_compute; lia).
  split; [exact Hc|]. split; [exact Hh|].
  exact (validate_terminates 3 _ _ _ [] ∅ Hc Hh).
Defined.

(** ** Verdicts *)

(** X1.  An invalid verdict of [validate] always comes with at least one
    message. *)
Theorem invalid_verdict_has_message (n : nat) this value rules path σ σ' messages :
  validate n this value rules path σ = (σ', Done (false, messages)) → messages ≠ [].
Proof.
  intros H. exact (invalid_has_messages n this value rules path σ σ' _ H eq_refl).
Qed.

Lemma invalid_verdict_has_message_witness :
  validate 2 Sample.number_or_boolean (VString "x") Sample.number_or_boolean [] ∅
  = (∅, Done (false, [([], [Txt "is not a number"]); ([], [Txt "is not a boolean."])]))
  ∧ [([] : list string, [Txt "is not a number"]); ([], [Txt "is not a boolean."])] ≠ [].
Proof.
  assert (H : validate 2 Sample.number_or_boolean (VString "x") Sample.number_or_boolean [] ∅
              = (∅, Done (false, [([], [Txt "is not a number"]);
                                  ([], [Txt "is not a boolean."])])))
    by (vm_compute; reflexivity).
  split; [exact H|]. exact (invalid_verdict_has_message _ _ _ _ _ _ _ _ H).
Defined.

(** X2.  A valid verdict of [validate] comes with no message whenever the
    rules validated against have an empty union, whatever their members
    are. *)
Theorem valid_verdict_is_silent (n : nat) this value rules path σ σ' messages :
  Rules.union rules = Some [] →
  validate n this value rules path σ = (σ', Done (true, messages)) → messages = [].
Proof.
  intros Hu H. exact (valid_has_no_messages n this value rules path Hu σ σ' _ H).
Qed.

Lemma valid_verdict_is_silent_witness :
  Rules.union Sample.only_a = Some [] ∧
  validate 2 Sample.only_a Scenario.just_a Sample.only_a [] ∅ = (∅, Done (true, [])) ∧
  ([] : list (list string * list piece)) = [].
Proof.
  assert (Hu : Rules.union Sample.only_a = Some []) by reflexivity.
  assert (H : validate 2 Sample.only_a Scenario.just_a Sample.only_a [] ∅
              = (∅, Done (true, []))) by (vm_compute; reflexivity).
  split; [exact Hu|]. split; [exact H|].
  exact (valid_verdict_is_silent _ _ _ _ _ _ _ _ Hu H).
Defined.

(** X5.  On rules without coercers and patterns, in which no array has a
    rule for additional items and every member has rules, [validate] never
    throws: with fuel for their depth and a path of keys it returns a
    verdict, the same from every store, and leaves the store as it was. *)
Theorem tame_rules_return (n : nat) this value rules path keys :
  tame rules = true → (depth rules ≤ n)%nat → mapM rendered path = Some keys →
  ∃ r, ∀ σ, validate n this value rules path σ = (σ, Done r).
Proof. intros Ht Hd Hp. exact (validate_returns n this value rules path keys Ht Hd Hp). Qed.

Lemma tame_rules_return_witness :
  tame Sample.only_a = true ∧ (depth Sample.only_a ≤ 2)%nat ∧
  ∃ r, ∀ σ, validate 2 Sample.only_a Scenario.a_and_b Sample.only_a [] σ = (σ, Done r).
Proof.
  assert (Ht : tame Sample.only_a = true) by reflexivity.
  assert (Hd : (depth Sample.only_a ≤ 2)%nat) by (vm_compute; lia).
  split; [exact Ht|]. split; [exact Hd|].
  exact (tame_rules_return 2 _ _ _ [] [] Ht Hd eq_refl).
Defined.

(** ** Paths of the messages *)

Lemma ensures_ret {A} (Q : A → Prop) (a : A) : Q a → ensures Q (ret a).
Proof. intros H σ σ' b [= _ <-]. exact H. Qed.

Lemma ensures_throw {A} (Q : A → Prop) e : ensures Q (throw e).
Proof. intros σ σ' b. discriminate. Qed.

Lemma ensures_bind {A B} (P : A → Prop) (Q : B → Prop) (m : M A) (k : A → M B) :
  ensures P m → (∀ a, P a → ensures Q (k a)) → ensures Q (bind m k).
Proof.
  intros Hm Hk σ σ' b. unfold bind. destruct (m σ) as [σ1 [a| |]] eqn:E; try discriminate.
  apply Hk. exact (Hm _ _ _ E).
Qed.

Lemma ensures_any {A B} (Q : B → Prop) (m : M A) (k : A → M B) :
  (∀ a, ensures Q (k a)) → ensures Q (bind m k).
Proof.
  intros Hk. apply (ensures_bind (λ _, True)); [intros ? ? ? ?; exact I | intros a _; apply Hk].
Qed.

Lemma ensures_weaken {A} (P Q : A → Prop) (m : M A) :
  ensures P m → (∀ a, P a → Q a) → ensures Q m.
Proof. intros Hm HPQ σ σ' a E. exact (HPQ _ (Hm _ _ _ E)). Qed.

Lemma ensures_map_M {A B} (P : B → Prop) (f : A → M B) (l : list A) :
  (∀ x, In x l → ensures P (f x)) → ensures (Forall P) (map_M f l).
Proof.
  intros H σ σ' rs E.
  exact (proj1 (map_M_post f P l (λ x τ τ' b Hx, H x Hx τ τ' b) _ _ _ E)).
Qed.

Lemma within_app (path : list path_key) (key : path_key) v :
  within (path ++ [key]) v → within path v.
Proof.
  intros (keys & rest & Hkeys & Hv).
  apply mapM_Some in Hkeys. apply Forall2_app_inv_l in Hkeys as (ks & k & Hks & _ & ->).
  exists ks, (k ++ rest). split; [apply mapM_Some; exact Hks|].
  rewrite Hv, <- app_assoc. reflexivity.
Qed.

Lemma located_app (path : list path_key) (key : path_key) r :
  located (path ++ [key]) r → located path r.
Proof.
  unfold located. intros H. eapply Forall_impl; [exact H|].
  intros v. apply within_app.
Qed.

Lemma located_error path message : ensures (located path) (error path message).
Proof.
  unfold error. destruct (mapM rendered path) as [keys|] eqn:E; [|apply ensures_throw].
  apply ensures_ret. constructor; [|constructor].
  exists keys, []. split; [exact E | cbn; rewrite app_nil_r; reflexivity].
Qed.

Lemma located_concat path results :
  Forall (located path) results → Forall (within path) (concat (map snd results)).
Proof.
  induction 1 as [|r rs Hr _ IH]; cbn [map concat]; [constructor|].
  apply Forall_app_2; assumption.
Qed.

Lemma located_any path results :
  Forall (located path) results → located path (any_valid results).
Proof. intros H. rewrite any_valid_eq. apply located_concat, H. Qed.

Lemma located_concluded path results :
  Forall (located path) results → ensures (located path) (concluded results).
Proof.
  intros H. unfold concluded. rewrite all_valid_eq.
  destruct (negb _); apply ensures_ret; [apply located_concat, H | constructor].
Qed.

Lemma located_some path (os : list (option (bool * list (list string * list piece)))) :
  Forall (λ o, ∀ r, o = Some r → located path r) os → Forall (located path) (omap id os).
Proof.
  induction 1 as [|o os Ho _ IH]; cbn; [constructor|].
  destruct o as [r|]; cbn; [constructor; [apply Ho; reflexivity | exact IH] | exact IH].
Qed.

Ltac located_step IH :=
  lazymatch goal with
  | |- ensures _ ok => apply ensures_ret; constructor
  | |- ensures _ (error _ _) => apply located_error
  | |- ensures _ (throw _) => apply ensures_throw
  | |- ensures _ (concluded _) =>
      apply located_concluded; repeat apply Forall_app_2;
      first [assumption | apply located_some; assumption]
  | |- ensures _ (ret (any_valid _)) => apply ensures_ret, located_any; assumption
  | |- ensures _ (ret (Some _)) => apply ensures_ret; intros ? [= <-]; assumption
  | |- ensures _ (ret None) => apply ensures_ret; intros ? [=]
  | |- ensures _ (validate _ _ _ _ (_ ++ [_])) =>
      eapply ensures_weaken; [apply IH | apply located_app]
  | |- ensures _ (validate _ _ _ _ _) => apply IH
  | |- ensures _ (bind (match ?x with _ => _ end) _) => destruct x eqn:?
  | |- ensures (located ?p) (bind (ret []) (λ _ : list (option _), _)) =>
      apply (ensures_bind (Forall (λ o, ∀ r, o = Some r → located p r)));
      [apply ensures_ret; apply Forall_nil_2 | intros ? ?]
  | |- ensures (located ?p) (bind (ret []) _) =>
      apply (ensures_bind (Forall (located p)));
      [apply ensures_ret; apply Forall_nil_2 | intros ? ?]
  | |- ensures (located ?p) (bind (map_M _ (indexed _)) _) =>
      apply (ensures_bind (Forall (λ o, ∀ r, o = Some r → located p r)));
      [apply ensures_map_M; intros [? ?] _ | intros ? ?]
  | |- ensures (located ?p) (bind (map_M _ _) _) =>
      apply (ensures_bind (Forall (located p)));
      [apply ensures_map_M; intros ? _ | intros ? ?]
  | |- ensures (λ o, ∀ r, o = Some r → located ?p r) (bind (validate _ _ _ _ _) _) =>
      apply (ensures_bind (located p)); [|intros ? ?]
  | |- ensures _ (bind _ _) => apply ensures_any; intros ?
  | |- ensures _ (match ?x with _ => _ end) => destruct x eqn:?
  | |- ensures _ (let '(_, _) := ?x in _) => destruct x
  end.

Lemma validate_located (n : nat) :
  ∀ this value rules path, ensures (located path) (validate n this value rules path).
Proof.
  induction n as [|n IH]; intros this value rules path.
  - intros σ σ' r. discriminate.
  - cbn [validate]. cbv zeta.
    repeat located_step IH.
Qed.

(** X3.  Every message that [validate] returns for a call at [path] carries a
    path that starts with the keys of [path], as line 208 renders them: the
    messages of the members (lines 331, 338, 345, 387 and 393) lie below the
    value they belong to, and those of the alternatives of a union (line 227)
    at the value itself. *)
Theorem messages_below_path (n : nat) this value rules path keys σ σ' valid messages :
  mapM rendered path = Some keys →
  validate n this value rules path σ = (σ', Done (valid, messages)) →
  ∀ place what, In (place, what) messages → ∃ rest, place = keys ++ rest.
Proof.
  intros Hkeys Hrun place what Hin.
  pose proof (validate_located n this value rules path _ _ _ Hrun) as Hall.
  unfold located in Hall. cbn [snd] in Hall.
  rewrite Forall_forall in Hall. apply list_elem_of_In in Hin.
  destruct (Hall _ Hin) as (keys' & rest & Hkeys' & Hplace).
  exists rest. cbn [fst] in Hplace. congruence.
Qed.

Lemma messages_below_path_witness :
  mapM rendered [Key "body"] = Some ["body"] ∧
  validate 2 Sample.only_a (VObject 13 [("a", Scenario.num 1)]) Sample.only_a [Key "body"] ∅
  = (∅, Done (false, [(["body"; "a"], [Txt "is not a string."])])) ∧
  ∀ place what, In (place, what) [(["body"; "a"], [Txt "is not a string."])] →
                ∃ rest, place = ["body"] ++ rest.
Proof.
  assert (Hk : mapM rendered [Key "body"] = Some ["body"]) by reflexivity.
  assert (H : validate 2 Sample.only_a (VObject 13 [("a", Scenario.num 1)]) Sample.only_a
                [Key "body"] ∅
              = (∅, Done (false, [(["body"; "a"], [Txt "is not a string."])])))
    by (vm_compute; reflexivity).
  split; [exact Hk|]. split; [exact H|].
  exact (messages_below_path _ _ _ _ _ _ _ _ _ _ Hk H).
Defined.

(** ** [check] on any schema *)

(** X6.  [check] never finds a schema sound.  Line 422 gives the member
    [coerce] the static method [µ.isArray] itself, which has no [rules]: the
    member is validated against the rules of the schema of [check], an
    object schema that requires a value.  Whatever the rules object, with or
    without coercers, [check] returns invalid with a message at [coerce]. *)
Theorem check_never_valid (n : nat) (this : Rules.t) σ :
  (4 ≤ n)%nat →
  ∃ messages,
    check n this σ = (σ, Done (false, messages))
    ∧ In (["coerce"],
          [Txt match Rules.coerce this with
               | Some _ => "is not an object."
               | None => "is undefined."
               end])
         messages.
Proof.
  intros Hn. destruct n as [|n]; [lia|].
  destruct (check_member_invalid n this "coerce" None
              [(["coerce"], [Txt match Rules.coerce this with
                                 | Some _ => "is not an object."
                                 | None => "is undefined."
                                 end])])
    as (all & Hall & Hin).
  - lia.
  - do 2 right. left. reflexivity.
  - intros τ. rewrite get_value_of by reflexivity.
    cbn [own properties String.eqb Ascii.eqb Bool.eqb].
    destruct (Rules.coerce this) as [cs|]; cbn [fmap option_fmap option_map];
      apply (run_anywhere 1); first [vm_compute; reflexivity | discriminate | lia].
  - exists all. split; [apply Hall|]. apply Hin. left. reflexivity.
Qed.

Lemma check_never_valid_witness :
  (4 ≤ 4)%nat ∧
  ∃ messages,
    check 4 Sample.id_and_tags ∅ = (∅, Done (false, messages))
    ∧ In (["coerce"], [Txt "is not an object."]) messages.
Proof.
  assert (H : (4 ≤ 4)%nat) by lia.
  split; [exact H|]. exact (check_never_valid 4 Sample.id_and_tags ∅ H).
Defined.

(** ** What the builder makes *)

Lemma static_built (h : list Rules.t) (m : Schema.method) (lit : Rules.t) :
  Schema.literal (h ++ [defaults]) m = Some lit →
  Schema.built (Schema.static m h) = Some (spread defaults lit).
Proof.
  intros Hlit. unfold Schema.static, Schema.new, Schema.call. rewrite Hlit.
  cbn [mbind option_bind Schema.built Schema.setRules].
  rewrite list_lookup_alter_eq, lookup_app_r by lia. rewrite Nat.sub_diag. reflexivity.
Qed.

Lemma chained_built (ms : list Schema.method) :
  ∀ (lits : list Rules.t) (h : list Rules.t) (this : nat) (old : Rules.t),
  Forall2 (λ m lit, ∀ h', Schema.literal h' m = Some lit) ms lits →
  h !! this = Some old →
  Schema.built (Schema.chained this ms h) = Some (foldl spread old lits).
Proof.
  induction ms as [|m ms IH]; intros lits h this old Hlits Hold.
  - inversion Hlits; subst. cbn. exact Hold.
  - inversion Hlits as [|? lit ? lits' Hm Hrest]; subst.
    cbn [Schema.chained]. unfold Schema.call. rewrite Hm. cbn [mbind option_bind Schema.setRules foldl].
    apply (IH lits' _ this (spread old lit) Hrest).
    rewrite list_lookup_alter_eq, Hold. reflexivity.
Qed.

Lemma chain_built (ms : list Schema.method) (lits : list Rules.t) (h : list Rules.t) :
  Forall2 (λ m lit, ∀ h', Schema.literal h' m = Some lit) ms lits →
  Schema.built (Schema.chain ms h) = Some (foldl spread defaults lits).
Proof.
  intros Hlits. unfold Schema.chain, Schema.new.
  apply (chained_built ms lits _ _ _ Hlits).
  rewrite lookup_app_r by lia. rewrite Nat.sub_diag. reflexivity.
Qed.

(** ** Structures built without members *)

(** X7.  [Schema.isArray()] accepts the empty array and no other: called
    without arguments, [#isObject] (lines 163-168, 187) still makes a
    [props], with no entry and no [__values__], and line 381 then turns
    down every array that has an item. *)
Theorem isArray_without_arguments (h : list Rules.t) (R : Rules.t) (n : nat) this a items
    path keys σ :
  Schema.built (Schema.static (Schema.isArray []) h) = Some R →
  mapM rendered path = Some keys →
  validate (S n) this (VArray a items) R path σ
  = (σ, Done match items with
             | [] => (true, [])
             | _ :: _ => (false, [(keys, [Txt "contains unspecified items."])])
             end).
Proof.
  intros HR Hpath. rewrite (static_built h (Schema.isArray []) _ eq_refl) in HR. injection HR as <-.
  destruct items as [|item items]; cbn.
  - reflexivity.
  - unfold error. rewrite Hpath. reflexivity.
Qed.

Lemma isArray_without_arguments_witness :
  Schema.built (Schema.static (Schema.isArray []) []) = Some (spread defaults
    (spread (with_type "array") (with_props (Props.Make [] None None)))) ∧
  mapM rendered [] = Some [] ∧
  validate 1 defaults (VArray 1 [VString "a"]) (spread defaults
    (spread (with_type "array") (with_props (Props.Make [] None None)))) [] ∅
  = (∅, Done (false, [([], [Txt "contains unspecified items."])])).
Proof.
  assert (HR : Schema.built (Schema.static (Schema.isArray []) []) = Some (spread defaults
    (spread (with_type "array") (with_props (Props.Make [] None None))))) by reflexivity.
  assert (Hp : mapM rendered [] = Some []) by reflexivity.
  split; [exact HR|]. split; [exact Hp|].
  exact (isArray_without_arguments [] _ 0 defaults 1 [VString "a"] [] [] ∅ HR Hp).
Defined.

(** X8.  [Schema.isObject()] accepts the object without properties and no
    other plain object: its [props] has no entry, no [__keys__] and no
    [__values__] (lines 163-168, 172), and line 323 turns down every key. *)
Theorem isObject_without_arguments (h : list Rules.t) (R : Rules.t) (n : nat) this a fields
    path keys σ :
  Schema.built (Schema.static (Schema.isObject []) h) = Some R →
  mapM rendered path = Some keys →
  isObject (VObject a fields) = true →
  validate (S n) this (VObject a fields) R path σ
  = (σ, Done match fields with
             | [] => (true, [])
             | _ :: _ => (false, [(keys, [Txt "contains unspecified properties."])])
             end).
Proof.
  intros HR Hpath Hobj. rewrite (static_built h (Schema.isObject []) _ eq_refl) in HR. injection HR as <-.
  cbn [validate]. cbn [defaults spread over Rules.coerce Rules.values Rules.union Rules.type
    Rules.size Rules.props Schema.isObject_ with_type with_props property coerced bind ret
    switch String.eqb Ascii.eqb Bool.eqb size_violation].
  rewrite Hobj. cbn [negb structured Rules.props Props.entries has_own own].
  destruct fields as [|[key v] fields]; cbn.
  - reflexivity.
  - unfold error. rewrite Hpath. reflexivity.
Qed.

Lemma isObject_without_arguments_witness :
  Schema.built (Schema.static (Schema.isObject []) []) = Some (spread defaults
    (spread (with_type "object") (with_props (Props.Make [] None None)))) ∧
  mapM rendered [] = Some [] ∧
  isObject Scenario.just_a = true ∧
  validate 1 defaults Scenario.just_a (spread defaults
    (spread (with_type "object") (with_props (Props.Make [] None None)))) [] ∅
  = (∅, Done (false, [([], [Txt "contains unspecified properties."])])).
Proof.
  assert (HR : Schema.built (Schema.static (Schema.isObject []) []) = Some (spread defaults
    (spread (with_type "object") (with_props (Props.Make [] None None))))) by reflexivity.
  assert (Hp : mapM rendered [] = Some []) by reflexivity.
  assert (Ho : isObject Scenario.just_a = true) by reflexivity.
  split; [exact HR|]. split; [exact Hp|]. split; [exact Ho|].
  exact (isObject_without_arguments [] _ 0 defaults 13 [("a", VString "x")] [] [] ∅ HR Hp Ho).
Defined.

(** ** Keys that every object inherits *)

Lemma inherited_key_in (key : string) (p : Props.t Rules.t) :
  mem key (["__keys__"; "__values__"] ++ object_prototype) = true → key_in key p = true.
Proof.
  unfold key_in, mem. rewrite existsb_app. intros H.
  rewrite <- orb_assoc. rewrite H. apply orb_true_r.
Qed.

Lemma inherited_filtered (p : Props.t Rules.t) (fields : list (string * jsval)) :
  Forall (λ key, mem key (["__keys__"; "__values__"] ++ object_prototype) = true)
         (map fst fields) →
  filter (λ entry, negb (key_in (fst entry) p)) fields = [].
Proof.
  induction fields as [|[key v] fields IH]; intros H; [reflexivity|].
  inversion H as [|? ? Hkey Hrest]; subst.
  rewrite filter_cons. cbn [fst]. rewrite (inherited_key_in _ _ Hkey). cbn [negb].
  destruct (decide _) as [Hd|_]; [destruct Hd|]. apply IH, Hrest.
Qed.

(** X9.  Under [Schema.isObject(values)], a rule for the values of the
    properties that are not named, a property whose key is a name that every
    object inherits ([toString], [valueOf], [hasOwnProperty], ...), or one of
    [__keys__] and [__values__], is not validated at all: [key in
    rules.props] (lines 337 and 344) is true for it.  An object that has
    only such keys is valid whatever the rule and whatever their values. *)
Theorem inherited_names_unchecked (h : list Rules.t) (v : nat) (Rv R : Rules.t) (n : nat)
    this a fields path σ :
  h !! v = Some Rv →
  Schema.built (Schema.static (Schema.isObject [Schema.ASchema v]) h) = Some R →
  isObject (VObject a fields) = true →
  Forall (λ key, mem key (["__keys__"; "__values__"] ++ object_prototype) = true)
         (map fst fields) →
  validate (S n) this (VObject a fields) R path σ = (σ, Done (true, [])).
Proof.
  intros Hv HR Hobj Hkeys.
  assert (Hlit : Schema.literal (h ++ [defaults]) (Schema.isObject [Schema.ASchema v])
                 = Some (spread (with_type "object")
                           (with_props (Props.Make [] None (Some Rv))))).
  { cbn. unfold Schema.isObject_. cbn. rewrite (lookup_app_l_Some _ _ _ _ Hv). reflexivity. }
  rewrite (static_built h _ _ Hlit) in HR. injection HR as <-.
  cbn [validate]. cbn [defaults spread over Rules.coerce Rules.values Rules.union Rules.type
    Rules.size Rules.props with_type with_props property coerced bind ret
    switch String.eqb Ascii.eqb Bool.eqb size_violation].
  rewrite Hobj. cbn [negb].
  change (structured _) with (Some (Props.Make [] None (Some Rv))).
  cbn [Props.entries Props.__keys__ Props.__values__ map_M bind ret].
  rewrite bool_decide_eq_false_2 by (intros [_ [=]]). cbn [andb].
  rewrite (inherited_filtered _ _ Hkeys). reflexivity.
Qed.

Lemma inherited_names_unchecked_witness :
  [spread defaults (with_type "number")] !! 0%nat = Some (spread defaults (with_type "number")) ∧
  Schema.built (Schema.static (Schema.isObject [Schema.ASchema 0])
                  [spread defaults (with_type "number")])
  = Some (spread defaults (spread (with_type "object")
            (with_props (Props.Make [] None (Some (spread defaults (with_type "number"))))))) ∧
  isObject (VObject 1 [("toString", VString "x"); ("valueOf", VBool true)]) = true ∧
  Forall (λ key, mem key (["__keys__"; "__values__"] ++ object_prototype) = true)
         ["toString"; "valueOf"] ∧
  validate 2 defaults (VObject 1 [("toString", VString "x"); ("valueOf", VBool true)])
    (spread defaults (spread (with_type "object")
       (with_props (Props.Make [] None (Some (spread defaults (with_type "number")))))))
    [] ∅
  = (∅, Done (true, [])).
Proof.
  assert (Hv : [spread defaults (with_type "number")] !! 0%nat
               = Some (spread defaults (with_type "number"))) by reflexivity.
  assert (HR : Schema.built (Schema.static (Schema.isObject [Schema.ASchema 0])
                               [spread defaults (with_type "number")])
               = Some (spread defaults (spread (with_type "object")
                   (with_props (Props.Make [] None
                      (Some (spread defaults (with_type "number")))))))) by reflexivity.
  assert (Ho : isObject (VObject 1 [("toString", VString "x"); ("valueOf", VBool true)])
               = true) by reflexivity.
  assert (Hk : Forall (λ key, mem key (["__keys__"; "__values__"] ++ object_prototype) = true)
                 ["toString"; "valueOf"]) by (repeat constructor).
  split; [exact Hv|]. split; [exact HR|]. split; [exact Ho|]. split; [exact Hk|].
  exact (inherited_names_unchecked _ 0 _ _ 1 defaults 1 _ [] ∅ Hv HR Ho Hk).
Defined.

(** ** Bounds *)

Lemma num_lt_of_nat (a b : nat) : num_lt (of_nat a) (of_nat b) = (a <? b)%nat.
Proof.
  unfold num_lt, of_nat, Qle_bool. cbn [inject_Z Qnum Qden]. rewrite !Z.mul_1_r.
  destruct (Z.leb_spec (Z.of_nat b) (Z.of_nat a)), (Nat.ltb_spec a b); cbn; lia.
Qed.

Lemma has_fraction_false (q : Q) :
  has_fraction (Finite q) = false ↔ ∃ z : Z, (q == inject_Z z)%Q.
Proof.
  unfold has_fraction. rewrite negb_false_iff, Z.eqb_eq.
  rewrite Z.mod_divide by discriminate. unfold Z.divide, Qeq. cbn [inject_Z Qnum Qden].
  split; intros [z Hz]; exists z; lia.
Qed.

Lemma num_lt_false (p q : Q) : num_lt (Finite p) (Finite q) = false ↔ (q <= p)%Q.
Proof. unfold num_lt. rewrite negb_false_iff. apply Qle_bool_iff. Qed.

(** X10.  [Schema.lengthIsBetween(lo, hi)] accepts a string exactly when its
    length is at least [lo] and at most [hi]: both bounds are inclusive
    (lines 133 and 247-251). *)
Theorem lengthIsBetween_inclusive (h : list Rules.t) (R : Rules.t) (lo hi : nat) (s : string)
    (n : nat) this path σ :
  Schema.built (Schema.static (Schema.lengthIsBetween (SNumber (of_nat lo))
                                 (SNumber (of_nat hi))) h) = Some R →
  validate (S n) this (VString s) R path σ = (σ, Done (true, []))
  ↔ (lo ≤ String.length s ∧ String.length s ≤ hi)%nat.
Proof.
  intros HR.
  rewrite (static_built h (Schema.lengthIsBetween _ _) _ eq_refl) in HR. injection HR as <-.
  cbn [validate]. cbn [defaults spread over Rules.coerce Rules.values Rules.union Rules.type
    Rules.length Rules.pattern with_length property coerced bind ret
    switch String.eqb Ascii.eqb Bool.eqb length_violation Schema.pair_of item lookup
    list_lookup default from_option id to_number scalar_value].
  unfold num_gt. rewrite !num_lt_of_nat.
  destruct (Nat.ltb_spec (String.length s) lo) as [Hlo|Hlo].
  - split; [|lia]. unfold error. destruct (mapM rendered path); discriminate.
  - destruct (Nat.ltb_spec hi (String.length s)) as [Hhi|Hhi].
    + split; [|lia]. unfold error. destruct (mapM rendered path); discriminate.
    + split; [lia | reflexivity].
Qed.

Lemma lengthIsBetween_inclusive_witness :
  Schema.built (Schema.static (Schema.lengthIsBetween (SNumber (of_nat 2))
                                 (SNumber (of_nat 3))) [])
  = Some (spread defaults (with_length (BArray [SNumber (of_nat 2); SNumber (of_nat 3)]))) ∧
  (validate 1 defaults (VString "abc")
     (spread defaults (with_length (BArray [SNumber (of_nat 2); SNumber (of_nat 3)]))) [] ∅
   = (∅, Done (true, []))
   ↔ (2 ≤ String.length "abc" ∧ String.length "abc" ≤ 3)%nat).
Proof.
  assert (HR : Schema.built (Schema.static (Schema.lengthIsBetween (SNumber (of_nat 2))
                                 (SNumber (of_nat 3))) [])
               = Some (spread defaults
                         (with_length (BArray [SNumber (of_nat 2); SNumber (of_nat 3)]))))
    by reflexivity.
  split; [exact HR|].
  exact (lengthIsBetween_inclusive [] _ 2 3 "abc" 0 defaults [] ∅ HR).
Defined.

(** X11.  [Schema.isInteger.isBetween(lo, hi)] accepts a finite number
    exactly when it is an integer that is at least [lo] and at most [hi]
    (lines 140, 149 and 264-272); both bounds are inclusive. *)
Theorem isInteger_isBetween_inclusive (h : list Rules.t) (R : Rules.t) (lo hi q : Q)
    (n : nat) this path σ :
  Schema.built (Schema.chain [Schema.isInteger;
                              Schema.isBetween (VNumber (Finite lo)) (VNumber (Finite hi))] h)
  = Some R →
  validate (S n) this (VNumber (Finite q)) R path σ = (σ, Done (true, []))
  ↔ (∃ z : Z, (q == inject_Z z)%Q) ∧ (lo <= q)%Q ∧ (q <= hi)%Q.
Proof.
  intros HR.
  rewrite (chain_built _ [spread (with_type "number") (with_integer true);
                          with_range (Schema.range_of (VNumber (Finite lo))
                                        (VNumber (Finite hi)))]) in HR
    by (repeat constructor).
  injection HR as <-.
  cbn [validate]. cbn [foldl defaults spread over Rules.coerce Rules.values Rules.union
    Rules.type Rules.integer Rules.range with_type with_integer with_range property coerced
    bind ret switch String.eqb Ascii.eqb Bool.eqb number_range_violation Schema.range_of item
    lookup list_lookup default from_option id below above andb].
  rewrite <- has_fraction_false, <- !num_lt_false. unfold num_gt.
  destruct (has_fraction (Finite q)).
  { split; [|intros [[=] _]]. unfold error. destruct (mapM rendered path); discriminate. }
  destruct (num_lt (Finite q) (Finite lo)).
  { split; [|intros (_ & [=] & _)]. unfold error. destruct (mapM rendered path); discriminate. }
  destruct (num_lt (Finite hi) (Finite q)).
  { split; [|intros (_ & _ & [=])]. unfold error. destruct (mapM rendered path); discriminate. }
  split; [auto | reflexivity].
Qed.

Lemma isInteger_isBetween_inclusive_witness :
  Schema.built (Schema.chain [Schema.isInteger;
                              Schema.isBetween (VNumber (Finite (1 # 1)))
                                (VNumber (Finite (5 # 1)))] [])
  = Some (spread (spread defaults (spread (with_type "number") (with_integer true)))
            (with_range (VArray 0 [VNumber (Finite (1 # 1)); VNumber (Finite (5 # 1))]))) ∧
  (validate 1 defaults (VNumber (Finite (5 # 1)))
     (spread (spread defaults (spread (with_type "number") (with_integer true)))
        (with_range (VArray 0 [VNumber (Finite (1 # 1)); VNumber (Finite (5 # 1))]))) [] ∅
   = (∅, Done (true, []))
   ↔ (∃ z : Z, (5 # 1 == inject_Z z)%Q) ∧ (1 # 1 <= 5 # 1)%Q ∧ (5 # 1 <= 5 # 1)%Q).
Proof.
  assert (HR : Schema.built (Schema.chain [Schema.isInteger;
                              Schema.isBetween (VNumber (Finite (1 # 1)))
                                (VNumber (Finite (5 # 1)))] [])
    = Some (spread (spread defaults (spread (with_type "number") (with_integer true)))
              (with_range (VArray 0 [VNumber (Finite (1 # 1)); VNumber (Finite (5 # 1))]))))
    by reflexivity.
  split; [exact HR|].
  exact (isInteger_isBetween_inclusive [] _ (1 # 1) (5 # 1) (5 # 1) 0 defaults [] ∅ HR).
Defined.

(** ** What the patterns accept *)

Lemma string_app_cons (c : ascii) (s t : string) : String c s +:+ t = String c (s +:+ t).
Proof. reflexivity. Qed.

Lemma string_app_nil_l (s : string) : "" +:+ s = s.
Proof. reflexivity. Qed.

Lemma string_app_nil_r (s : string) : s +:+ "" = s.
Proof. induction s as [|c s IH]; [reflexivity|]. rewrite string_app_cons, IH. reflexivity. Qed.

Lemma string_app_assoc (s t u : string) : (s +:+ t) +:+ u = s +:+ t +:+ u.
Proof.
  induction s as [|c s IH]; [reflexivity|]. rewrite !string_app_cons, IH. reflexivity.
Qed.

Lemma full_match_Void (s : string) : full_match Void s = false.
Proof. induction s as [|c s IH]; [reflexivity | exact IH]. Qed.

Lemma full_match_Alt (s : string) :
  ∀ a b, full_match (Alt a b) s = full_match a s || full_match b s.
Proof. induction s as [|c s IH]; intros a b; [reflexivity | apply IH]. Qed.

Lemma full_match_Eps (s : string) : full_match Eps s = true ↔ s = "".
Proof.
  destruct s as [|c s]; [split; reflexivity|].
  cbn. rewrite full_match_Void. split; discriminate.
Qed.

Lemma full_match_Class (p : ascii → bool) (s : string) :
  full_match (Class p) s = true ↔ ∃ c, s = String c "" ∧ p c = true.
Proof.
  destruct s as [|c s].
  - split; [discriminate | intros (c & [=] & _)].
  - cbn. destruct (p c) eqn:Hp.
    + rewrite full_match_Eps. split.
      * intros ->. exists c. split; [reflexivity | exact Hp].
      * intros (c' & [= -> ->] & _). reflexivity.
    + rewrite full_match_Void. split; [discriminate|].
      intros (c' & [= -> ->] & Hc). congruence.
Qed.

(** A concatenation matches the strings that split into a match of each
    part. *)
Lemma full_match_Cat (b : re) (s : string) :
  ∀ a, full_match (Cat a b) s = true
       ↔ ∃ s1 s2, s = s1 +:+ s2 ∧ full_match a s1 = true ∧ full_match b s2 = true.
Proof.
  induction s as [|c s IH]; intros a.
  - cbn. rewrite andb_true_iff. split.
    + intros [Ha Hb]. exists "", "". auto.
    + intros (s1 & s2 & Hs & Ha & Hb).
      destruct s1; [|discriminate]. destruct s2; [|discriminate]. auto.
  - cbn [full_match deriv]. destruct (nullable a) eqn:Hn.
    + rewrite full_match_Alt, orb_true_iff, IH. split.
      * intros [(s1 & s2 & -> & Ha & Hb)|Hb].
        -- exists (String c s1), s2. auto.
        -- exists "", (String c s). auto.
      * intros (s1 & s2 & Hs & Ha & Hb). destruct s1 as [|c1 s1].
        -- right. rewrite string_app_nil_l in Hs. subst s2. exact Hb.
        -- left. rewrite string_app_cons in Hs. injection Hs as <- ->. exists s1, s2. auto.
    + rewrite IH. split.
      * intros (s1 & s2 & -> & Ha & Hb). exists (String c s1), s2. auto.
      * intros (s1 & s2 & Hs & Ha & Hb). destruct s1 as [|c1 s1].
        -- cbn in Ha. congruence.
        -- rewrite string_app_cons in Hs. injection Hs as <- ->. exists s1, s2. auto.
Qed.

Lemma full_match_times (p : ascii → bool) (n : nat) :
  ∀ s, full_match (times n (Class p)) s = true ↔ word n p s.
Proof.
  unfold word. induction n as [|n IH]; intros s; cbn [times].
  - rewrite full_match_Eps. split.
    + intros ->. auto.
    + intros [Hl _]. destruct s; [reflexivity | discriminate].
  - rewrite full_match_Cat. split.
    + intros (s1 & s2 & -> & H1 & H2).
      apply full_match_Class in H1 as (c & -> & Hc). apply IH in H2 as [Hl Hall].
      rewrite string_app_cons, string_app_nil_l. cbn. rewrite Hl, Hc, Hall. auto.
    + intros [Hl Hall]. destruct s as [|c s]; [discriminate|].
      cbn in Hl, Hall. apply andb_true_iff in Hall as [Hc Hall].
      exists (String c ""), s. split; [reflexivity|]. split.
      * apply full_match_Class. exists c. auto.
      * apply IH. split; [lia | exact Hall].
Qed.

Lemma full_match_chr (c : ascii) (s : string) :
  full_match (chr c) s = true ↔ s = String c "".
Proof.
  unfold chr. rewrite full_match_Class. split.
  - intros (c' & -> & Hc). apply Ascii.eqb_eq in Hc. congruence.
  - intros ->. exists c. split; [reflexivity | apply Ascii.eqb_refl].
Qed.

Lemma uuid_re_shape (s : string) : full_match uuid_re s = true ↔ uuid_shape s.
Proof.
  unfold uuid_re, uuid_shape. cbn [times].
  change hex with (Class is_hex).
  split.
  - intros H.
    apply full_match_Cat in H as (a & s1 & -> & Ha & H).
    apply full_match_Cat in H as (h1 & s2 & -> & Hh1 & H).
    apply full_match_Cat in H as (g & e & -> & Hg & He).
    apply full_match_Cat in Hg as (g1 & g' & -> & Hg1 & Hg).
    apply full_match_Cat in Hg as (g2 & g'' & -> & Hg2 & Hg).
    apply full_match_Cat in Hg as (g3 & g''' & -> & Hg3 & Hg).
    apply full_match_Eps in Hg as ->.
    apply full_match_Cat in Hg1 as (b & k1 & -> & Hb & Hk1).
    apply full_match_Cat in Hg2 as (c & k2 & -> & Hc & Hk2).
    apply full_match_Cat in Hg3 as (d & k3 & -> & Hd & Hk3).
    apply full_match_chr in Hh1 as ->, Hk1 as ->, Hk2 as ->, Hk3 as ->.
    exists a, b, c, d, e.
    split.
    { rewrite !string_app_assoc. reflexivity. }
    repeat split;
      first [ apply (proj1 (full_match_times is_hex 8 _) Ha)
            | apply (proj1 (full_match_times is_hex 4 _) Hb)
            | apply (proj1 (full_match_times is_hex 4 _) Hc)
            | apply (proj1 (full_match_times is_hex 4 _) Hd)
            | apply (proj1 (full_match_times is_hex 12 _) He) ].
  - intros (a & b & c & d & e & -> & Ha & Hb & Hc & Hd & He).
    apply full_match_Cat. exists a, ("-" +:+ b +:+ "-" +:+ c +:+ "-" +:+ d +:+ "-" +:+ e).
    split; [reflexivity|]. split; [apply (full_match_times is_hex 8), Ha|].
    apply full_match_Cat. exists "-", (b +:+ "-" +:+ c +:+ "-" +:+ d +:+ "-" +:+ e).
    split; [reflexivity|]. split; [apply full_match_chr; reflexivity|].
    apply full_match_Cat. exists (b +:+ "-" +:+ c +:+ "-" +:+ d +:+ "-"), e.
    split; [rewrite !string_app_assoc; reflexivity|].
    split; [|apply (full_match_times is_hex 12), He].
    apply full_match_Cat. exists (b +:+ "-"), (c +:+ "-" +:+ d +:+ "-").
    split; [rewrite !string_app_assoc; reflexivity|]. split.
    { apply full_match_Cat. exists b, "-". split; [reflexivity|].
      split; [apply (full_match_times is_hex 4), Hb | apply full_match_chr; reflexivity]. }
    apply full_match_Cat. exists (c +:+ "-"), (d +:+ "-").
    split; [rewrite !string_app_assoc; reflexivity|]. split.
    { apply full_match_Cat. exists c, "-". split; [reflexivity|].
      split; [apply (full_match_times is_hex 4), Hc | apply full_match_chr; reflexivity]. }
    apply full_match_Cat. exists (d +:+ "-"), "".
    split; [rewrite string_app_nil_r; reflexivity|]. split; [|reflexivity].
    apply full_match_Cat. exists d, "-". split; [reflexivity|].
    split; [apply (full_match_times is_hex 4), Hd | apply full_match_chr; reflexivity].
Qed.

Lemma test_anchored (a : nat) (text : string) (r : re) (s : string) σ :
  test_M (anchored a text r) s σ = (σ, Done (full_match r s)).
Proof.
  unfold test_M, test, anchored. cbn [re_uses_last_index re_exec].
  destruct (full_match r s); reflexivity.
Qed.

(** X12.  [Schema.isUUID] accepts a string exactly when it is made of groups
    of 8, 4, 4, 4 and 12 hexadecimal digits in lower case with a hyphen
    between them (lines 5, 126 and 254): nothing before, nothing after, no
    upper case. *)
Theorem isUUID_accepts (h : list Rules.t) (R : Rules.t) (s : string) (n : nat) this path σ :
  Schema.built (Schema.static Schema.isUUID h) = Some R →
  validate (S n) this (VString s) R path σ = (σ, Done (true, [])) ↔ uuid_shape s.
Proof.
  intros HR. rewrite (static_built h Schema.isUUID _ eq_refl) in HR. injection HR as <-.
  rewrite <- uuid_re_shape.
  cbn [validate]. cbn [defaults spread over Rules.coerce Rules.values Rules.union Rules.type
    Rules.length Rules.pattern with_type with_pattern property coerced bind ret
    switch String.eqb Ascii.eqb Bool.eqb length_violation].
  unfold bind, patterns.uuid. rewrite test_anchored.
  destruct (full_match uuid_re s); cbn [negb].
  - split; reflexivity.
  - split; [|discriminate].
    cbn. unfold error. destruct (mapM rendered path); discriminate.
Qed.

Lemma isUUID_accepts_witness :
  Schema.built (Schema.static Schema.isUUID [])
  = Some (spread defaults (spread (with_type "string") (with_pattern (VRegExp patterns.uuid)))) ∧
  (validate 1 defaults (VString "123e4567-e89b-12d3-a456-426614174000")
     (spread defaults (spread (with_type "string") (with_pattern (VRegExp patterns.uuid))))
     [] ∅ = (∅, Done (true, []))
   ↔ uuid_shape "123e4567-e89b-12d3-a456-426614174000").
Proof.
  assert (HR : Schema.built (Schema.static Schema.isUUID [])
               = Some (spread defaults (spread (with_type "string")
                                          (with_pattern (VRegExp patterns.uuid)))))
    by reflexivity.
  split; [exact HR|].
  exact (isUUID_accepts [] _ "123e4567-e89b-12d3-a456-426614174000" 0 defaults [] ∅ HR).
Defined.

Lemma full_match_Cat_ext (a a' b : re) :
  (∀ s, full_match a s = full_match a' s) →
  ∀ s, full_match (Cat a b) s = full_match (Cat a' b) s.
Proof.
  intros H s. apply Bool.eq_true_iff_eq. rewrite !full_match_Cat.
  split; intros (s1 & s2 & Hs & Ha & Hb); exists s1, s2; rewrite H in *; auto.
Qed.

Lemma full_match_Cat_Eps (b : re) (s : string) : full_match (Cat Eps b) s = full_match b s.
Proof.
  apply Bool.eq_true_iff_eq. rewrite full_match_Cat. split.
  - intros (s1 & s2 & -> & Ha & Hb). apply full_match_Eps in Ha as ->. exact Hb.
  - intros Hb. exists "", s. auto.
Qed.

Lemma full_match_Cat_Void (b : re) (s : string) : full_match (Cat Void b) s = false.
Proof.
  apply Bool.not_true_is_false. rewrite full_match_Cat.
  intros (s1 & s2 & _ & Ha & _). rewrite full_match_Void in Ha. discriminate.
Qed.

Lemma full_match_Cat_dead (a b : re) :
  (∀ s, full_match a s = false) → ∀ s, full_match (Cat a b) s = false.
Proof.
  intros H s. apply Bool.not_true_is_false. rewrite full_match_Cat.
  intros (s1 & s2 & _ & Ha & _). rewrite H in Ha. discriminate.
Qed.

(** The expression of [patterns.slug] and the scan accept the same strings. *)
Lemma slug_re_scan (s : string) :
  full_match slug_re s = slug_from true s
  ∧ full_match (Cat (Star alnum) (Star (Cat (chr "-") (plus alnum)))) s = slug_from false s.
Proof.
  unfold slug_re, plus, chr. change alnum with (Class is_alnum).
  induction s as [|c s [IH1 IH2]]; [split; reflexivity|].
  assert (Hhyphen : is_alnum "-" = false) by reflexivity.
  split; cbn [full_match deriv nullable andb slug_from negb].
  - destruct (is_alnum c) eqn:Hal.
    + rewrite (full_match_Cat_ext _ _ _ (full_match_Cat_Eps _)), IH2.
      destruct (Ascii.eqb_spec c "-") as [->|_]; [congruence | reflexivity].
    + rewrite (full_match_Cat_dead _ _ (full_match_Cat_Void _)).
      destruct (Ascii.eqb c "-"); reflexivity.
  - rewrite full_match_Alt.
    rewrite (Ascii.eqb_sym "-" c).
    destruct (Ascii.eqb_spec c "-") as [->|Hne].
    + rewrite Hhyphen.
      rewrite (full_match_Cat_dead _ _ (full_match_Cat_Void _)).
      rewrite (full_match_Cat_ext _ _ _ (full_match_Cat_Eps _)), IH1. reflexivity.
    + rewrite (full_match_Cat_dead (Cat Void _) _ (full_match_Cat_Void _)), orb_false_r.
      destruct (is_alnum c).
      * rewrite (full_match_Cat_ext _ _ _ (full_match_Cat_Eps _)), IH2. reflexivity.
      * rewrite (full_match_Cat_dead _ _ (full_match_Cat_Void _)). reflexivity.
Qed.

Lemma no_hyphen_at_end_cons (c : ascii) (s : string) :
  (∀ t, String c s ≠ t +:+ "-") ↔ ¬ (c = "-"%char ∧ s = "") ∧ (∀ t, s ≠ t +:+ "-").
Proof.
  split.
  - intros H. split.
    + intros [-> ->]. exact (H "" eq_refl).
    + intros t ->. exact (H (String c t) eq_refl).
  - intros [H1 H2] [|c' t] Ht.
    + rewrite string_app_nil_l in Ht. injection Ht as -> ->. auto.
    + rewrite string_app_cons in Ht. injection Ht as -> ->. exact (H2 t eq_refl).
Qed.

Lemma no_two_hyphens_cons (c : ascii) (s : string) :
  (∀ t u, String c s ≠ t +:+ "--" +:+ u)
  ↔ ¬ (c = "-"%char ∧ ∃ u, s = "-" +:+ u) ∧ (∀ t u, s ≠ t +:+ "--" +:+ u).
Proof.
  split.
  - intros H. split.
    + intros [-> [u ->]]. exact (H "" u eq_refl).
    + intros t u ->. exact (H (String c t) u eq_refl).
  - intros [H1 H2] [|c' t] u Ht.
    + rewrite string_app_nil_l in Ht. injection Ht as -> ->. apply H1. eauto.
    + rewrite string_app_cons in Ht. injection Ht as -> ->. exact (H2 t u eq_refl).
Qed.

(** The scan accepts the strings of the comment of line 6. *)
Lemma slug_from_shape (s : string) :
  ∀ hyphen,
  slug_from hyphen s = true
  ↔ forallb (λ c, is_alnum c || Ascii.eqb c "-") (list_ascii_of_string s) = true
    ∧ (∀ t, s ≠ t +:+ "-")
    ∧ (∀ t u, s ≠ t +:+ "--" +:+ u)
    ∧ (hyphen = true → s ≠ "" ∧ ∀ t, s ≠ "-" +:+ t).
Proof.
  induction s as [|c s IH]; intros hyphen.
  - cbn [slug_from list_ascii_of_string forallb]. split.
    + intros H. repeat split.
      * intros [|? ?]; discriminate.
      * intros [|? ?] ?; discriminate.
      * destruct hyphen; discriminate.
      * destruct hyphen; discriminate.
    + intros (_ & _ & _ & H). destruct hyphen; [|reflexivity].
      destruct (H eq_refl) as [Hne _]. congruence.
  - cbn [slug_from list_ascii_of_string forallb].
    rewrite no_hyphen_at_end_cons, no_two_hyphens_cons.
    destruct (Ascii.eqb_spec c "-") as [->|Hne].
    + rewrite andb_true_iff, (IH true), orb_true_r, andb_true_l. split.
      * intros (Hh & Hok & Hend & Htwo & Hstart).
        destruct (Hstart eq_refl) as [Hne Hfirst].
        repeat split; try assumption.
        -- intros [_ ->]. congruence.
        -- intros [_ [u ->]]. exact (Hfirst u eq_refl).
        -- destruct hyphen; discriminate.
        -- destruct hyphen; discriminate.
      * intros (Hok & [Hne Hend] & [Hfirst Htwo] & Hstart). repeat split; try assumption.
        -- destruct hyphen; [|reflexivity].
           destruct (Hstart eq_refl) as [_ H]. destruct (H s eq_refl).
        -- intros ->. apply Hne. auto.
        -- intros t ->. apply Hfirst. eauto.
    + rewrite andb_true_iff, (IH false), orb_false_r, andb_true_iff. split.
      * intros (Hal & Hok & Hend & Htwo & _). repeat split; try assumption.
        -- intros [-> _]. congruence.
        -- intros [-> _]. congruence.
        -- discriminate.
        -- intros t Ht. rewrite string_app_cons, string_app_nil_l in Ht.
           injection Ht as -> _. congruence.
      * intros ([Hal Hok] & [_ Hend] & [_ Htwo] & _). repeat split; try assumption.
        all: discriminate.
Qed.

Lemma slug_re_shape (s : string) : full_match slug_re s = true ↔ slug_shape s.
Proof.
  rewrite (proj1 (slug_re_scan s)), slug_from_shape. unfold slug_shape.
  split.
  - intros (Hok & Hend & Htwo & Hstart). destruct (Hstart eq_refl). auto.
  - intros (Hne & Hok & Hstart & Hend & Htwo). auto.
Qed.

(** X13.  [Schema.isSlug] accepts a string exactly when it is what the
    comment of line 6 describes and has at most 20 characters (lines 6, 127,
    247-256): not empty, only letters of either case, digits and hyphens,
    no hyphen at the start or at the end, no two hyphens in a row. *)
Theorem isSlug_accepts (h : list Rules.t) (R : Rules.t) (s : string) (n : nat) this path σ :
  Schema.built (Schema.static Schema.isSlug h) = Some R →
  validate (S n) this (VString s) R path σ = (σ, Done (true, []))
  ↔ slug_shape s ∧ (String.length s ≤ 20)%nat.
Proof.
  intros HR. rewrite (static_built h Schema.isSlug _ eq_refl) in HR. injection HR as <-.
  rewrite <- slug_re_shape.
  cbn [validate]. cbn [defaults spread over Rules.coerce Rules.values Rules.union Rules.type
    Rules.length Rules.pattern with_type with_pattern with_length property coerced bind ret
    switch String.eqb Ascii.eqb Bool.eqb length_violation Schema.pair_of item lookup
    list_lookup default from_option id to_number scalar_value].
  unfold num_gt. rewrite !num_lt_of_nat.
  destruct (Nat.ltb_spec (String.length s) 0) as [Hlo|_]; [lia|].
  destruct (Nat.ltb_spec 20 (String.length s)) as [Hhi|Hhi].
  { split; [|lia]. unfold error. destruct (mapM rendered path); discriminate. }
  unfold bind, patterns.slug. rewrite test_anchored.
  destruct (full_match slug_re s); cbn [negb].
  - split; [auto | reflexivity].
  - split; [|intros [[=] _]].
    cbn. unfold error. destruct (mapM rendered path); discriminate.
Qed.

Lemma isSlug_accepts_witness :
  Schema.built (Schema.static Schema.isSlug [])
  = Some (spread defaults
            (spread (spread (with_type "string") (with_pattern (VRegExp patterns.slug)))
               (with_length (BArray [SNumber (of_nat 0); SNumber (of_nat 20)])))) ∧
  (validate 1 defaults (VString "my-first-post")
     (spread defaults
        (spread (spread (with_type "string") (with_pattern (VRegExp patterns.slug)))
           (with_length (BArray [SNumber (of_nat 0); SNumber (of_nat 20)]))))
     [] ∅ = (∅, Done (true, []))
   ↔ slug_shape "my-first-post" ∧ (String.length "my-first-post" ≤ 20)%nat).
Proof.
  assert (HR : Schema.built (Schema.static Schema.isSlug [])
    = Some (spread defaults
              (spread (spread (with_type "string") (with_pattern (VRegExp patterns.slug)))
                 (with_length (BArray [SNumber (of_nat 0); SNumber (of_nat 20)])))))
    by reflexivity.
  split; [exact HR|].
  exact (isSlug_accepts [] _ "my-first-post" 0 defaults [] ∅ HR).
Defined.

(** ** The middleware *)

Lemma own_nesting (key : string) (fields : list (string * jsval)) (v : jsval) :
  own key fields = Some v →
  (nesting v ≤ max_list (map (λ field, nesting (snd field)) fields))%nat.
Proof.
  intros H. apply max_list_In.
  induction fields as [|[k x] fields IH]; cbn [own map snd] in *; [discriminate|].
  destruct (String.eqb k key).
  - injection H as ->. left. reflexivity.
  - right. apply IH, H.
Qed.

(** One invalid member among members that all return makes the object
    invalid. *)
Lemma named_invalid (n : nat) this value path props key rules_ messages :
  (∀ e, In e (Props.entries props) →
        returns (let '(key, rules_) := e in
                 validate n this (get value key) (default this rules_) (path ++ [Key key]))) →
  In (key, rules_) (Props.entries props) →
  (∀ σ, validate n this (get value key) (default this rules_) (path ++ [Key key]) σ
        = (σ, Done (false, messages))) →
  ∃ all, ∀ σ, bind (named n this value path props) concluded σ = (σ, Done (false, all)).
Proof.
  intros Hall Hin Hrun.
  destruct (map_M_returns _ _ Hall) as (rs & Hrs & Hrs').
  specialize (Hrs' (key, rules_) (false, messages) Hin Hrun).
  destruct (concluded_invalid rs messages ∅ Hrs') as (all & Hall0 & _).
  exists all. intros σ. unfold named, bind. rewrite Hrs.
  destruct (concluded_invalid rs messages σ Hrs') as (all' & Hall' & _).
  rewrite Hall'. unfold concluded, ok, ret in *.
  destruct (all_valid rs) as [valid ms]. destruct (negb valid); congruence.
Qed.

(** The rules that [Schema.isArray(ruleset)] makes of an array. *)
Lemma items_rules (items : list (option nat)) (h h' : list Rules.t) (s : nat) (R : Rules.t) :
  Middleware.schema (Middleware.Items items) h = inr (h', s) → h' !! s = Some R →
  R = Middleware.of_items.
Proof.
  unfold Middleware.schema, Schema.new, Schema.setRules. intros [= <- <-].
  rewrite list_lookup_alter_eq, lookup_app_r by lia. rewrite Nat.sub_diag.
  intros [= <-]. reflexivity.
Qed.

(** No value is valid for these rules: they ask for an object whose
    properties [0] to [4] are objects of the same kind, and a property that
    is not there is refused as [undefined]. *)
Lemma items_rules_reject (n : nat) :
  let R := Middleware.of_items in
  ∀ value path keys,
  mapM rendered path = Some keys → (nesting value ≤ n)%nat →
  ∃ messages, ∀ σ, validate (S n) R value R path σ = (σ, Done (false, messages)).
Proof.
  intros R. induction n as [|n IH]; intros value path keys Hpath Hn.
  { destruct value; cbn in Hn; lia. }
  destruct value as [| | | | | | | |a items|a fields];
    try (eexists; intros σ; cbn; unfold error; rewrite Hpath; reflexivity).
  destruct (isObject (VObject a fields)) eqn:Hobj.
  2: { eexists. intros σ. cbn [validate]. cbn [R Middleware.of_items Schema.isObject_ defaults spread over Rules.coerce Rules.values
         Rules.union Rules.type with_type with_props property coerced bind ret switch
         String.eqb Ascii.eqb Bool.eqb].
       rewrite Hobj. cbn [negb]. unfold error. rewrite Hpath. reflexivity. }
  pose (props := default (Props.Make [] None None) (Rules.props R)).
  assert (Hrun : ∀ σ, validate (S (S n)) R (VObject a fields) R path σ
                      = (if unspecified props fields
                         then error path [Txt "contains unspecified properties."]
                         else bind (named (S n) R (VObject a fields) path props) concluded) σ).
  { intros σ.
    apply (named_members_run (S n) R R path [] (VObject a fields) a fields props σ);
      first [discriminate | reflexivity | exact Hobj]. }
  destruct (unspecified props fields).
  { eexists. intros σ. rewrite Hrun. unfold error. rewrite Hpath. reflexivity. }
  assert (Hmember : ∀ key, In key ["0"; "1"; "2"; "3"; "4"] →
            ∃ ms, ∀ σ, validate (S n) R (get (VObject a fields) key) R (path ++ [Key key]) σ
                       = (σ, Done (false, ms))).
  { intros key Hkey. cbn [get].
    destruct (own key fields) as [v|] eqn:Hown.
    - apply (IH v _ _ (rendered_key _ _ key Hpath)).
      pose proof (own_nesting _ _ _ Hown). cbn [nesting] in Hn. lia.
    - assert (Hproto : mem key object_prototype = false).
      { repeat (destruct Hkey as [<-|Hkey]; [reflexivity|]). destruct Hkey. }
      rewrite Hproto. eexists. intros σ. cbn. unfold error.
      rewrite (rendered_key _ _ key Hpath). reflexivity. }
  destruct (Hmember "0") as [ms Hms]; [left; reflexivity|].
  destruct (named_invalid (S n) R (VObject a fields) path props "0" None ms) as [all Hall].
  - intros [key rules_] Hin. cbn in Hin.
    assert (Hkey : In key ["0"; "1"; "2"; "3"; "4"] ∧ rules_ = None).
    { repeat (destruct Hin as [[= <- <-]|Hin]; [split; [cbn; tauto | reflexivity]|]).
      destruct Hin. }
    destruct Hkey as [Hkey ->]. destruct (Hmember key Hkey) as [ms' Hms'].
    exists (false, ms'). exact Hms'.
  - left. reflexivity.
  - exact Hms.
  - exists all. intros σ. rewrite Hrun. apply Hall.
Qed.

(** X14.  The middleware made from an array lets no request through.
    [Schema.isArray(ruleset)] does not read the array as a list of item
    schemas: the call falls through to line 194 and [#isObject] takes
    ["array"] for its entries, so the schema asks for an object with the
    properties [0] to [4], each validated against the schema itself.  Every
    value is rejected with status 400. *)
Theorem array_ruleset_rejects_everything (items : list (option nat)) (h h' : list Rules.t)
    (s : nat) (R : Rules.t) (key : string) (values : jsval) (n : nat) σ :
  Middleware.schema (Middleware.Items items) h = inr (h', s) → h' !! s = Some R →
  (nesting values < n)%nat →
  ∃ error, Middleware.callback n key R values σ = (σ, Middleware.Rejected error)
           ∧ Middleware.status error = Some 400%nat.
Proof.
  intros Hschema HR Hn. rewrite (items_rules items h h' s R Hschema HR).
  destruct n as [|n]; [lia|].
  destruct (items_rules_reject n values [] [] eq_refl) as [messages Hrun]; [lia|].
  unfold Middleware.callback, Schema_validate. rewrite Hrun. cbn [negb].
  eexists. split; reflexivity.
Qed.

Lemma array_ruleset_rejects_everything_witness :
  Middleware.schema (Middleware.Items [Some 0%nat]) [spread defaults (with_type "number")]
  = inr ([spread defaults (with_type "number"); Middleware.of_items], 1%nat) ∧
  (nesting (VArray 1 [Scenario.num 7]) < 3)%nat ∧
  ∃ error,
    Middleware.callback 3 "json" Middleware.of_items (VArray 1 [Scenario.num 7]) ∅
    = (∅, Middleware.Rejected error)
    ∧ Middleware.status error = Some 400%nat.
Proof.
  assert (Hs : Middleware.schema (Middleware.Items [Some 0%nat])
                 [spread defaults (with_type "number")]
               = inr ([spread defaults (with_type "number"); Middleware.of_items], 1%nat))
    by reflexivity.
  assert (Hn : (nesting (VArray 1 [Scenario.num 7]) < 3)%nat) by (vm_compute; lia).
  split; [exact Hs|]. split; [exact Hn|].
  exact (array_ruleset_rejects_everything _ _ _ 1 _ "json" _ 3 ∅ Hs eq_refl Hn).
Defined.

Lemma own_fmap_keyed {A B} (f : string → A → B) (key : string) (l : list (string * A)) :
  own key (map (λ '(k, x), (k, f k x)) l) = f key <$> own key l.
Proof.
  induction l as [|[k x] l IH]; cbn [map own]; [reflexivity|].
  destruct (String.eqb k key) eqn:E; [|exact IH].
  apply String.eqb_eq in E. subst k. reflexivity.
Qed.

(** X15.  The middleware made from a plain object of schemas rejects a
    request object that has a property the ruleset does not name, whatever
    its other properties are: the callback throws a [ValidationException]
    with status 400 whose message is one line, [`key` contains unspecified
    properties.] for a plain object and [`key` is not an object.] for an
    object that has a [constructor] of its own (lines 19, 24, 30, 35-39,
    305 and 322-327). *)
Theorem plain_ruleset_rejects_unnamed (entries : list (string * option nat))
    (h h' : list Rules.t) (s : nat) (R : Rules.t) (key : string) a fields (name : string)
    (n : nat) σ :
  Middleware.schema (Middleware.Plain entries) h = inr (h', s) → h' !! s = Some R →
  In name (map fst fields) → own name entries = None →
  Middleware.callback (S n) key R (VObject a fields) σ
  = (σ, Middleware.Rejected
          {| Middleware.lines :=
               [[Txt "`"; Txt key; Txt "` ";
                 Txt (if isObject (VObject a fields)
                      then "contains unspecified properties."
                      else "is not an object.")]];
             Middleware.status := Some 400%nat |}).
Proof.
  intros Hschema HR Hin Hown.
  unfold Middleware.schema in Hschema.
  destruct (has_own "constructor" entries) eqn:Hc; [discriminate|].
  destruct (Schema.static _ h) as [[h'' s'']|] eqn:Hstatic; [|discriminate].
  injection Hschema as -> ->.
  assert (Hlit : Schema.literal (h ++ [defaults]) (Schema.isObject [Schema.AEntries entries])
                 = Some (Schema.isObject_ (h ++ [defaults]) None None entries "object")).
  { cbn [Schema.literal Schema.isObject_args Schema.constructor_of]. rewrite Hc. reflexivity. }
  pose proof (static_built h _ _ Hlit) as Hbuilt.
  rewrite Hstatic in Hbuilt. cbn [Schema.built mbind option_bind] in Hbuilt.
  rewrite HR in Hbuilt. injection Hbuilt as ->.
  set (member := λ (k : string) (schema : option nat),
         if String.eqb k "__keys__" then Schema.rules_of (h ++ [defaults]) None
         else if String.eqb k "__values__" then Schema.rules_of (h ++ [defaults]) None
         else Schema.rules_of (h ++ [defaults]) schema).
  set (props := Props.Make (map (λ '(k, schema), (k, member k schema)) entries) None None).
  set (R := spread defaults _).
  assert (HR' : R = spread defaults (spread (with_type "object") (with_props props)))
    by reflexivity.
  assert (Hrun : validate (S n) R (VObject a fields) R [] σ
                 = (σ, Done (false, [([], [Txt (if isObject (VObject a fields)
                                                then "contains unspecified properties."
                                                else "is not an object.")])]))).
  { destruct (isObject (VObject a fields)) eqn:Hobj.
    - rewrite (named_members_run n R R [] [] (VObject a fields) a fields props σ);
        try first [discriminate | reflexivity | exact Hobj].
      + rewrite unspecified_true; [reflexivity|].
        exists name. split; [exact Hin|]. unfold props. cbn [Props.entries].
        rewrite own_fmap_keyed, Hown. reflexivity.
      + rewrite HR'. unfold structured.
        cbn [spread over Rules.props with_props with_type defaults].
        unfold props at 1. cbn [Props.entries]. unfold has_own in *.
        rewrite own_fmap_keyed. destruct (own "constructor" entries); [|reflexivity].
        apply bool_decide_eq_false in Hc. destruct Hc. eauto.
    - rewrite HR'. cbn [validate]. cbn [defaults spread over Rules.coerce Rules.values
        Rules.union Rules.type with_type with_props property coerced bind ret switch
        String.eqb Ascii.eqb Bool.eqb].
      rewrite Hobj. reflexivity. }
  unfold Middleware.callback, Schema_validate. rewrite Hrun. reflexivity.
Qed.

Lemma plain_ruleset_rejects_unnamed_witness :
  Middleware.schema (Middleware.Plain [("a", Some 0%nat)]) [spread defaults (with_type "string")]
  = inr ([spread defaults (with_type "string"); Sample.only_a], 1%nat) ∧
  In "b" (map fst [("a", VString "x"); ("b", Scenario.num 1)]) ∧
  own "b" [("a", Some 0%nat)] = None ∧
  Middleware.callback 1 "json" Sample.only_a Scenario.a_and_b ∅
  = (∅, Middleware.Rejected
          {| Middleware.lines :=
               [[Txt "`"; Txt "json"; Txt "` "; Txt "contains unspecified properties."]];
             Middleware.status := Some 400%nat |}).
Proof.
  assert (Hs : Middleware.schema (Middleware.Plain [("a", Some 0%nat)])
                 [spread defaults (with_type "string")]
               = inr ([spread defaults (with_type "string"); Sample.only_a], 1%nat))
    by reflexivity.
  assert (Hi : In "b" (map fst [("a", VString "x"); ("b", Scenario.num 1)]))
    by (right; left; reflexivity).
  assert (Hn : own "b" [("a", Some 0%nat)] = None) by reflexivity.
  split; [exact Hs|]. split; [exact Hi|]. split; [exact Hn|].
  exact (plain_ruleset_rejects_unnamed _ _ _ 1 _ "json" 12 _ "b" 0 ∅ Hs eq_refl Hi Hn).
Defined.

(** ** Rules that take precedence *)

Lemma map_M_ext_in {A B} (f g : A → M B) (l : list A) :
  (∀ x, In x l → f x = g x) → map_M f l = map_M g l.
Proof.
  induction l as [|x l IH]; intros H; [reflexivity|].
  cbn [map_M]. rewrite (H x (or_introl eq_refl)), IH; [reflexivity|].
  intros y Hy. apply H. right. exact Hy.
Qed.

Lemma alternative_uncoerced (rules : Rules.t) (o : option Rules.t) :
  (∃ u, o = Some u ∧ is_Some (Rules.coerce u)) →
  alternative (spread rules (with_coerce [])) o = alternative rules o.
Proof.
  intros (u & -> & [cs Hcs]). unfold alternative, spread. cbn. rewrite Hcs. reflexivity.
Qed.

(** X16.  Coercion is a step of its own between the presence rules and all
    the others (lines 211-217): on a value that is neither [undefined] nor
    [null], the run with the coercers is the run without them on the coerced
    value, the members and the alternatives of a union included.  (The
    presence rules are not applied again: the coerced value is taken not to
    be [undefined] or [null].) *)
Theorem coercion_comes_first (n : nat) this value value' rules path coercers us σ :
  Rules.coerce rules = Some coercers →
  coerced coercers value σ = (σ, Done value') →
  value ≠ VUndefined → value ≠ VNull → value' ≠ VUndefined → value' ≠ VNull →
  Rules.union rules = Some us →
  Forall (λ o, ∃ u, o = Some u ∧ is_Some (Rules.coerce u)) us →
  validate (S n) this value rules path σ
  = validate (S n) this value' (spread rules (with_coerce [])) path σ.
Proof.
  intros Hc Hco Hu Hn Hu' Hn' Hus Halt.
  assert (Hmap : ∀ v,
            map_M (λ rules_, validate n this v
                               (alternative (spread rules (with_coerce [])) rules_) path) us
            = map_M (λ rules_, validate n this v (alternative rules rules_) path) us).
  { intros v. apply map_M_ext_in. intros o Ho. rewrite alternative_uncoerced; [reflexivity|].
    rewrite Forall_forall in Halt. apply Halt, list_elem_of_In, Ho. }
  remember (spread rules (with_coerce [])) as rules' eqn:E.
  assert (H' : Rules.coerce rules' = Some [] ∧ Rules.values rules' = Rules.values rules
               ∧ Rules.union rules' = Rules.union rules ∧ Rules.type rules' = Rules.type rules
               ∧ Rules.length rules' = Rules.length rules
               ∧ Rules.pattern rules' = Rules.pattern rules
               ∧ Rules.integer rules' = Rules.integer rules
               ∧ Rules.range rules' = Rules.range rules
               ∧ Rules.size rules' = Rules.size rules
               ∧ structured rules' = structured rules)
    by (subst rules'; repeat split; reflexivity).
  destruct H' as (Hc' & Hv' & Hun' & Hty' & Hle' & Hpa' & Hint' & Hra' & Hsi' & Hst').
  destruct value; try congruence; destruct value'; try congruence;
    cbn [validate];
    rewrite ?Hc', ?Hv', ?Hun', ?Hty', ?Hle', ?Hpa', ?Hint', ?Hra', ?Hsi', ?Hst', ?Hc, ?Hus;
    unfold bind; cbn [property coerced ret]; rewrite Hco, ?Hmap; reflexivity.
Qed.

Lemma coercion_comes_first_witness :
  Rules.coerce Sample.length_as_number = Some [Sample.to_length] ∧
  coerced [Sample.to_length] (VString "abc") ∅ = (∅, Done (Scenario.num 3)) ∧
  Rules.union Sample.length_as_number = Some [] ∧
  validate 1 defaults (VString "abc") Sample.length_as_number [] ∅
  = validate 1 defaults (Scenario.num 3) (spread Sample.length_as_number (with_coerce [])) [] ∅.
Proof.
  assert (Hc : Rules.coerce Sample.length_as_number = Some [Sample.to_length]) by reflexivity.
  assert (Hco : coerced [Sample.to_length] (VString "abc") ∅ = (∅, Done (Scenario.num 3)))
    by reflexivity.
  assert (Hus : Rules.union Sample.length_as_number = Some []) by reflexivity.
  split; [exact Hc|]. split; [exact Hco|]. split; [exact Hus|].
  apply (coercion_comes_first 0 defaults (VString "abc") (Scenario.num 3)
           Sample.length_as_number [] [Sample.to_length] [] ∅ Hc Hco);
    first [discriminate | exact Hus | constructor].
Defined.

(** X17.  A list of literal values decides alone (lines 219-222): when
    [rules.values] is not empty, the type, the union, the bounds, the
    pattern and the members are not consulted.  Two rule sets that agree on
    [required], [null], [coerce] and [values] give the same result on every
    value. *)
Theorem values_decide_alone (n : nat) this value (r1 r2 : Rules.t) path v vs σ :
  Rules.required r1 = Rules.required r2 → Rules.null r1 = Rules.null r2 →
  Rules.coerce r1 = Rules.coerce r2 →
  Rules.values r1 = Some (v :: vs) → Rules.values r2 = Some (v :: vs) →
  validate (S n) this value r1 path σ = validate (S n) this value r2 path σ.
Proof.
  intros Hreq Hnull Hc Hv1 Hv2.
  destruct value; cbn [validate]; rewrite ?Hreq, ?Hnull, ?Hc, ?Hv1, ?Hv2;
    try reflexivity;
    unfold bind; destruct (property (Rules.coerce r2) σ) as [σ1 [cs| |]]; try reflexivity;
    destruct (coerced cs _ σ1) as [σ2 [value'| |]]; reflexivity.
Qed.

Lemma values_decide_alone_witness :
  Rules.required (spread defaults (with_values [VString "x"]))
  = Rules.required (spread (spread defaults (with_type "number")) (with_values [VString "x"])) ∧
  validate 1 defaults (VString "x") (spread defaults (with_values [VString "x"])) [] ∅
  = validate 1 defaults (VString "x")
      (spread (spread defaults (with_type "number")) (with_values [VString "x"])) [] ∅.
Proof.
  split; [reflexivity|].
  apply (values_decide_alone 0 defaults (VString "x")
           (spread defaults (with_values [VString "x"]))
           (spread (spread defaults (with_type "number")) (with_values [VString "x"]))
           [] (VString "x") [] ∅); reflexivity.
Defined.

(** ** Keys in the path of a message *)

Lemma replace_index_plain (s : string) :
  forallb (λ c, negb (Ascii.eqb c ".")) (list_ascii_of_string s) = true →
  replace_index None s = s.
Proof.
  induction s as [|c s IH]; cbn [list_ascii_of_string forallb replace_index flush];
    [reflexivity|].
  intros H. apply andb_true_iff in H as [Hc Hs].
  destruct (Ascii.eqb c "."); [discriminate|]. rewrite (IH Hs). reflexivity.
Qed.

(** X18.  The replacement of line 208 leaves a key without a dot as it is:
    it looks for a dot followed by digits inside one key, and the keys of a
    path are joined nowhere before it runs.  A message at a path of such
    keys, the decimal keys of array items included, carries the keys
    unchanged. *)
Theorem plain_keys_unchanged (keys : list string) (message : list piece) σ :
  Forall (λ key, forallb (λ c, negb (Ascii.eqb c ".")) (list_ascii_of_string key) = true)
         keys →
  error (map Key keys) message σ = (σ, Done (false, [(keys, message)])).
Proof.
  intros H. unfold error.
  assert (Hm : mapM rendered (map Key keys) = Some keys).
  { apply mapM_Some. induction H as [|key keys Hkey _ IH]; cbn [map]; constructor.
    - cbn [rendered]. unfold index_style. rewrite (replace_index_plain _ Hkey). reflexivity.
    - exact IH. }
  rewrite Hm. reflexivity.
Qed.

Lemma plain_keys_unchanged_witness :
  Forall (λ key, forallb (λ c, negb (Ascii.eqb c ".")) (list_ascii_of_string key) = true)
         ["tags"; "1"] ∧
  error [Key "tags"; Key "1"] [Txt "is not a string."] ∅
  = (∅, Done (false, [(["tags"; "1"], [Txt "is not a string."])])).
Proof.
  assert (H : Forall (λ key, forallb (λ c, negb (Ascii.eqb c "."))
                               (list_ascii_of_string key) = true) ["tags"; "1"])
    by (repeat constructor).
  split; [exact H|].
  exact (plain_keys_unchanged ["tags"; "1"] [Txt "is not a string."] ∅ H).
Defined.

(** ** Rules of chained calls *)

Lemma complete_spread (old lit : Rules.t) : complete old = true → complete (spread old lit) = true.
Proof.
  unfold complete. rewrite !andb_true_iff, !bool_decide_eq_true.
  intros (((((H1 & H2) & H3) & H4) & H5) & H6).
  destruct H1, H2, H3, H4, H5, H6. cbn [spread Rules.required Rules.null Rules.coerce
    Rules.values Rules.union Rules.type].
  repeat split; unfold over;
    match goal with |- is_Some (match ?x with _ => _ end) => destruct x; eauto end.
Qed.

Lemma chained_complete (ms : list Schema.method) :
  ∀ (h h' : list Rules.t) (this s : nat) (old : Rules.t),
  h !! this = Some old → complete old = true →
  Schema.chained this ms h = Some (h', s) →
  s = this ∧ ∃ R, h' !! this = Some R ∧ complete R = true.
Proof.
  induction ms as [|m ms IH]; intros h h' this s old Hold Hc Hrun.
  - cbn in Hrun. injection Hrun as <- <-. eauto.
  - cbn [Schema.chained] in Hrun. unfold Schema.call in Hrun.
    destruct (Schema.literal h m) as [lit|]; [|discriminate].
    cbn [mbind option_bind Schema.setRules] in Hrun.
    apply (IH _ h' this s (spread old lit)) in Hrun; [exact Hrun | | apply complete_spread, Hc].
    rewrite list_lookup_alter_eq, Hold. reflexivity.
Qed.

(** X19.  Whatever is chained on a static shorthand, the instance keeps the
    six properties of line 100: [setRules] (lines 102-105) only ever spreads
    an object literal over the rules the instance holds.  The chain returns
    the instance that [new this()] made, and [validate] finds a [coerce], a
    [values] and a [union] to take the length of. *)
Theorem chain_keeps_defaults (ms : list Schema.method) (h h' : list Rules.t) (s : nat) :
  Schema.chain ms h = Some (h', s) →
  s = List.length h ∧ ∃ R, h' !! s = Some R ∧ complete R = true.
Proof.
  unfold Schema.chain, Schema.new. intros Hrun.
  assert (Hnew : (h ++ [defaults]) !! List.length h = Some defaults).
  { rewrite lookup_app_r by lia. rewrite Nat.sub_diag. reflexivity. }
  destruct (chained_complete ms _ _ _ _ defaults Hnew eq_refl Hrun) as [-> HR].
  split; [reflexivity | exact HR].
Qed.

Lemma chain_keeps_defaults_witness :
  Schema.chain [Schema.isOptional; Schema.isInteger; Schema.isAtLeast (Scenario.num 1)] []
  = Some ([spread (spread (spread defaults (with_required false))
                     (spread (with_type "number") (with_integer true)))
             (with_range (VArray 0 [Scenario.num 1; VNumber Infinity]))], 0%nat) ∧
  0%nat = List.length ([] : list Rules.t) ∧
  ∃ R, [spread (spread (spread defaults (with_required false))
                  (spread (with_type "number") (with_integer true)))
          (with_range (VArray 0 [Scenario.num 1; VNumber Infinity]))] !! 0%nat = Some R
       ∧ complete R = true.
Proof.
  assert (H : Schema.chain [Schema.isOptional; Schema.isInteger;
                            Schema.isAtLeast (Scenario.num 1)] []
              = Some ([spread (spread (spread defaults (with_required false))
                                 (spread (with_type "number") (with_integer true)))
                         (with_range (VArray 0 [Scenario.num 1; VNumber Infinity]))], 0%nat))
    by reflexivity.
  split; [exact H|].
  exact (chain_keeps_defaults _ [] _ 0 H).
Defined.

(** X20.  A bound replaces the bound before it: [isAtLeast] and [isAtMost]
    both assign the whole [range] (lines 147-148), and [setRules] keeps the
    last one.  [Schema.isNumber.isAtLeast(lo).isAtMost(hi)] accepts a finite
    number exactly when it is at most [hi]; the lower bound is gone. *)
Theorem isAtMost_replaces_isAtLeast (h : list Rules.t) (R : Rules.t) (lo hi q : Q)
    (n : nat) this path σ :
  Schema.built (Schema.chain [Schema.isNumber; Schema.isAtLeast (VNumber (Finite lo));
                              Schema.isAtMost (VNumber (Finite hi))] h)
  = Some R →
  validate (S n) this (VNumber (Finite q)) R path σ = (σ, Done (true, [])) ↔ (q <= hi)%Q.
Proof.
  intros HR.
  rewrite (chain_built _ [spread (with_type "number") (with_integer false);
                          with_range (Schema.range_of (VNumber (Finite lo)) (VNumber Infinity));
                          with_range (Schema.range_of (VNumber NegInfinity)
                                        (VNumber (Finite hi)))]) in HR
    by (repeat constructor).
  injection HR as <-.
  cbn [validate]. cbn [foldl defaults spread over Rules.coerce Rules.values Rules.union
    Rules.type Rules.integer Rules.range with_type with_integer with_range property coerced
    bind ret switch String.eqb Ascii.eqb Bool.eqb number_range_violation Schema.range_of item
    lookup list_lookup default from_option id below above andb num_lt].
  rewrite <- num_lt_false. unfold num_gt.
  destruct (num_lt (Finite hi) (Finite q)).
  { split; [|discriminate]. unfold error. destruct (mapM rendered path); discriminate. }
  split; reflexivity.
Qed.

Lemma isAtMost_replaces_isAtLeast_witness :
  Schema.built (Schema.chain [Schema.isNumber; Schema.isAtLeast (VNumber (Finite (1 # 1)));
                              Schema.isAtMost (VNumber (Finite (5 # 1)))] [])
  = Some (spread (spread (spread defaults (spread (with_type "number") (with_integer false)))
                    (with_range (VArray 0 [VNumber (Finite (1 # 1)); VNumber Infinity])))
            (with_range (VArray 0 [VNumber NegInfinity; VNumber (Finite (5 # 1))]))) ∧
  (validate 1 defaults (VNumber (Finite (0 # 1)))
     (spread (spread (spread defaults (spread (with_type "number") (with_integer false)))
                (with_range (VArray 0 [VNumber (Finite (1 # 1)); VNumber Infinity])))
        (with_range (VArray 0 [VNumber NegInfinity; VNumber (Finite (5 # 1))]))) [] ∅
   = (∅, Done (true, []))
   ↔ (0 # 1 <= 5 # 1)%Q).
Proof.
  assert (HR : Schema.built (Schema.chain [Schema.isNumber;
                               Schema.isAtLeast (VNumber (Finite (1 # 1)));
                               Schema.isAtMost (VNumber (Finite (5 # 1)))] [])
    = Some (spread (spread (spread defaults (spread (with_type "number") (with_integer false)))
                      (with_range (VArray 0 [VNumber (Finite (1 # 1)); VNumber Infinity])))
              (with_range (VArray 0 [VNumber NegInfinity; VNumber (Finite (5 # 1))]))))
    by reflexivity.
  split; [exact HR|].
  exact (isAtMost_replaces_isAtLeast [] _ (1 # 1) (5 # 1) (0 # 1) 0 defaults [] ∅ HR).
Defined.

(** X21.  [Schema.isDate.isBetween(min, max)] with two dates accepts a date
    exactly when its time is at least that of [min] and at most that of
    [max] (lines 144, 149 and 276-288); both bounds are inclusive. *)
Theorem isDate_isBetween_inclusive (h : list Rules.t) (R : Rules.t) (a1 a2 a : nat)
    (lo hi t : Q) (n : nat) this path σ :
  Schema.built (Schema.chain [Schema.isDate;
                              Schema.isBetween (VDate a1 (Finite lo)) (VDate a2 (Finite hi))] h)
  = Some R →
  validate (S n) this (VDate a (Finite t)) R path σ = (σ, Done (true, []))
  ↔ (lo <= t)%Q ∧ (t <= hi)%Q.
Proof.
  intros HR.
  rewrite (chain_built _ [with_type "date";
                          with_range (Schema.range_of (VDate a1 (Finite lo))
                                        (VDate a2 (Finite hi)))]) in HR
    by (repeat constructor).
  injection HR as <-.
  cbn [validate]. cbn [foldl defaults spread over Rules.coerce Rules.values Rules.union
    Rules.type Rules.range with_type with_range property coerced
    bind ret switch String.eqb Ascii.eqb Bool.eqb date_range_violation Schema.range_of item
    lookup list_lookup default from_option id before after].
  rewrite <- !num_lt_false. unfold num_gt.
  destruct (num_lt (Finite t) (Finite lo)).
  { split; [|intros [[=] _]]. unfold error. destruct (mapM rendered path); discriminate. }
  destruct (num_lt (Finite hi) (Finite t)).
  { split; [|intros [_ [=]]]. unfold error. destruct (mapM rendered path); discriminate. }
  split; [auto | reflexivity].
Qed.

Lemma isDate_isBetween_inclusive_witness :
  Schema.built (Schema.chain [Schema.isDate;
                              Schema.isBetween (VDate 1 (Finite (10 # 1)))
                                (VDate 2 (Finite (20 # 1)))] [])
  = Some (spread (spread defaults (with_type "date"))
            (with_range (VArray 0 [VDate 1 (Finite (10 # 1)); VDate 2 (Finite (20 # 1))]))) ∧
  (validate 1 defaults (VDate 3 (Finite (10 # 1)))
     (spread (spread defaults (with_type "date"))
        (with_range (VArray 0 [VDate 1 (Finite (10 # 1)); VDate 2 (Finite (20 # 1))]))) [] ∅
   = (∅, Done (true, []))
   ↔ (10 # 1 <= 10 # 1)%Q ∧ (10 # 1 <= 20 # 1)%Q).
Proof.
  assert (HR : Schema.built (Schema.chain [Schema.isDate;
                              Schema.isBetween (VDate 1 (Finite (10 # 1)))
                                (VDate 2 (Finite (20 # 1)))] [])
    = Some (spread (spread defaults (with_type "date"))
              (with_range (VArray 0 [VDate 1 (Finite (10 # 1)); VDate 2 (Finite (20 # 1))]))))
    by reflexivity.
  split; [exact HR|].
  exact (isDate_isBetween_inclusive [] _ 1 2 3 (10 # 1) (20 # 1) (10 # 1) 0 defaults [] ∅ HR).
Defined.

(** ** The instance whose method runs *)

(** X22.  With rules given as the second argument, the instance on which
    [validate] is called matters only through entries of a [props] that hold
    no rules: when every entry of the rules, at every level, holds a rules
    object, two instances give the same result (lines 206, 331 and 387). *)
Theorem receiver_is_immaterial (n : nat) (this1 this2 : Rules.t) value rules path σ :
  closed rules = true →
  validate n this1 value rules path σ = validate n this2 value rules path σ.
Proof. intros Hc. apply (validate_this n this1 this2 value rules path Hc). Qed.

Lemma receiver_is_immaterial_witness :
  closed Sample.id_and_tags = true ∧
  validate 3 defaults Scenario.not_a_uuid Sample.id_and_tags [] ∅
  = validate 3 Sample.only_a Scenario.not_a_uuid Sample.id_and_tags [] ∅.
Proof.
  assert (Hc : closed Sample.id_and_tags = true) by reflexivity.
  split; [exact Hc|].
  exact (receiver_is_immaterial 3 defaults Sample.only_a Scenario.not_a_uuid
           Sample.id_and_tags [] ∅ Hc).
Defined.

(** ** Objects read as maps *)

Lemma map_M_valid {A} (f : A → M (bool * list (list string * list piece))) (l : list A) σ :
  (∀ x, In x l → pure (f x)) →
  (∃ rs, map_M f l σ = (σ, Done rs) ∧ forallb fst rs = true)
  ↔ (∀ x, In x l → ∃ ms, f x σ = (σ, Done (true, ms))).
Proof.
  induction l as [|x l IH]; intros Hpure.
  - split; [intros _ ? [] | intros _; exists []; split; reflexivity].
  - destruct (Hpure x (or_introl eq_refl)) as [o Ho].
    destruct (pure_map_M f l (λ y Hy, Hpure y (or_intror Hy))) as [o' Ho'].
    specialize (IH (λ y Hy, Hpure y (or_intror Hy))).
    cbn [map_M]. unfold bind. rewrite Ho. split.
    + intros (rs & Hrun & Hall).
      destruct o as [[valid ms]| |]; try discriminate.
      rewrite Ho' in Hrun. destruct o' as [rs'| |]; try discriminate.
      injection Hrun as <-. cbn [forallb fst] in Hall.
      apply andb_true_iff in Hall as [-> Hall].
      intros y [<-|Hy]; [eauto|].
      apply (proj1 IH); [|exact Hy]. exists rs'. rewrite Ho'. auto.
    + intros H. destruct (H x (or_introl eq_refl)) as [ms Hms].
      rewrite Ho in Hms. injection Hms as ->.
      destruct (proj2 IH (λ y Hy, H y (or_intror Hy))) as (rs & Hrs & Hall).
      rewrite Hrs. exists ((true, ms) :: rs). split; [reflexivity|].
      cbn [forallb fst]. exact Hall.
Qed.


(** X23.  [Schema.isObject(keys, values)] reads an object as a map (lines
    179-180, 305 and 334-351).  With patterns that carry no [g] or [y] flag,
    an object is valid exactly when it is a plain object (it has no
    [constructor] of its own) and, for every property whose key is not
    [__keys__], [__values__] or a name that objects inherit, the key, as a
    string, is valid for the schema of the keys and the value is valid for
    the schema of the values.  The properties with such keys are passed
    over. *)
Theorem keyed_object_valid (h : list Rules.t) (k v : nat) (Rk Rv R : Rules.t) (n : nat)
    this a fields path σ :
  h !! k = Some Rk → h !! v = Some Rv →
  Schema.built (Schema.static (Schema.isObject [Schema.ASchema k; Schema.ASchema v]) h)
  = Some R →
  stateless this = true → stateless Rk = true → stateless Rv = true →
  validate (S n) this (VObject a fields) R path σ = (σ, Done (true, []))
  ↔ isObject (VObject a fields) = true
    ∧ ∀ key value, In (key, value) fields →
        mem key (["__keys__"; "__values__"] ++ object_prototype) = false →
        (∃ ms, validate n this (VString key) Rk (path ++ [Key (key +:+ "*")]) σ
               = (σ, Done (true, ms)))
        ∧ (∃ ms, validate n this value Rv (path ++ [Key key]) σ = (σ, Done (true, ms))).
Proof.
  intros Hk Hv HR Hthis HRk HRv.
  assert (Hlit : Schema.literal (h ++ [defaults])
                   (Schema.isObject [Schema.ASchema k; Schema.ASchema v])
                 = Some (spread (with_type "object")
                           (with_props (Props.Make [] (Some Rk) (Some Rv))))).
  { cbn. unfold Schema.isObject_. cbn.
    rewrite (lookup_app_l_Some _ _ _ _ Hk), (lookup_app_l_Some _ _ _ _ Hv). reflexivity. }
  rewrite (static_built h _ _ Hlit) in HR. injection HR as <-.
  destruct (isObject (VObject a fields)) eqn:Hobj.
  2: { split; [|intros [[=] _]].
       cbn [validate]. cbn [defaults spread over Rules.coerce Rules.values Rules.union
         Rules.type with_type with_props property coerced bind ret switch
         String.eqb Ascii.eqb Bool.eqb].
       rewrite Hobj. cbn [negb]. unfold error. destruct (mapM rendered path); discriminate. }
  set (props := Props.Make [] (Some Rk) (Some Rv) : Props.t Rules.t).
  set (unnamed := filter (λ entry : string * jsval, negb (key_in (fst entry) props)) fields).
  assert (Hunnamed : ∀ key value,
            In (key, value) unnamed
            ↔ In (key, value) fields
              ∧ mem key (["__keys__"; "__values__"] ++ object_prototype) = false).
  { intros key value. unfold unnamed. rewrite <- !list_elem_of_In, list_elem_of_filter.
    cbn [fst]. unfold key_in, has_own, mem. cbn [props Props.entries own].
    rewrite existsb_app.
    rewrite (bool_decide_eq_false_2 (is_Some None)) by (intros [? [=]]).
    cbn [orb]. destruct (_ || _); cbn; intuition discriminate. }
  set (fk := (λ '(key, _), validate n this (VString key) Rk (path ++ [Key (key +:+ "*")]))
             : string * jsval → M (bool * list (list string * list piece))).
  set (fv := (λ '(key, value_), validate n this value_ Rv (path ++ [Key key]))
             : string * jsval → M (bool * list (list string * list piece))).
  assert (Hrun : ∀ τ, validate (S n) this (VObject a fields)
                     (spread defaults (spread (with_type "object") (with_props props))) path τ
                   = bind (map_M fk unnamed)
                       (λ ks, bind (map_M fv unnamed) (λ vs, concluded (ks ++ vs))) τ).
  { intros τ. cbn [validate]. cbn [defaults spread over Rules.coerce Rules.values Rules.union
      Rules.type Rules.size Rules.props with_type with_props property coerced bind ret
      switch String.eqb Ascii.eqb Bool.eqb size_violation].
    rewrite Hobj. cbn [negb].
    change (structured _) with (Some props).
    cbn [props Props.entries Props.__keys__ Props.__values__ map_M].
    rewrite bool_decide_eq_false_2 by (intros [[=] _]). cbn [andb].
    reflexivity. }
  fold props. rewrite Hrun.
  assert (Hpk : ∀ x, In x unnamed → pure (fk x)).
  { intros [key value] _. apply validate_pure; assumption. }
  assert (Hpv : ∀ x, In x unnamed → pure (fv x)).
  { intros [key value] _. apply validate_pure; assumption. }
  pose proof (map_M_valid fk unnamed σ Hpk) as Hck.
  pose proof (map_M_valid fv unnamed σ Hpv) as Hcv.
  destruct (pure_map_M fk unnamed Hpk) as [ok Hok].
  destruct (pure_map_M fv unnamed Hpv) as [ov Hov].
  unfold bind. rewrite Hok.
  split.
  - intros Hvalid. split; [reflexivity|].
    destruct ok as [ks| |]; try discriminate.
    rewrite Hov in Hvalid. destruct ov as [vs| |]; try discriminate.
    unfold concluded in Hvalid. rewrite all_valid_eq in Hvalid.
    destruct (forallb fst (ks ++ vs)) eqn:Hall; [|discriminate].
    rewrite forallb_app in Hall. apply andb_true_iff in Hall as [Hks Hvs].
    intros key value Hin Hkey.
    assert (Hin' : In (key, value) unnamed) by (apply Hunnamed; auto).
    split.
    + apply (proj1 Hck (ex_intro _ ks (conj (Hok σ) Hks)) (key, value) Hin').
    + apply (proj1 Hcv (ex_intro _ vs (conj (Hov σ) Hvs)) (key, value) Hin').
  - intros [_ H].
    assert (Hks' : ∀ x, In x unnamed → ∃ ms, fk x σ = (σ, Done (true, ms))).
    { intros [key value] Hx. apply Hunnamed in Hx as [Hx Hkey].
      exact (proj1 (H key value Hx Hkey)). }
    assert (Hvs' : ∀ x, In x unnamed → ∃ ms, fv x σ = (σ, Done (true, ms))).
    { intros [key value] Hx. apply Hunnamed in Hx as [Hx Hkey].
      exact (proj2 (H key value Hx Hkey)). }
    destruct (proj2 Hck Hks') as (ks & Hks & Hkall).
    destruct (proj2 Hcv Hvs') as (vs & Hvs & Hvall).
    rewrite Hok in Hks. injection Hks as ->. rewrite Hov.
    rewrite Hov in Hvs. injection Hvs as ->.
    unfold concluded. rewrite all_valid_eq, forallb_app, Hkall, Hvall. reflexivity.
Qed.

Lemma keyed_object_valid_witness :
  Schema.built (Schema.static (Schema.isObject [Schema.ASchema 0; Schema.ASchema 1])
                  [Sample.at_most_three; Sample.a_number]) = Some Sample.keyed ∧
  (validate 2 defaults (VObject 1 [("ab", Scenario.num 1); ("toString", VString "x")])
     Sample.keyed [] ∅
   = (∅, Done (true, []))
   ↔ isObject (VObject 1 [("ab", Scenario.num 1); ("toString", VString "x")]) = true
     ∧ ∀ key value, In (key, value) [("ab", Scenario.num 1); ("toString", VString "x")] →
         mem key (["__keys__"; "__values__"] ++ object_prototype) = false →
         (∃ ms, validate 1 defaults (VString key) Sample.at_most_three
                  ([] ++ [Key (key +:+ "*")]) ∅ = (∅, Done (true, ms)))
         ∧ (∃ ms, validate 1 defaults value Sample.a_number ([] ++ [Key key]) ∅
                  = (∅, Done (true, ms)))).
Proof.
  assert (HR : Schema.built (Schema.static
                  (Schema.isObject [Schema.ASchema 0; Schema.ASchema 1])
                  [Sample.at_most_three; Sample.a_number]) = Some Sample.keyed)
    by reflexivity.
  split; [exact HR|].
  exact (keyed_object_valid [Sample.at_most_three; Sample.a_number] 0 1
           Sample.at_most_three Sample.a_number Sample.keyed 1 defaults 1
           [("ab", Scenario.num 1); ("toString", VString "x")] [] ∅
           eq_refl eq_refl HR eq_refl eq_refl eq_refl).
Defined.

(** ** Paths that hold an index *)

(** X24.  No violation is ever reported at or below an additional item of
    an array.  The path of such an item holds the number [i] (line 393), on
    which line 208 cannot call [replace]: a call of [validate] at a path
    that holds an index returns valid without a message, or it does not
    return. *)
Theorem index_paths_report_nothing (n : nat) this value rules path σ σ' r :
  mapM rendered path = None →
  validate n this value rules path σ = (σ', Done r) →
  r = (true, []).
Proof.
  intros Hpath Hrun.
  pose proof (validate_located n this value rules path _ _ _ Hrun) as Hall.
  pose proof (invalid_has_messages n this value rules path _ _ _ Hrun) as Htold.
  destruct r as [valid messages]. unfold located, told in *. cbn [fst snd] in *.
  assert (Hnone : messages = []).
  { destruct messages as [|m ms]; [reflexivity|].
    inversion Hall as [|? ? (keys & rest & Hkeys & _) _]. congruence. }
  subst messages. destruct valid; [reflexivity|].
  destruct (Htold eq_refl eq_refl).
Qed.

Lemma index_paths_report_nothing_witness :
  mapM rendered [Key "tags"; Index 0] = None ∧
  validate 1 defaults (VString "a") defaults [Key "tags"; Index 0] ∅
  = (∅, Done (true, [])) ∧
  (true, [] : list (list string * list piece)) = (true, []).
Proof.
  assert (Hp : mapM rendered [Key "tags"; Index 0] = None) by reflexivity.
  assert (Hr : validate 1 defaults (VString "a") defaults [Key "tags"; Index 0] ∅
               = (∅, Done (true, []))) by reflexivity.
  split; [exact Hp|]. split; [exact Hr|].
  exact (index_paths_report_nothing 1 defaults (VString "a") defaults
           [Key "tags"; Index 0] ∅ ∅ (true, []) Hp Hr).
Defined.

(** ** Calls of [isObject] and [isArray] that meet no case *)

Section dispatch.
Import Schema.

(** [Schema.isObject({constructor: f})]: the argument's [constructor] is
    neither the class nor [Object], the call goes on to [case 2] and the
    object is taken for [keys]; the [props] has no entry. *)
Example isObject_own_constructor :
  isObject_args [] [AEntries [("constructor", None)]]
  = SetRules (isObject_ [] None None [] "object").
Proof. reflexivity. Qed.

(** The same call of [isArray] takes ["array"] for the entries and leaves
    the type to its default, as for an array. *)
Example isArray_own_constructor :
  isArray_args [] [AEntries [("constructor", None)]]
  = SetRules (isObject_ [] None None Middleware.characters "object").
Proof. reflexivity. Qed.

Example isObject_undefined :
  isObject_args [] [AUndefined]
  = Throws (TypeError "Cannot read properties of undefined (reading 'constructor')").
Proof. reflexivity. Qed.

Example isArray_four_arguments :
  isArray_args [] [AUndefined; AUndefined; AUndefined; AUndefined] = ReturnsUndefined.
Proof. reflexivity. Qed.

(** An entry named [__values__] ends up with the rules of [values]. *)
Example entry_named_values :
  ∃ p, Rules.props (isObject_ [defaults; spread defaults (with_type "number")]
                      None (Some 1%nat) [("__values__", Some 0%nat)] "object") = Some p
       ∧ Props.entries p = [("__values__", Some (spread defaults (with_type "number")))]
       ∧ Props.__values__ p = Some (spread defaults (with_type "number")).
Proof. eexists. repeat split; reflexivity. Qed.

Example array_prototype_is_an_array : get (VArray 1 [VNull]) "__proto__" = VArray 0 [].
Proof. reflexivity. Qed.

End dispatch.

(** * Objects with named members: the verdict of the members *)






